(** * Ride-sharing service: matching and ride life cycle

    A shallow embedding of [utils.py], [models.py], [service.py] and the
    stage-3 methods collected in [1.1utils.py].

    Conventions of the embedding.
    - A Python [float] is read as a real number ([R]) and an arithmetic
      expression of the code as the same expression on real numbers,
      bracketed as the code evaluates it: the rounding of binary64 is not
      modelled.  A statement about floats is therefore either the
      expression the code evaluates, or a fact that does not depend on
      the values.  Where the outcome depends on what the arithmetic
      returns (which driver is nearest, whether [math.sqrt] raises for
      two points nearly opposite on the globe, what a fare is), the
      methods are taken over any [calculate_distance] and
      [_estimate_fare], in the module [Generic].  [float('inf')] is the
      extra element [PosInf] of [xfloat].
    - A Python object is a cell of a typed store and a variable holding the
      object is a reference ([ref], an index in the store), so that two
      holders of one object see each other's updates.
    - A method is a function [World -> result A * World]: an exception does
      not undo the assignments made before it.
    - [datetime.now()] and [uuid.uuid4()] are inputs of the operation that
      reads them.  Console output is not modelled. *)

From Stdlib Require Import Reals Lra Lia ZArith String List Sorted Permutation.
From stdpp Require Import base option list.

Open Scope R_scope.

(* ================================================================= *)
(** ** Exceptions and results *)

(** [ValueError] is Python's built-in; the two service errors are declared
    at the end of [utils.py].  [AttributeError] is what a method call on
    [None] raises and [TypeError] what [None - datetime] raises.
    [DanglingRef] has no Python counterpart: it is the outcome of
    following a reference that the store does not hold. *)
Inductive exn : Type :=
  | ValueError
  | NoDriverFoundError
  | InvalidRequestError
  | AttributeError
  | TypeError
  | DanglingRef.

Inductive result (A : Type) : Type :=
  | Ok (a : A)
  | Raise (e : exn).
Arguments Ok {A} a.
Arguments Raise {A} e.

Definition result_map {A B : Type} (f : A -> B) (r : result A) : result B :=
  match r with
  | Ok a => Ok (f a)
  | Raise e => Raise e
  end.

Definition result_bind {A B : Type} (r : result A) (f : A -> result B) : result B :=
  match r with
  | Ok a => f a
  | Raise e => Raise e
  end.

#[global] Instance R_eq_dec : EqDecision R := Req_dec_T.
#[global] Instance Rle_decision (x y : R) : Decision (x <= y) := Rle_dec x y.
#[global] Instance Rlt_decision (x y : R) : Decision (x < y) := Rlt_dec x y.

(* ================================================================= *)
(** ** utils.py *)

Definition EARTH_RADIUS_KM : R := 6371.

(** [class Location]: two read-only attributes. *)
Record Location : Type := mkLocation {
  latitude : R;
  longitude : R
}.

(** [Location.__init__(lat, lon)]. *)
Definition Location_init (lat lon : R) : result Location :=
  if decide (¬ ((-90 <= lat <= 90) ∧ (-180 <= lon <= 180)))
  then Raise ValueError
  else Ok {| latitude := lat; longitude := lon |}.

(** The functions of Python's [math] module used by [calculate_distance]. *)
Definition radians (x : R) : R := x * (PI / 180).

(** [math.sqrt] raises [ValueError] on a negative argument. *)
Definition math_sqrt (x : R) : result R :=
  if decide (0 <= x) then Ok (sqrt x) else Raise ValueError.

(** [math.atan2(y, x)]: the angle of the point [(x, y)], in [(-PI, PI]]. *)
Definition atan2 (y x : R) : R :=
  if decide (0 < x) then atan (y / x)
  else if decide (x < 0) then
    (if decide (0 <= y) then atan (y / x) + PI else atan (y / x) - PI)
  else if decide (0 < y) then PI / 2
  else if decide (y < 0) then - (PI / 2)
  else 0.

(** The haversine term [a] of [calculate_distance]. *)
Definition haversine_a (loc1 loc2 : Location) : R :=
  let lat1 := radians (latitude loc1) in
  let lon1 := radians (longitude loc1) in
  let lat2 := radians (latitude loc2) in
  let lon2 := radians (longitude loc2) in
  let dlon := lon2 - lon1 in
  let dlat := lat2 - lat1 in
  sin (dlat / 2) ^ 2 + cos lat1 * cos lat2 * sin (dlon / 2) ^ 2.

(** [calculate_distance(loc1, loc2)], in exact arithmetic. *)
Definition calculate_distance (loc1 loc2 : Location) : result R :=
  let a := haversine_a loc1 loc2 in
  result_bind (math_sqrt a) (fun sa =>
  result_bind (math_sqrt (1 - a)) (fun s1a =>
  let c := 2 * atan2 sa s1a in
  let distance := EARTH_RADIUS_KM * c in
  Ok distance)).

(** The value [calculate_distance] returns, as a total function; see
    [calculate_distance_ok]. *)
Definition distance_km (loc1 loc2 : Location) : R :=
  let a := haversine_a loc1 loc2 in
  EARTH_RADIUS_KM * (2 * atan2 (sqrt a) (sqrt (1 - a))).

(* ================================================================= *)
(** ** models.py *)

(** A reference to an object: its index in the store of its class. *)
Abbreviation ref := nat (only parsing).

(** [datetime] values and [timedelta] values, in microseconds. *)
Definition datetime : Type := Z.
Definition timedelta : Type := Z.

(** [class Person]: the attributes [Driver] and [Passenger] inherit. *)
Record Person : Type := mkPerson {
  _id : string;
  _name : string;
  _phone : string;
  _current_location : Location
}.

(** [Person.update_location(new_location)], on the inherited part. *)
Definition Person_update_location (self : Person) (new_location : Location) : Person :=
  {| _id := _id self; _name := _name self; _phone := _phone self;
     _current_location := new_location |}.

(** [class Driver(Person)].  [_total_rides] starts at 0 and is only ever
    incremented: a natural number.  In [models.py] the assignment of
    [_vehicle] in [__init__] (line 42) starts one column left of its
    neighbours, which Python rejects when it compiles the module; it is
    read here as the statement of [__init__] it is written to be. *)
Record Driver : Type := mkDriver {
  Driver_person : Person;
  Driver_vehicle : ref;
  Driver_is_available : bool;
  Driver_rating : R;
  Driver_total_rides : nat;
  Driver_earnings : R
}.

(** [class Passenger(Person)]. *)
Record Passenger : Type := mkPassenger {
  Passenger_person : Person;
  Passenger_total_rides : nat
}.

(** [class Vehicle]. *)
Record Vehicle : Type := mkVehicle {
  _make : string;
  _model : string;
  _license_plate : string;
  _mileage : R
}.

(** [class RideRequest]; [_passenger] refers to a shared [Passenger]. *)
Record RideRequest : Type := mkRideRequest {
  RideRequest_id : string;
  RideRequest_passenger : ref;
  pickup_loc : Location;
  dropoff_loc : Location;
  timestamp : datetime;
  RideRequest_status : string
}.

(** [class Ride]; [_request] and [_driver] refer to shared objects.  The
    constructor stores whatever it is given for [driver], [None] included. *)
Record Ride : Type := mkRide {
  Ride_id : string;
  Ride_request : ref;
  Ride_driver : option ref;
  _start_time : datetime;
  _end_time : option datetime;
  fare : R;
  estimated_distance : R;
  Ride_status : string
}.

(** [class RideService]: four lists of references, in insertion order. *)
Record RideService : Type := mkRideService {
  _drivers : list ref;
  _passengers : list ref;
  _requests : list ref;
  _rides : list ref
}.

(** The state of the program: one store per class and the service. *)
Record World : Type := mkWorld {
  vehicle_store : list Vehicle;
  driver_store : list Driver;
  passenger_store : list Passenger;
  request_store : list RideRequest;
  ride_store : list Ride;
  service : RideService
}.

Definition set_vehicle_store (f : list Vehicle -> list Vehicle) (w : World) : World :=
  mkWorld (f (vehicle_store w)) (driver_store w) (passenger_store w)
          (request_store w) (ride_store w) (service w).

Definition set_driver_store (f : list Driver -> list Driver) (w : World) : World :=
  mkWorld (vehicle_store w) (f (driver_store w)) (passenger_store w)
          (request_store w) (ride_store w) (service w).

Definition set_passenger_store (f : list Passenger -> list Passenger) (w : World) : World :=
  mkWorld (vehicle_store w) (driver_store w) (f (passenger_store w))
          (request_store w) (ride_store w) (service w).

Definition set_request_store (f : list RideRequest -> list RideRequest) (w : World) : World :=
  mkWorld (vehicle_store w) (driver_store w) (passenger_store w)
          (f (request_store w)) (ride_store w) (service w).

Definition set_ride_store (f : list Ride -> list Ride) (w : World) : World :=
  mkWorld (vehicle_store w) (driver_store w) (passenger_store w)
          (request_store w) (f (ride_store w)) (service w).

Definition set_service (f : RideService -> RideService) (w : World) : World :=
  mkWorld (vehicle_store w) (driver_store w) (passenger_store w)
          (request_store w) (ride_store w) (f (service w)).

(** *** The monad of methods *)

Definition M (A : Type) : Type := World -> result A * World.

#[global] Instance M_ret : MRet M := fun A a w => (Ok a, w).

#[global] Instance M_bind : MBind M := fun A B f m w =>
  match m w with
  | (Ok a, w') => f a w'
  | (Raise e, w') => (Raise e, w')
  end.

Definition raise {A : Type} (e : exn) : M A := fun w => (Raise e, w).

Definition lift_result {A : Type} (r : result A) : M A := fun w => (r, w).

(** Reading an object through a reference. *)
Definition deref {A : Type} (store : World -> list A) (r : ref) : M A := fun w =>
  match store w !! r with
  | Some x => (Ok x, w)
  | None => (Raise DanglingRef, w)
  end.

(** Writing an object back after an attribute assignment. *)
Definition assign {A : Type}
    (set : (list A -> list A) -> World -> World) (r : ref) (x : A) : M unit :=
  fun w => (Ok tt, set (fun l => <[r:=x]> l) w).

(** Creating an object: it takes the next free cell of its store. *)
Definition new {A : Type} (store : World -> list A)
    (set : (list A -> list A) -> World -> World) (x : A) : M ref :=
  fun w => (Ok (length (store w)), set (fun l => l ++ [x]) w).

(** *** Constructors *)

(** [Vehicle(make, model, license_plate)]. *)
Definition Vehicle_init (make model license_plate : string) : M ref :=
  new vehicle_store set_vehicle_store
    {| _make := make; _model := model; _license_plate := license_plate;
       _mileage := 0 |}.

(** [Person.__init__], with the value of [str(uuid.uuid4())]. *)
Definition Person_init (uuid : string) (name phone : string)
    (current_location : Location) : Person :=
  {| _id := uuid; _name := name; _phone := phone;
     _current_location := current_location |}.

(** [Driver(name, phone, current_location, vehicle)]. *)
Definition Driver_init (uuid : string) (name phone : string)
    (current_location : Location) (vehicle : ref) : M ref :=
  new driver_store set_driver_store
    {| Driver_person := Person_init uuid name phone current_location;
       Driver_vehicle := vehicle;
       Driver_is_available := true;
       Driver_rating := 5.0;
       Driver_total_rides := 0;
       Driver_earnings := 0.0 |}.

(** [Passenger(name, phone, current_location)]. *)
Definition Passenger_init (uuid : string) (name phone : string)
    (current_location : Location) : M ref :=
  new passenger_store set_passenger_store
    {| Passenger_person := Person_init uuid name phone current_location;
       Passenger_total_rides := 0 |}.

(** [RideRequest(passenger, pickup_loc, dropoff_loc)]. *)
Definition RideRequest_init (uuid : string) (now : datetime)
    (passenger : ref) (pickup dropoff : Location) : M ref :=
  new request_store set_request_store
    {| RideRequest_id := uuid;
       RideRequest_passenger := passenger;
       pickup_loc := pickup;
       dropoff_loc := dropoff;
       timestamp := now;
       RideRequest_status := "Pending" |}.

(** [Ride(request, driver, fare, estimated_distance)]. *)
Definition Ride_init (uuid : string) (now : datetime)
    (request : ref) (driver : option ref) (fare0 estimated_distance0 : R) : M ref :=
  new ride_store set_ride_store
    {| Ride_id := uuid;
       Ride_request := request;
       Ride_driver := driver;
       _start_time := now;
       _end_time := None;
       fare := fare0;
       estimated_distance := estimated_distance0;
       Ride_status := "In Progress" |}.

(** *** Methods *)

(** [Person.update_location] called on a driver. *)
Definition Driver_update_location (self : ref) (new_location : Location) : M unit :=
  d ← deref driver_store self;
  assign set_driver_store self
    {| Driver_person := Person_update_location (Driver_person d) new_location;
       Driver_vehicle := Driver_vehicle d;
       Driver_is_available := Driver_is_available d;
       Driver_rating := Driver_rating d;
       Driver_total_rides := Driver_total_rides d;
       Driver_earnings := Driver_earnings d |}.

(** [Driver.set_availability(status)]. *)
Definition Driver_set_availability (self : ref) (status : bool) : M unit :=
  d ← deref driver_store self;
  assign set_driver_store self
    {| Driver_person := Driver_person d;
       Driver_vehicle := Driver_vehicle d;
       Driver_is_available := status;
       Driver_rating := Driver_rating d;
       Driver_total_rides := Driver_total_rides d;
       Driver_earnings := Driver_earnings d |}.

(** [Driver.complete_ride(fare, new_rating)]: the three statistics, in
    the order of the assignments, then [set_availability(True)]. *)
Definition Driver_complete_ride (self : ref) (fare0 new_rating : R) : M unit :=
  d ← deref driver_store self;
  let total_rides := S (Driver_total_rides d) in
  let earnings := Driver_earnings d + fare0 in
  let rating :=
    (Driver_rating d * INR (total_rides - 1) + new_rating) / INR total_rides in
  assign set_driver_store self
    {| Driver_person := Driver_person d;
       Driver_vehicle := Driver_vehicle d;
       Driver_is_available := Driver_is_available d;
       Driver_rating := rating;
       Driver_total_rides := total_rides;
       Driver_earnings := earnings |};;
  Driver_set_availability self true.

(** [Passenger.complete_ride()]. *)
Definition Passenger_complete_ride (self : ref) : M unit :=
  p ← deref passenger_store self;
  assign set_passenger_store self
    {| Passenger_person := Passenger_person p;
       Passenger_total_rides := S (Passenger_total_rides p) |}.

(** [Vehicle.add_mileage(distance)]. *)
Definition Vehicle_add_mileage (self : ref) (distance : R) : M unit :=
  v ← deref vehicle_store self;
  assign set_vehicle_store self
    {| _make := _make v; _model := _model v;
       _license_plate := _license_plate v;
       _mileage := _mileage v + distance |}.

(** [RideRequest.set_status(status)]. *)
Definition RideRequest_set_status (self : ref) (status : string) : M unit :=
  rq ← deref request_store self;
  assign set_request_store self
    {| RideRequest_id := RideRequest_id rq;
       RideRequest_passenger := RideRequest_passenger rq;
       pickup_loc := pickup_loc rq;
       dropoff_loc := dropoff_loc rq;
       timestamp := timestamp rq;
       RideRequest_status := status |}.

(** A method call on the object a variable holds, which may be [None]. *)
Definition on_object {A : Type} (o : option ref) (method : ref -> M A) : M A :=
  match o with
  | Some r => method r
  | None => raise AttributeError
  end.

(** [Ride.complete(actual_distance, final_fare, rating)]. *)
Definition Ride_complete (now : datetime) (self : ref)
    (actual_distance final_fare rating : R) : M unit :=
  r ← deref ride_store self;
  assign set_ride_store self
    {| Ride_id := Ride_id r;
       Ride_request := Ride_request r;
       Ride_driver := Ride_driver r;
       _start_time := _start_time r;
       _end_time := Some now;
       fare := fare r;
       estimated_distance := estimated_distance r;
       Ride_status := "Completed" |};;
  rq ← deref request_store (Ride_request r);
  on_object (Ride_driver r) (fun d => Driver_update_location d (dropoff_loc rq));;
  on_object (Ride_driver r) (fun d => Driver_complete_ride d final_fare rating);;
  on_object (Ride_driver r) (fun d =>
    drv ← deref driver_store d;
    Vehicle_add_mileage (Driver_vehicle drv) actual_distance);;
  rq' ← deref request_store (Ride_request r);
  Passenger_complete_ride (RideRequest_passenger rq').

(* ================================================================= *)
(** ** service.py *)

Definition BASE_RATE : R := 0.50.
Definition TIME_RATE : R := 0.20.
Definition BASE_FARE : R := 2.50.

(** A float that may be [float('inf')]. *)
Inductive xfloat : Type :=
  | Finite (x : R)
  | PosInf.

(** [x < m] for a finite [x]. *)
Definition xlt (x : R) (m : xfloat) : bool :=
  match m with
  | Finite y => bool_decide (x < y)
  | PosInf => true
  end.

(** The integer nearest to [x], a tie going to the even one. *)
Definition round_half_even (x : R) : Z :=
  let f := Zfloor x in
  let r := x - IZR f in
  if decide (r < 1 / 2) then f
  else if decide (1 / 2 < r) then (f + 1)%Z
  else if Z.even f then f else (f + 1)%Z.

(** Python's [round(x, ndigits)] on a float, for [ndigits >= 0]: the
    nearest multiple of [10 ^ -ndigits], a tie going to the even one. *)
Definition round (x : R) (ndigits : nat) : R :=
  IZR (round_half_even (x * 10 ^ ndigits)) / 10 ^ ndigits.

(** [RideService._estimate_fare(distance_km)], in exact arithmetic. *)
Definition _estimate_fare (distance_km : R) : R :=
  let estimated_time_min := (distance_km / 30) * 60 in
  let fare := BASE_FARE + (distance_km * BASE_RATE) + (estimated_time_min * TIME_RATE) in
  round fare 2.

Definition set_drivers (f : list ref -> list ref) (s : RideService) : RideService :=
  mkRideService (f (_drivers s)) (_passengers s) (_requests s) (_rides s).

Definition set_passengers (f : list ref -> list ref) (s : RideService) : RideService :=
  mkRideService (_drivers s) (f (_passengers s)) (_requests s) (_rides s).

Definition set_requests (f : list ref -> list ref) (s : RideService) : RideService :=
  mkRideService (_drivers s) (_passengers s) (f (_requests s)) (_rides s).

Definition set_rides (f : list ref -> list ref) (s : RideService) : RideService :=
  mkRideService (_drivers s) (_passengers s) (_requests s) (f (_rides s)).

(** [list.append] on one of the service's collections. *)
Definition append (set : (list ref -> list ref) -> RideService -> RideService)
    (r : ref) : M unit :=
  fun w => (Ok tt, set_service (set (fun l => l ++ [r])) w).

(** [RideService()]: four empty collections; [_load_initial_data] reads a
    file and keeps nothing of it. *)
Definition RideService_init : RideService :=
  {| _drivers := []; _passengers := []; _requests := []; _rides := [] |}.

(** [add_driver(driver)] and [add_passenger(passenger)]. *)
Definition add_driver (driver : ref) : M unit := append set_drivers driver.

Definition add_passenger (passenger : ref) : M unit := append set_passengers passenger.

(** [[d for d in self._drivers if d.is_available]]. *)
Fixpoint available_among (ds : list ref) : M (list ref) :=
  match ds with
  | [] => mret []
  | d :: ds' =>
      drv ← deref driver_store d;
      rest ← available_among ds';
      mret (if Driver_is_available drv then d :: rest else rest)
  end.

Definition available_drivers : M (list ref) :=
  fun w => available_among (_drivers (service w)) w.

(** The body of the [for] loop of [_find_nearest_driver], on the pair
    [(nearest_driver, min_distance)]. *)
Fixpoint nearest_loop (pickup : Location) (ds : list ref)
    (acc : option ref * xfloat) : M (option ref * xfloat) :=
  match ds with
  | [] => mret acc
  | driver :: ds' =>
      drv ← deref driver_store driver;
      distance ← lift_result
        (calculate_distance (_current_location (Driver_person drv)) pickup);
      nearest_loop pickup ds'
        (if xlt distance (snd acc) then (Some driver, Finite distance) else acc)
  end.

(** [RideService._find_nearest_driver(pickup_loc)]. *)
Definition _find_nearest_driver (pickup : Location) : M (option ref * xfloat) :=
  let nearest_driver : option ref := None in
  let min_distance := PosInf in
  available ← available_drivers;
  match available with
  | [] => raise NoDriverFoundError
  | _ => nearest_loop pickup available (nearest_driver, min_distance)
  end.

(** [RideService.request_ride(passenger, pickup_loc, dropoff_loc)]. *)
Definition request_ride (uuid : string) (now : datetime)
    (passenger : ref) (pickup dropoff : Location) : M ref :=
  if decide (latitude pickup = latitude dropoff ∧ longitude pickup = longitude dropoff)
  then raise InvalidRequestError
  else
    request ← RideRequest_init uuid now passenger pickup dropoff;
    append set_requests request;;
    mret request.

(** Steps 2 to 4 of [assign_ride], shared by the three versions of the
    method: they differ in how the driver is found. *)
Definition start_ride (uuid : string) (now : datetime) (request : ref)
    (nearest_driver : option ref) : M ref :=
  rq ← deref request_store request;
  ride_distance ← lift_result (calculate_distance (pickup_loc rq) (dropoff_loc rq));
  let fare := _estimate_fare ride_distance in
  new_ride ← Ride_init uuid now request nearest_driver fare ride_distance;
  append set_rides new_ride;;
  on_object nearest_driver (fun d => Driver_set_availability d false);;
  RideRequest_set_status request "Assigned";;
  mret new_ride.

(** [RideService.assign_ride(request)] of [service.py]. *)
Definition assign_ride (uuid : string) (now : datetime) (request : ref) : M ref :=
  rq ← deref request_store request;
  '(nearest_driver, driver_distance) ← _find_nearest_driver (pickup_loc rq);
  start_ride uuid now request nearest_driver.

(** [RideService.complete_ride(ride, rating, actual_distance, final_fare)]. *)
Definition complete_ride (now : datetime) (ride : ref)
    (rating actual_distance final_fare : R) : M unit :=
  Ride_complete now ride actual_distance final_fare rating.

(** [[r for r in self._rides if r._status == "Completed"]]. *)
Fixpoint completed_among (rs : list ref) : M (list ref) :=
  match rs with
  | [] => mret []
  | r :: rs' =>
      ride ← deref ride_store r;
      rest ← completed_among rs';
      mret (if String.eqb (Ride_status ride) "Completed" then r :: rest else rest)
  end.

Definition completed_rides : M (list ref) :=
  fun w => completed_among (_rides (service w)) w.

(** [sum(r.fare for r in completed_rides)], from the left, starting at 0. *)
Fixpoint sum_fares (rs : list ref) (acc : R) : M R :=
  match rs with
  | [] => mret acc
  | r :: rs' => ride ← deref ride_store r; sum_fares rs' (acc + fare ride)
  end.

(** [sum((r._end_time - r._start_time for r in completed_rides), timedelta())];
    [_end_time] is [None] until [Ride.complete] sets it. *)
Fixpoint sum_durations (rs : list ref) (acc : timedelta) : M timedelta :=
  match rs with
  | [] => mret acc
  | r :: rs' =>
      ride ← deref ride_store r;
      match _end_time ride with
      | Some e => sum_durations rs' (acc + (e - _start_time ride))%Z
      | None => raise TypeError
      end
  end.

(** [timedelta / int]: the quotient rounded to the nearest microsecond, a
    tie going to the even one. *)
Definition divide_and_round (a b : Z) : Z :=
  let q := (a / b)%Z in
  let r := (2 * (a mod b))%Z in
  let greater_than_half := if (0 <? b)%Z then (b <? r)%Z else (r <? b)%Z in
  if greater_than_half || ((r =? b)%Z && Z.odd q) then (q + 1)%Z else q.

(** The three values [generate_simple_analytics] computes and prints. *)
Record Analytics : Type := mkAnalytics {
  total_trips : nat;
  total_fare : R;
  avg_trip_time : timedelta
}.

(** [RideService.generate_simple_analytics()]. *)
Definition generate_simple_analytics : M Analytics :=
  completed ← completed_rides;
  let total_trips := length completed in
  total_fare ← sum_fares completed 0;
  avg ← (if (0 <? total_trips)%nat
         then total_time ← sum_durations completed 0%Z;
              mret (divide_and_round total_time (Z.of_nat total_trips))
         else mret 0%Z);
  mret {| total_trips := total_trips; total_fare := total_fare; avg_trip_time := avg |}.

(* ================================================================= *)
(** ** 1.1utils.py: the stage-3 methods of [RideService] *)

Module Stage3.

Definition AVG_SPEED_KM_PER_MIN : R := 0.5.

(** The body of the [for] loop of [_optimized_driver_matching], on the
    pair [(best_driver, min_arrival_time)]. *)
Fixpoint arrival_loop (request : ref) (ds : list ref)
    (acc : option ref * xfloat) : M (option ref * xfloat) :=
  match ds with
  | [] => mret acc
  | driver :: ds' =>
      drv ← deref driver_store driver;
      rq ← deref request_store request;
      driver_to_pickup_dist ← lift_result
        (calculate_distance (_current_location (Driver_person drv)) (pickup_loc rq));
      let estimated_arrival_time_min := driver_to_pickup_dist / AVG_SPEED_KM_PER_MIN in
      arrival_loop request ds'
        (if xlt estimated_arrival_time_min (snd acc)
         then (Some driver, Finite estimated_arrival_time_min) else acc)
  end.

(** [RideService._optimized_driver_matching(request)]. *)
Definition _optimized_driver_matching (request : ref) : M (ref * R) :=
  available ← available_drivers;
  match available with
  | [] => raise NoDriverFoundError
  | _ =>
      '(best_driver, min_arrival_time) ← arrival_loop request available (None, PosInf);
      on_object best_driver (fun b =>
        drv ← deref driver_store b;
        rq ← deref request_store request;
        driver_to_pickup_dist ← lift_result
          (calculate_distance (_current_location (Driver_person drv)) (pickup_loc rq));
        mret (b, driver_to_pickup_dist))
  end.

(** [RideService.assign_ride(request)] of stage 3; the [try] re-raises
    what it catches. *)
Definition assign_ride (uuid : string) (now : datetime) (request : ref) : M ref :=
  '(nearest_driver, driver_distance) ← _optimized_driver_matching request;
  start_ride uuid now request (Some nearest_driver).

End Stage3.

(* ================================================================= *)
(** ** Vocabulary of the statements *)

(** Every driver of the service's collection is in the store. *)
Definition drivers_resolve (w : World) : Prop :=
  Forall (λ r, is_Some (driver_store w !! r)) (_drivers (service w)).

Definition is_available_at (w : World) (r : ref) : bool :=
  match driver_store w !! r with
  | Some drv => Driver_is_available drv
  | None => false
  end.

(** The available drivers, in the order of the collection. *)
Definition available_refs (w : World) : list ref :=
  List.filter (is_available_at w) (_drivers (service w)).

(** The distance from a driver's current location to [pickup]. *)
Definition driver_to_pickup (w : World) (pickup : Location) (r : ref) : R :=
  match driver_store w !! r with
  | Some drv => distance_km (_current_location (Driver_person drv)) pickup
  | None => 0
  end.

(** The loop of both matching methods on a list of keys: keep the first
    element whose key is strictly below every key seen so far. *)
Fixpoint first_min (key : ref → R) (ds : list ref)
    (acc : option ref * xfloat) : option ref * xfloat :=
  match ds with
  | [] => acc
  | d :: ds' =>
      first_min key ds' (if xlt (key d) (snd acc) then (Some d, Finite (key d)) else acc)
  end.

(** From a minimal distance to the minimal arrival time. *)
Definition arrival_of (acc : option ref * xfloat) : option ref * xfloat :=
  match acc with
  | (o, Finite x) => (o, Finite (x / Stage3.AVG_SPEED_KM_PER_MIN))
  | (o, PosInf) => (o, PosInf)
  end.

(** The result of [_optimized_driver_matching] in the shape of the result
    of [_find_nearest_driver]. *)
Definition as_nearest (r : result (ref * R)) : result (option ref * xfloat) :=
  result_map (λ '(d, x), (Some d, Finite x)) r.

(** *** The states of [main.py] *)

Definition location_d1 : Location := mkLocation 41.0082 28.9784.
Definition location_d2 : Location := mkLocation 41.0401 29.0069.
Definition location_p1 : Location := mkLocation 41.0345 29.0000.
Definition location_p2 : Location := mkLocation 41.0100 28.9700.
Definition location_dropoff : Location := mkLocation 40.9850 29.0596.

Definition vehicle_d1 : Vehicle := mkVehicle "Toyota" "Corolla" "34 ABC 123" 0.
Definition vehicle_d2 : Vehicle := mkVehicle "Renault" "Clio" "34 DEF 456" 0.

Definition driver_d1 (available : bool) : Driver :=
  mkDriver (mkPerson "d1" "Ahmet Yilmaz" "555-1000" location_d1) 0%nat available 5.0 0%nat 0.0.
Definition driver_d2 (available : bool) : Driver :=
  mkDriver (mkPerson "d2" "Buse Kaya" "555-2000" location_d2) 1%nat available 5.0 0%nat 0.0.

Definition passenger_p1 : Passenger :=
  mkPassenger (mkPerson "p1" "Emirhan Kuluk" "555-4000" location_p1) 0%nat.
Definition passenger_p2 : Passenger :=
  mkPassenger (mkPerson "p2" "Ayse Celik" "555-5000" location_p2) 0%nat.

Definition request_p1 (status : string) : RideRequest :=
  mkRideRequest "q1" 0%nat location_p1 location_dropoff 0%Z status.

(** After [setup_simulation] and the call of [request_ride]. *)
Definition world_requested : World :=
  {| vehicle_store := [vehicle_d1; vehicle_d2];
     driver_store := [driver_d1 true; driver_d2 true];
     passenger_store := [passenger_p1; passenger_p2];
     request_store := [request_p1 "Pending"];
     ride_store := [];
     service := {| _drivers := [0%nat; 1%nat]; _passengers := [0%nat; 1%nat];
                   _requests := [0%nat]; _rides := [] |} |}.

(** The same with both drivers on a ride. *)
Definition world_busy : World :=
  set_driver_store (λ _, [driver_d1 false; driver_d2 false]) world_requested.

(** A ride of the first driver for that request, in progress. *)
Definition ride_d1 (fare0 : R) : Ride :=
  mkRide "r1" 0%nat (Some 0%nat) 1%Z None fare0 (distance_km location_p1 location_dropoff)
         "In Progress".

Definition world_riding (fare0 : R) : World :=
  {| vehicle_store := [vehicle_d1; vehicle_d2];
     driver_store := [driver_d1 false; driver_d2 true];
     passenger_store := [passenger_p1; passenger_p2];
     request_store := [request_p1 "Assigned"];
     ride_store := [ride_d1 fare0];
     service := {| _drivers := [0%nat; 1%nat]; _passengers := [0%nat; 1%nat];
                   _requests := [0%nat]; _rides := [0%nat] |} |}.

(** Two available drivers at one place. *)
Definition world_tie : World :=
  set_driver_store
    (λ _, [driver_d1 true;
           mkDriver (mkPerson "d2" "Buse Kaya" "555-2000" location_d1) 1%nat true 5.0 0%nat 0.0])
    world_requested.

(** The state after [Ride.complete] on the ride [r] stored at [self],
    whose request is [rq], driver [drv] stored at [d], vehicle [veh] and
    passenger [pas]. *)
Definition completed_world (now : datetime) (self : ref)
    (actual_distance final_fare rating : R) (w : World) (r : Ride) (rq : RideRequest)
    (d : ref) (drv : Driver) (veh : Vehicle) (pas : Passenger) : World :=
  {| vehicle_store :=
       <[Driver_vehicle drv :=
           mkVehicle (_make veh) (_model veh) (_license_plate veh)
                     (_mileage veh + actual_distance)]> (vehicle_store w);
     driver_store :=
       <[d := mkDriver (Person_update_location (Driver_person drv) (dropoff_loc rq))
                (Driver_vehicle drv) true
                ((Driver_rating drv * INR (S (Driver_total_rides drv) - 1) + rating)
                 / INR (S (Driver_total_rides drv)))
                (S (Driver_total_rides drv)) (Driver_earnings drv + final_fare)]>
         (driver_store w);
     passenger_store :=
       <[RideRequest_passenger rq :=
           mkPassenger (Passenger_person pas) (S (Passenger_total_rides pas))]>
         (passenger_store w);
     request_store := request_store w;
     ride_store :=
       <[self := mkRide (Ride_id r) (Ride_request r) (Ride_driver r) (_start_time r)
                   (Some now) (fare r) (estimated_distance r) "Completed"]>
         (ride_store w);
     service := service w |}.

(** The state after steps 2 to 4 of [assign_ride] for the request [rq]
    stored at [request] and the driver [drv] stored at [d]. *)
Definition started_world (uuid : string) (now : datetime) (request : ref)
    (rq : RideRequest) (d : ref) (drv : Driver) (w : World) : World :=
  let ride_distance := distance_km (pickup_loc rq) (dropoff_loc rq) in
  {| vehicle_store := vehicle_store w;
     driver_store :=
       <[d := mkDriver (Driver_person drv) (Driver_vehicle drv) false (Driver_rating drv)
                (Driver_total_rides drv) (Driver_earnings drv)]> (driver_store w);
     passenger_store := passenger_store w;
     request_store :=
       <[request := mkRideRequest (RideRequest_id rq) (RideRequest_passenger rq)
                      (pickup_loc rq) (dropoff_loc rq) (timestamp rq) "Assigned"]>
         (request_store w);
     ride_store :=
       ride_store w
       ++ [mkRide uuid request (Some d) now None (_estimate_fare ride_distance)
             ride_distance "In Progress"];
     service := set_rides (λ l, l ++ [length (ride_store w)]) (service w) |}.

(** *** Sequences of calls *)

(** The constructors and public methods a caller can invoke, with the
    values read from the clock and from [uuid4] where the call reads them. *)
Inductive call : Type :=
  | Call_Vehicle (make model license_plate : string)
  | Call_Driver (uuid name phone : string) (current_location : Location) (vehicle : ref)
  | Call_Passenger (uuid name phone : string) (current_location : Location)
  | Call_RideRequest (uuid : string) (now : datetime) (passenger : ref)
      (pickup dropoff : Location)
  | Call_Ride (uuid : string) (now : datetime) (request : ref) (driver : option ref)
      (fare0 estimated_distance0 : R)
  | Call_update_location (driver : ref) (new_location : Location)
  | Call_set_availability (driver : ref) (status : bool)
  | Call_Driver_complete_ride (driver : ref) (fare0 new_rating : R)
  | Call_Passenger_complete_ride (passenger : ref)
  | Call_add_mileage (vehicle : ref) (distance : R)
  | Call_set_status (request : ref) (status : string)
  | Call_Ride_complete (now : datetime) (ride : ref) (actual_distance final_fare rating : R)
  | Call_add_driver (driver : ref)
  | Call_add_passenger (passenger : ref)
  | Call_request_ride (uuid : string) (now : datetime) (passenger : ref)
      (pickup dropoff : Location)
  | Call_assign_ride (uuid : string) (now : datetime) (request : ref)
  | Call_assign_ride_stage3 (uuid : string) (now : datetime) (request : ref)
  | Call_complete_ride (now : datetime) (ride : ref) (rating actual_distance final_fare : R)
  | Call_generate_simple_analytics.

(** The state a method leaves, whether it returns or raises. *)
Definition state_after {A : Type} (m : M A) (w : World) : World := snd (m w).

Definition run_call (c : call) : World → World :=
  match c with
  | Call_Vehicle make model license_plate =>
      state_after (Vehicle_init make model license_plate)
  | Call_Driver uuid name phone current_location vehicle =>
      state_after (Driver_init uuid name phone current_location vehicle)
  | Call_Passenger uuid name phone current_location =>
      state_after (Passenger_init uuid name phone current_location)
  | Call_RideRequest uuid now passenger pickup dropoff =>
      state_after (RideRequest_init uuid now passenger pickup dropoff)
  | Call_Ride uuid now request driver fare0 estimated_distance0 =>
      state_after (Ride_init uuid now request driver fare0 estimated_distance0)
  | Call_update_location driver new_location =>
      state_after (Driver_update_location driver new_location)
  | Call_set_availability driver status =>
      state_after (Driver_set_availability driver status)
  | Call_Driver_complete_ride driver fare0 new_rating =>
      state_after (Driver_complete_ride driver fare0 new_rating)
  | Call_Passenger_complete_ride passenger =>
      state_after (Passenger_complete_ride passenger)
  | Call_add_mileage vehicle distance =>
      state_after (Vehicle_add_mileage vehicle distance)
  | Call_set_status request status =>
      state_after (RideRequest_set_status request status)
  | Call_Ride_complete now ride actual_distance final_fare rating =>
      state_after (Ride_complete now ride actual_distance final_fare rating)
  | Call_add_driver driver => state_after (add_driver driver)
  | Call_add_passenger passenger => state_after (add_passenger passenger)
  | Call_request_ride uuid now passenger pickup dropoff =>
      state_after (request_ride uuid now passenger pickup dropoff)
  | Call_assign_ride uuid now request => state_after (assign_ride uuid now request)
  | Call_assign_ride_stage3 uuid now request =>
      state_after (Stage3.assign_ride uuid now request)
  | Call_complete_ride now ride rating actual_distance final_fare =>
      state_after (complete_ride now ride rating actual_distance final_fare)
  | Call_generate_simple_analytics => state_after generate_simple_analytics
  end.

Definition run (cs : list call) (w : World) : World :=
  fold_left (λ w c, run_call c w) cs w.

(** The calls of [run_simulation] in [main.py] after [request_ride]. *)
Definition main_calls : list call :=
  [Call_assign_ride "r1" 1%Z 0%nat; Call_complete_ride 2%Z 0%nat 4.9 11.2 18.50].

(** Every ride of [w] is still stored in [w'], with the fare and the
    estimated distance it has in [w]. *)
Definition frozen (w w' : World) : Prop :=
  ∀ k x, ride_store w !! k = Some x →
    ∃ x', ride_store w' !! k = Some x'
      ∧ fare x' = fare x ∧ estimated_distance x' = estimated_distance x.

Definition is_completed_at (w : World) (k : ref) : bool :=
  match ride_store w !! k with
  | Some x => String.eqb (Ride_status x) "Completed"
  | None => false
  end.

(** The completed rides of the service's collection, in its order. *)
Definition completed_refs (w : World) : list ref :=
  List.filter (is_completed_at w) (_rides (service w)).

Definition fare_at (w : World) (k : ref) : R :=
  match ride_store w !! k with
  | Some x => fare x
  | None => 0
  end.

(** The sum of the stored fares of the completed rides. *)
Definition sum_stored_fares (w : World) : R :=
  fold_left (λ acc k, acc + fare_at w k) (completed_refs w) 0.

(** Every ride of the service's collection is in the store, and has an
    end time if it is completed. *)
Definition rides_ok (w : World) : Prop :=
  Forall (λ k, ∃ x, ride_store w !! k = Some x
                 ∧ (Ride_status x = "Completed"%string → is_Some (_end_time x)))
    (_rides (service w)).

(** The rides and the service's collection of rides are as they were. *)
Definition same_rides (w w' : World) : Prop :=
  ride_store w' = ride_store w ∧ _rides (service w') = _rides (service w).

Definition keeps_rides {A : Type} (m : M A) : Prop :=
  ∀ w, same_rides w (snd (m w)).

(** The invariant of a run started in [w0]. *)
Definition rides_inv (w0 w : World) : Prop := frozen w0 w ∧ rides_ok w.

(** What the plain loop holds once it has kept a driver. *)
Definition kept (w : World) (pickup : Location) (acc : option ref * xfloat) : Prop :=
  ∃ d drv, driver_store w !! d = Some drv
    ∧ acc = (Some d, Finite (distance_km (_current_location (Driver_person drv)) pickup)).

(* ================================================================= *)
(** ** service.py: lookup and reports *)

(** The loop of [get_driver_by_id]. *)
Fixpoint find_by_id (driver_id : string) (ds : list ref) : M (option ref) :=
  match ds with
  | [] => mret None
  | driver :: ds' =>
      drv ← deref driver_store driver;
      if String.eqb (_id (Driver_person drv)) driver_id
      then mret (Some driver)
      else find_by_id driver_id ds'
  end.

(** [RideService.get_driver_by_id(driver_id)]. *)
Definition get_driver_by_id (driver_id : string) : M (option ref) :=
  fun w => find_by_id driver_id (_drivers (service w)) w.

(** Python's [sorted(iterable, key=..., reverse=...)], on the elements
    paired with their keys.  [sorted] is stable, also with
    [reverse=True]: elements of equal keys keep their order.  The result
    of a stable sort is determined by the keys, and is computed here by
    insertion from the right. *)
Definition comes_before (reverse : bool) (x y : R) : bool :=
  if reverse then bool_decide (y < x) else bool_decide (x < y).

Fixpoint insert_by_key (reverse : bool) (p : R * ref) (l : list (R * ref))
    : list (R * ref) :=
  match l with
  | [] => [p]
  | q :: l' =>
      if comes_before reverse (fst q) (fst p)
      then q :: insert_by_key reverse p l'
      else p :: q :: l'
  end.

Definition sorted (reverse : bool) (l : list (R * ref)) : list ref :=
  map snd (fold_right (insert_by_key reverse) [] l).

(** The keys of the elements, computed from left to right before the
    sort; a key that raises ends the call. *)
Fixpoint keyed (key : ref → M R) (rs : list ref) : M (list (R * ref)) :=
  match rs with
  | [] => mret []
  | r :: rs' =>
      k ← key r;
      rest ← keyed key rs';
      mret ((k, r) :: rest)
  end.

(** [lambda r: r.driver._rating]. *)
Definition rating_key (r : ref) : M R :=
  ride ← deref ride_store r;
  on_object (Ride_driver ride) (fun d =>
    drv ← deref driver_store d;
    mret (Driver_rating drv)).

(** [lambda r: r.estimated_distance]. *)
Definition distance_key (r : ref) : M R :=
  ride ← deref ride_store r;
  mret (estimated_distance ride).

(** [RideService.sort_completed_rides(sort_by, reverse)]; the defaults
    are ['rating'] and [True]. *)
Definition sort_completed_rides (sort_by : string) (reverse : bool) : M (list ref) :=
  completed ← completed_rides;
  if String.eqb sort_by "rating" then
    l ← keyed rating_key completed;
    mret (sorted reverse l)
  else if String.eqb sort_by "distance" then
    l ← keyed distance_key completed;
    mret (sorted reverse l)
  else mret [].

(** The average trip time of the three analytics methods. *)
Definition average_trip_time (completed : list ref) : M timedelta :=
  if (0 <? length completed)%nat
  then total_time ← sum_durations completed 0%Z;
       mret (divide_and_round total_time (Z.of_nat (length completed)))
  else mret 0%Z.

(* ================================================================= *)
(** ** 1.1utils.py: the reports of stage 3 *)

(** Reading [self._drivers]. *)
Definition the_drivers : M (list ref) := fun w => (Ok (_drivers (service w)), w).

(** The three values [generate_advanced_analytics] computes and prints. *)
Record AdvancedAnalytics : Type := mkAdvancedAnalytics {
  advanced_total_trips : nat;
  avg_rating : R;
  advanced_avg_trip_time : timedelta
}.

(** The methods added to the first [RideService] of the file. *)
Module Stage3Added.

(** [r.driver] for a driver [r]: class [Driver] has no attribute
    [driver]. *)
Definition Driver_driver (self : ref) : M ref :=
  drv ← deref driver_store self;
  raise AttributeError.

(** [sum(r.driver._rating for r in self._drivers)]: [r] runs through the
    drivers. *)
Fixpoint sum_ratings (ds : list ref) (acc : R) : M R :=
  match ds with
  | [] => mret acc
  | r :: ds' =>
      d ← Driver_driver r;
      drv ← deref driver_store d;
      sum_ratings ds' (acc + Driver_rating drv)
  end.

(** [RideService.generate_advanced_analytics()] of lines 304-320. *)
Definition generate_advanced_analytics : M AdvancedAnalytics :=
  completed ← completed_rides;
  let total_trips := length completed in
  drivers ← the_drivers;
  avg ← match drivers with
        | [] => mret 0
        | _ => total ← sum_ratings drivers 0; mret (total / INR (length drivers))
        end;
  avg_time ← average_trip_time completed;
  mret {| advanced_total_trips := total_trips; avg_rating := avg;
          advanced_avg_trip_time := avg_time |}.

End Stage3Added.

(** The methods of the last [RideService] of the file. *)
Module Stage3Final.

(** [sum(d._rating for d in self._drivers)]. *)
Fixpoint sum_ratings (ds : list ref) (acc : R) : M R :=
  match ds with
  | [] => mret acc
  | d :: ds' =>
      drv ← deref driver_store d;
      sum_ratings ds' (acc + Driver_rating drv)
  end.

(** [RideService.generate_advanced_analytics()] of lines 398-411. *)
Definition generate_advanced_analytics : M AdvancedAnalytics :=
  completed ← completed_rides;
  let total_trips := length completed in
  drivers ← the_drivers;
  avg ← match drivers with
        | [] => mret 0
        | _ => total ← sum_ratings drivers 0; mret (total / INR (length drivers))
        end;
  avg_time ← average_trip_time completed;
  mret {| advanced_total_trips := total_trips; avg_rating := avg;
          advanced_avg_trip_time := avg_time |}.

(** [RideService.sort_completed_rides(sort_by)] of lines 392-396; the
    default is ['rating']. *)
Definition sort_completed_rides (sort_by : string) : M (list ref) :=
  completed ← completed_rides;
  if String.eqb sort_by "rating" then
    l ← keyed rating_key completed;
    mret (sorted true l)
  else
    l ← keyed distance_key completed;
    mret (sorted true l).

End Stage3Final.

(** *** Vocabulary of the reports *)

(** The method leaves the state as it finds it, whether it returns or
    raises. *)
Definition read_only {A : Type} (m : M A) : Prop := ∀ w, snd (m w) = w.

Definition id_at (w : World) (d : ref) : option string :=
  match driver_store w !! d with
  | Some drv => Some (_id (Driver_person drv))
  | None => None
  end.

Definition distance_at (w : World) (k : ref) : R :=
  match ride_store w !! k with
  | Some x => estimated_distance x
  | None => 0
  end.

Definition rating_of_ride_at (w : World) (k : ref) : R :=
  match ride_store w !! k with
  | Some x =>
      match Ride_driver x with
      | Some d =>
          match driver_store w !! d with
          | Some drv => Driver_rating drv
          | None => 0
          end
      | None => 0
      end
  | None => 0
  end.

(** The order of the result: not after in the sense of [comes_before]. *)
Definition in_order (reverse : bool) (x y : R) : Prop :=
  if reverse then y <= x else x <= y.

Definition duration_at (w : World) (k : ref) : Z :=
  match ride_store w !! k with
  | Some x =>
      match _end_time x with
      | Some e => (e - _start_time x)%Z
      | None => 0%Z
      end
  | None => 0%Z
  end.

Definition total_duration (w : World) : Z :=
  fold_left (λ acc k, (acc + duration_at w k)%Z) (completed_refs w) 0%Z.

Definition rating_at (w : World) (d : ref) : R :=
  match driver_store w !! d with
  | Some drv => Driver_rating drv
  | None => 0
  end.

(** The stable sort on the elements themselves, for a key that is a
    function of the element. *)
Fixpoint insert_ref (key : ref → R) (reverse : bool) (r : ref) (l : list ref)
    : list ref :=
  match l with
  | [] => [r]
  | q :: l' =>
      if comes_before reverse (key q) (key r)
      then q :: insert_ref key reverse r l'
      else r :: q :: l'
  end.

Definition sort_refs (key : ref → R) (reverse : bool) (l : list ref) : list ref :=
  fold_right (insert_ref key reverse) [] l.

(** What a sort of [l] by [key] is: the same elements, in the order of
    the keys, those of equal keys in the order they have in [l]. *)
Definition stable_sort_of (key : ref → R) (reverse : bool) (l l' : list ref) : Prop :=
  Permutation l' l
  ∧ StronglySorted (λ a b, in_order reverse (key a) (key b)) l'
  ∧ ∀ v, List.filter (λ r, bool_decide (key r = v)) l'
         = List.filter (λ r, bool_decide (key r = v)) l.

(** *** Vocabulary of the runs *)

(** What stays of an object while the program runs. *)
Definition Vehicle_kept (x x' : Vehicle) : Prop :=
  _make x' = _make x ∧ _model x' = _model x ∧ _license_plate x' = _license_plate x.

Definition Driver_kept (x x' : Driver) : Prop :=
  _id (Driver_person x') = _id (Driver_person x)
  ∧ _name (Driver_person x') = _name (Driver_person x)
  ∧ _phone (Driver_person x') = _phone (Driver_person x)
  ∧ Driver_vehicle x' = Driver_vehicle x
  ∧ (Driver_total_rides x <= Driver_total_rides x')%nat.

Definition Passenger_kept (x x' : Passenger) : Prop :=
  _id (Passenger_person x') = _id (Passenger_person x)
  ∧ _name (Passenger_person x') = _name (Passenger_person x)
  ∧ _phone (Passenger_person x') = _phone (Passenger_person x)
  ∧ (Passenger_total_rides x <= Passenger_total_rides x')%nat.

Definition RideRequest_kept (x x' : RideRequest) : Prop :=
  RideRequest_id x' = RideRequest_id x
  ∧ RideRequest_passenger x' = RideRequest_passenger x
  ∧ pickup_loc x' = pickup_loc x
  ∧ dropoff_loc x' = dropoff_loc x
  ∧ timestamp x' = timestamp x.

Definition Ride_kept (x x' : Ride) : Prop :=
  Ride_id x' = Ride_id x
  ∧ Ride_request x' = Ride_request x
  ∧ Ride_driver x' = Ride_driver x
  ∧ _start_time x' = _start_time x
  ∧ (Ride_status x = "Completed"%string → Ride_status x' = "Completed"%string)
  ∧ (Ride_status x' = Ride_status x ∨ Ride_status x' = "Completed"%string).

(** Every object of the store [l] is still in [l'], at the same place,
    and related to what it was. *)
Definition store_grows {A : Type} (kept : A → A → Prop) (l l' : list A) : Prop :=
  ∀ k x, l !! k = Some x → ∃ x', l' !! k = Some x' ∧ kept x x'.

(** The state [w'] comes after [w]. *)
Definition evolves (w w' : World) : Prop :=
  store_grows Vehicle_kept (vehicle_store w) (vehicle_store w')
  ∧ store_grows Driver_kept (driver_store w) (driver_store w')
  ∧ store_grows Passenger_kept (passenger_store w) (passenger_store w')
  ∧ store_grows RideRequest_kept (request_store w) (request_store w')
  ∧ store_grows Ride_kept (ride_store w) (ride_store w')
  ∧ _drivers (service w) `prefix_of` _drivers (service w')
  ∧ _passengers (service w) `prefix_of` _passengers (service w')
  ∧ _requests (service w) `prefix_of` _requests (service w')
  ∧ _rides (service w) `prefix_of` _rides (service w').

Definition evolving {A : Type} (m : M A) : Prop := ∀ w, evolves w (snd (m w)).

(** The method leaves the service's collection of requests as it is. *)
Definition keeps_requests {A : Type} (m : M A) : Prop :=
  ∀ w, _requests (service (snd (m w))) = _requests (service w).

(** Every request of the service's collection is stored, and goes from
    one place to another. *)
Definition requests_valid (w : World) : Prop :=
  Forall (λ k, ∃ rq, request_store w !! k = Some rq
                  ∧ ¬ (latitude (pickup_loc rq) = latitude (dropoff_loc rq)
                       ∧ longitude (pickup_loc rq) = longitude (dropoff_loc rq)))
    (_requests (service w)).

(** *** Any sequence of calls *)

(** [Person.update_location] called on a passenger. *)
Definition Passenger_update_location (self : ref) (new_location : Location) : M unit :=
  p ← deref passenger_store self;
  assign set_passenger_store self
    {| Passenger_person := Person_update_location (Passenger_person p) new_location;
       Passenger_total_rides := Passenger_total_rides p |}.

(** A call of [call], or of one of the methods that [call] leaves out:
    the inherited [update_location] of a passenger, the searches and the
    reports. *)
Inductive any_call : Type :=
  | Call_of (c : call)
  | Call_Passenger_update_location (passenger : ref) (new_location : Location)
  | Call_get_driver_by_id (driver_id : string)
  | Call__find_nearest_driver (pickup : Location)
  | Call__optimized_driver_matching (request : ref)
  | Call_sort_completed_rides (sort_by : string) (reverse : bool)
  | Call_sort_completed_rides_stage3 (sort_by : string)
  | Call_generate_advanced_analytics_added
  | Call_generate_advanced_analytics.

Definition run_any_call (c : any_call) : World → World :=
  match c with
  | Call_of c => run_call c
  | Call_Passenger_update_location passenger new_location =>
      state_after (Passenger_update_location passenger new_location)
  | Call_get_driver_by_id driver_id => state_after (get_driver_by_id driver_id)
  | Call__find_nearest_driver pickup => state_after (_find_nearest_driver pickup)
  | Call__optimized_driver_matching request =>
      state_after (Stage3._optimized_driver_matching request)
  | Call_sort_completed_rides sort_by reverse =>
      state_after (sort_completed_rides sort_by reverse)
  | Call_sort_completed_rides_stage3 sort_by =>
      state_after (Stage3Final.sort_completed_rides sort_by)
  | Call_generate_advanced_analytics_added =>
      state_after Stage3Added.generate_advanced_analytics
  | Call_generate_advanced_analytics =>
      state_after Stage3Final.generate_advanced_analytics
  end.

Definition run_any (cs : list any_call) (w : World) : World :=
  fold_left (λ w c, run_any_call c w) cs w.

(* ================================================================= *)
(** ** Matching and assignment over any arithmetic *)

(** What [calculate_distance] and [_estimate_fare] return depends on the
    floating-point arithmetic of the machine.  In binary64 the rounded
    haversine term of two points nearly opposite on the globe can exceed
    1, and [math.sqrt] then raises [ValueError]; two distances that are
    equal as real numbers can differ in their last bit; a fare is the
    rounding of a rounded sum.  Below are the search, the stage-3
    matching and [assign_ride] again, word for word, with the two
    functions as parameters: what is proved of them holds of whatever the
    two functions compute.  The definitions above are the instance at the
    exact functions (see [assign_ride_instance]). *)
Module Generic.
Section Arithmetic.

Variable calculate_distance : Location → Location → result R.
Variable _estimate_fare : R → R.

(** The body of the [for] loop of [_find_nearest_driver], on the pair
    [(nearest_driver, min_distance)]. *)
Fixpoint nearest_loop (pickup : Location) (ds : list ref)
    (acc : option ref * xfloat) : M (option ref * xfloat) :=
  match ds with
  | [] => mret acc
  | driver :: ds' =>
      drv ← deref driver_store driver;
      distance ← lift_result
        (calculate_distance (_current_location (Driver_person drv)) pickup);
      nearest_loop pickup ds'
        (if xlt distance (snd acc) then (Some driver, Finite distance) else acc)
  end.

(** [RideService._find_nearest_driver(pickup_loc)]. *)
Definition _find_nearest_driver (pickup : Location) : M (option ref * xfloat) :=
  let nearest_driver : option ref := None in
  let min_distance := PosInf in
  available ← available_drivers;
  match available with
  | [] => raise NoDriverFoundError
  | _ => nearest_loop pickup available (nearest_driver, min_distance)
  end.

(** Steps 2 to 4 of [assign_ride]. *)
Definition start_ride (uuid : string) (now : datetime) (request : ref)
    (nearest_driver : option ref) : M ref :=
  rq ← deref request_store request;
  ride_distance ← lift_result (calculate_distance (pickup_loc rq) (dropoff_loc rq));
  let fare := _estimate_fare ride_distance in
  new_ride ← Ride_init uuid now request nearest_driver fare ride_distance;
  append set_rides new_ride;;
  on_object nearest_driver (fun d => Driver_set_availability d false);;
  RideRequest_set_status request "Assigned";;
  mret new_ride.

(** [RideService.assign_ride(request)] of [service.py]. *)
Definition assign_ride (uuid : string) (now : datetime) (request : ref) : M ref :=
  rq ← deref request_store request;
  '(nearest_driver, driver_distance) ← _find_nearest_driver (pickup_loc rq);
  start_ride uuid now request nearest_driver.

(** The body of the [for] loop of [_optimized_driver_matching], on the
    pair [(best_driver, min_arrival_time)]. *)
Fixpoint arrival_loop (request : ref) (ds : list ref)
    (acc : option ref * xfloat) : M (option ref * xfloat) :=
  match ds with
  | [] => mret acc
  | driver :: ds' =>
      drv ← deref driver_store driver;
      rq ← deref request_store request;
      driver_to_pickup_dist ← lift_result
        (calculate_distance (_current_location (Driver_person drv)) (pickup_loc rq));
      let estimated_arrival_time_min :=
        driver_to_pickup_dist / Stage3.AVG_SPEED_KM_PER_MIN in
      arrival_loop request ds'
        (if xlt estimated_arrival_time_min (snd acc)
         then (Some driver, Finite estimated_arrival_time_min) else acc)
  end.

(** [RideService._optimized_driver_matching(request)]. *)
Definition _optimized_driver_matching (request : ref) : M (ref * R) :=
  available ← available_drivers;
  match available with
  | [] => raise NoDriverFoundError
  | _ =>
      '(best_driver, min_arrival_time) ← arrival_loop request available (None, PosInf);
      on_object best_driver (fun b =>
        drv ← deref driver_store b;
        rq ← deref request_store request;
        driver_to_pickup_dist ← lift_result
          (calculate_distance (_current_location (Driver_person drv)) (pickup_loc rq));
        mret (b, driver_to_pickup_dist))
  end.

(** [RideService.assign_ride(request)] of stage 3; the [try] re-raises
    what it catches. *)
Definition assign_ride_stage3 (uuid : string) (now : datetime) (request : ref) : M ref :=
  '(nearest_driver, driver_distance) ← _optimized_driver_matching request;
  start_ride uuid now request (Some nearest_driver).

End Arithmetic.

(** The state after steps 2 to 4 of [assign_ride] for the request [rq]
    stored at [request] and the driver [drv] stored at [d], when the ride
    is given the fare [fare0] and the distance [ride_distance]. *)
Definition started_world (uuid : string) (now : datetime) (request : ref)
    (rq : RideRequest) (d : ref) (drv : Driver) (fare0 ride_distance : R)
    (w : World) : World :=
  {| vehicle_store := vehicle_store w;
     driver_store :=
       <[d := mkDriver (Driver_person drv) (Driver_vehicle drv) false (Driver_rating drv)
                (Driver_total_rides drv) (Driver_earnings drv)]> (driver_store w);
     passenger_store := passenger_store w;
     request_store :=
       <[request := mkRideRequest (RideRequest_id rq) (RideRequest_passenger rq)
                      (pickup_loc rq) (dropoff_loc rq) (timestamp rq) "Assigned"]>
         (request_store w);
     ride_store :=
       ride_store w
       ++ [mkRide uuid request (Some d) now None fare0 ride_distance "In Progress"];
     service := set_rides (λ l, l ++ [length (ride_store w)]) (service w) |}.

End Generic.

(** [dist] gives what [calculate_distance] returns from each available
    driver of [w] to [pickup]: each of these calls returns. *)
Definition distances_to (calculate_distance : Location → Location → result R)
    (w : World) (pickup : Location) (dist : ref → R) : Prop :=
  ∀ d drv, In d (available_refs w) → driver_store w !! d = Some drv →
    calculate_distance (_current_location (Driver_person drv)) pickup = Ok (dist d).

(** What [calculate_distance] returns from the driver stored at [d] to
    [pickup]; 0 stands for a call that raises. *)
Definition returned_distance (calculate_distance : Location → Location → result R)
    (w : World) (pickup : Location) (d : ref) : R :=
  match driver_store w !! d with
  | Some drv =>
      match calculate_distance (_current_location (Driver_person drv)) pickup with
      | Ok x => x
      | Raise _ => 0
      end
  | None => 0
  end.

(** The calls of [calculate_distance] from the drivers of [ds] to
    [pickup] return what [dist] says, and these drivers are stored. *)
Definition returns_along (calculate_distance : Location → Location → result R)
    (w : World) (pickup : Location) (dist : ref → R) (ds : list ref) : Prop :=
  Forall (λ r, ∃ drv, driver_store w !! r = Some drv
                 ∧ calculate_distance (_current_location (Driver_person drv)) pickup
                   = Ok (dist r)) ds.

(** What a loop of the matching holds once it has kept a driver: a stored
    driver and what [calculate_distance] returned for it, read through
    [time_of] (the distance itself, or the arrival time). *)
Definition holds_driver (calculate_distance : Location → Location → result R)
    (w : World) (pickup : Location) (time_of : R → R)
    (acc : option ref * xfloat) : Prop :=
  ∃ d drv x, driver_store w !! d = Some drv
    ∧ calculate_distance (_current_location (Driver_person drv)) pickup = Ok x
    ∧ acc = (Some d, Finite (time_of x)).

(** [calculate_distance] as it behaves in binary64 on
    [Location(84.9, 0)] and [Location(-84.9, 180)], two points nearly
    opposite on the globe: the rounded haversine term is
    1.0000000000000002 and [math.sqrt(1 - a)] raises [ValueError].
    Elsewhere the exact function stands in. *)
Definition sqrt_raises_at_opposite (loc1 loc2 : Location) : result R :=
  if decide (latitude loc1 = 84.9 ∧ longitude loc1 = 0
             ∧ latitude loc2 = -84.9 ∧ longitude loc2 = 180)
  then Raise ValueError
  else calculate_distance loc1 loc2.

(** One available driver at latitude 84.9 on the prime meridian. *)
Definition world_opposite : World :=
  {| vehicle_store := [vehicle_d1];
     driver_store :=
       [mkDriver (mkPerson "d1" "Ahmet Yilmaz" "555-1000" (mkLocation 84.9 0)) 0%nat true
          5.0 0%nat 0.0];
     passenger_store := [passenger_p1];
     request_store := [];
     ride_store := [];
     service := {| _drivers := [0%nat]; _passengers := [0%nat]; _requests := [];
                   _rides := [] |} |}.

(** A state whose only ride was constructed without a driver. *)
Definition world_driverless : World :=
  {| vehicle_store := []; driver_store := []; passenger_store := [passenger_p1];
     request_store := [request_p1 "Pending"];
     ride_store := [mkRide "r0" 0%nat None 1%Z None 5 3 "In Progress"];
     service := {| _drivers := []; _passengers := [0%nat]; _requests := [0%nat];
                   _rides := [0%nat] |} |}.

(** Three completed rides and one in progress, of two drivers. *)
Definition world_three_rides : World :=
  {| vehicle_store := [vehicle_d1; vehicle_d2];
     driver_store :=
       [mkDriver (mkPerson "d1" "Ahmet Yilmaz" "555-1000" location_dropoff) 0%nat true
          4.9 2%nat 10.4;
        mkDriver (mkPerson "d2" "Buse Kaya" "555-2000" location_d2) 1%nat false
          4.5 1%nat 3.4];
     passenger_store := [passenger_p1; passenger_p2];
     request_store := [request_p1 "Assigned"];
     ride_store :=
       [mkRide "r1" 0%nat (Some 0%nat) 0%Z (Some 10%Z) 5.2 3 "Completed";
        mkRide "r2" 0%nat (Some 1%nat) 5%Z (Some 26%Z) 3.4 1 "Completed";
        mkRide "r3" 0%nat (Some 0%nat) 30%Z (Some 40%Z) 5.2 3 "Completed";
        mkRide "r4" 0%nat (Some 1%nat) 50%Z None 7.0 5 "In Progress"];
     service := {| _drivers := [0%nat; 1%nat]; _passengers := [0%nat; 1%nat];
                   _requests := [0%nat];
                   _rides := [0%nat; 1%nat; 2%nat; 3%nat] |} |}.

(* ================================================================= *)
(** ** Geo utilities: proofs *)

Section Geo.

Implicit Types loc : Location.

Lemma sin_half_sqr (t : R) : sin (t / 2) ^ 2 = (1 - cos t) / 2.
Proof.
  replace t with (2 * (t / 2)) at 2 by field.
  rewrite cos_2a_sin. field.
Qed.

(** The haversine term is [(1 - u.v) / 2] for the unit vectors of the two
    points. *)
Lemma haversine_a_dot loc1 loc2 :
  let x := radians (latitude loc1) in
  let y := radians (latitude loc2) in
  let dl := radians (longitude loc2) - radians (longitude loc1) in
  haversine_a loc1 loc2 = (1 - (sin x * sin y + cos x * cos y * cos dl)) / 2.
Proof.
  intros x y dl. unfold haversine_a. fold x y dl.
  rewrite !sin_half_sqr, cos_minus. field.
Qed.

Lemma haversine_a_range loc1 loc2 : 0 <= haversine_a loc1 loc2 <= 1.
Proof.
  rewrite haversine_a_dot.
  set (x := radians (latitude loc1)). set (y := radians (latitude loc2)).
  set (dl := radians (longitude loc2) - radians (longitude loc1)).
  pose proof (sin2_cos2 x) as Hx. pose proof (sin2_cos2 y) as Hy.
  pose proof (COS_bound dl) as [Hl Hu].
  unfold Rsqr in Hx, Hy.
  assert (Hc : - (cos x * cos x + cos y * cos y) / 2 <= cos x * cos y * cos dl
               <= (cos x * cos x + cos y * cos y) / 2).
  { assert (Hm : 0 <= (cos x - cos y) * (cos x - cos y)) by apply Rle_0_sqr.
    assert (Hp : 0 <= (cos x + cos y) * (cos x + cos y)) by apply Rle_0_sqr.
    assert (Hq : exists p, p = cos x * cos y) by eauto.
    destruct Hq as [p Hq]. rewrite <- Hq.
    assert (Hb : - (cos x * cos x + cos y * cos y) / 2 <= p
                 <= (cos x * cos x + cos y * cos y) / 2) by (split; lra).
    clear Hm Hp Hq.
    destruct (Rle_dec 0 p) as [Hpos | Hneg].
    - assert (p * cos dl <= p * 1) by (apply Rmult_le_compat_l; lra).
      assert (p * (-1) <= p * cos dl) by (apply Rmult_le_compat_l; lra).
      split; lra.
    - assert ((- p) * cos dl <= (- p) * 1) by (apply Rmult_le_compat_l; lra).
      assert ((- p) * (-1) <= (- p) * cos dl) by (apply Rmult_le_compat_l; lra).
      split; lra. }
  assert (Hm : 0 <= (sin x - sin y) * (sin x - sin y)) by apply Rle_0_sqr.
  assert (Hp : 0 <= (sin x + sin y) * (sin x + sin y)) by apply Rle_0_sqr.
  split; lra.
Qed.

(** In real arithmetic neither square root of [calculate_distance] is
    taken of a negative number: the call never raises. *)
Lemma calculate_distance_ok loc1 loc2 :
  calculate_distance loc1 loc2 = Ok (distance_km loc1 loc2).
Proof.
  unfold calculate_distance, distance_km, math_sqrt.
  destruct (haversine_a_range loc1 loc2) as [H0 H1].
  rewrite !decide_True by lra. reflexivity.
Qed.




End Geo.


(* ================================================================= *)
(** ** Coordinate construction *)

Lemma Location_init_raises (lat lon : R) :
  Location_init lat lon = Raise ValueError
  ↔ (lat < -90 ∨ 90 < lat) ∨ (lon < -180 ∨ 180 < lon).
Proof.
  unfold Location_init. case_decide as H; split.
  - intros _.
    destruct (Rlt_dec lat (-90)), (Rlt_dec 90 lat),
      (Rlt_dec lon (-180)), (Rlt_dec 180 lon); auto.
    exfalso. apply H. lra.
  - reflexivity.
  - discriminate.
  - intros Hout. lra.
Qed.

Lemma Location_init_returns (lat lon : R) :
  -90 <= lat <= 90 → -180 <= lon <= 180 →
  Location_init lat lon = Ok {| latitude := lat; longitude := lon |}.
Proof.
  intros Hlat Hlon. unfold Location_init.
  rewrite decide_False; [reflexivity | tauto].
Qed.

(** C7 -- constructing a coordinate raises (Python's [ValueError]) exactly
    when the latitude is outside [-90, 90] or the longitude outside
    [-180, 180], both ends included, and otherwise returns the coordinate
    with the two values unchanged; latitude 91 is refused, latitudes -90
    and 90 are accepted. *)
Theorem Location_init_validation (lat lon : R) :
  (Location_init lat lon = Raise ValueError
     ↔ (lat < -90 ∨ 90 < lat) ∨ (lon < -180 ∨ 180 < lon))
  ∧ (Location_init lat lon = Ok {| latitude := lat; longitude := lon |}
     ↔ (-90 <= lat <= 90) ∧ (-180 <= lon <= 180))
  ∧ (∀ l, Location_init lat lon = Ok l → latitude l = lat ∧ longitude l = lon)
  ∧ (∀ e, Location_init lat lon = Raise e → e = ValueError)
  ∧ (-180 <= lon <= 180 →
       Location_init 91 lon = Raise ValueError
       ∧ Location_init (-90) lon = Ok {| latitude := -90; longitude := lon |}
       ∧ Location_init 90 lon = Ok {| latitude := 90; longitude := lon |}).
Proof.
  split; [apply Location_init_raises |].
  split.
  { split.
    - unfold Location_init. case_decide as H; [discriminate |].
      intros _. destruct (decide ((-90 <= lat <= 90) ∧ (-180 <= lon <= 180))); tauto.
    - intros [? ?]. now apply Location_init_returns. }
  split.
  { unfold Location_init. intros l. case_decide; [discriminate |].
    intros [= <-]. auto. }
  split.
  { unfold Location_init. intros e. case_decide; congruence. }
  intros Hlon. split; [| split].
  - apply Location_init_raises. lra.
  - apply Location_init_returns; lra.
  - apply Location_init_returns; lra.
Qed.

Lemma Location_init_validation_witness :
  Location_init 91 0 = Raise ValueError
  ∧ Location_init (-90) 0 = Ok {| latitude := -90; longitude := 0 |}
  ∧ Location_init 90 0 = Ok {| latitude := 90; longitude := 0 |}.
Proof.
  apply (Location_init_validation 0 0). lra.
Defined.

(* ================================================================= *)
(** ** Running methods *)

Lemma bind_run {A B : Type} (m : M A) (f : A → M B) (w : World) :
  (m ≫= f) w
  = match m w with
    | (Ok a, w') => f a w'
    | (Raise e, w') => (Raise e, w')
    end.
Proof. reflexivity. Qed.

Lemma bind_Ok {A B : Type} (m : M A) (f : A → M B) (w w' : World) (a : A) :
  m w = (Ok a, w') → (m ≫= f) w = f a w'.
Proof. intros H. now rewrite bind_run, H. Qed.

Lemma bind_Raise {A B : Type} (m : M A) (f : A → M B) (w w' : World) (e : exn) :
  m w = (Raise e, w') → (m ≫= f) w = (Raise e, w').
Proof. intros H. now rewrite bind_run, H. Qed.

Lemma deref_Some {A : Type} (store : World → list A) (r : ref) (w : World) (x : A) :
  store w !! r = Some x → deref store r w = (Ok x, w).
Proof. intros H. unfold deref. now rewrite H. Qed.

Lemma deref_None {A : Type} (store : World → list A) (r : ref) (w : World) :
  store w !! r = None → deref store r w = (Raise DanglingRef, w).
Proof. intros H. unfold deref. now rewrite H. Qed.

Lemma deref_world {A : Type} (store : World → list A) (r : ref) (w : World) :
  snd (deref store r w) = w.
Proof. unfold deref. now destruct (store w !! r). Qed.

(* ================================================================= *)
(** ** Requests *)

(** C6 -- [request_ride] raises [InvalidRequestError] exactly when pickup
    and dropoff have the same latitude and the same longitude, and then
    changes nothing; otherwise it creates a request in status Pending
    for that passenger and those coordinates, appends it to the requests
    collection and returns it, leaving every other collection as it was. *)
Theorem request_ride_spec (uuid : string) (now : datetime) (passenger : ref)
    (pickup dropoff : Location) (w : World) :
  let same :=
    latitude pickup = latitude dropoff ∧ longitude pickup = longitude dropoff in
  let request := length (request_store w) in
  let rq := {| RideRequest_id := uuid; RideRequest_passenger := passenger;
               pickup_loc := pickup; dropoff_loc := dropoff; timestamp := now;
               RideRequest_status := "Pending" |} in
  (fst (request_ride uuid now passenger pickup dropoff w) = Raise InvalidRequestError
     ↔ same)
  ∧ (same → request_ride uuid now passenger pickup dropoff w
            = (Raise InvalidRequestError, w))
  ∧ (¬ same →
       ∃ w', request_ride uuid now passenger pickup dropoff w = (Ok request, w')
         ∧ request_store w' = request_store w ++ [rq]
         ∧ request_store w' !! request = Some rq
         ∧ _requests (service w') = _requests (service w) ++ [request]
         ∧ _drivers (service w') = _drivers (service w)
         ∧ _passengers (service w') = _passengers (service w)
         ∧ _rides (service w') = _rides (service w)
         ∧ vehicle_store w' = vehicle_store w
         ∧ driver_store w' = driver_store w
         ∧ passenger_store w' = passenger_store w
         ∧ ride_store w' = ride_store w).
Proof.
  intros same request rq. unfold request_ride. fold same.
  destruct (decide same) as [Hs | Hs].
  - split; [| split]; [tauto | reflexivity | tauto].
  - split; [| split].
    + split; [discriminate | tauto].
    + tauto.
    + intros _. eexists. split; [reflexivity |]. cbn.
      repeat split. apply list_lookup_middle. reflexivity.
Qed.

(** The state before anything is created: empty stores, a fresh service. *)
Lemma request_ride_spec_witness :
  ∃ w', request_ride "u1" 0%Z 0%nat (mkLocation 0 0) (mkLocation 0 1)
          (mkWorld [] [] [] [] [] RideService_init) = (Ok 0%nat, w')
        ∧ request_store w' !! 0%nat
          = Some {| RideRequest_id := "u1"; RideRequest_passenger := 0%nat;
                    pickup_loc := mkLocation 0 0; dropoff_loc := mkLocation 0 1;
                    timestamp := 0%Z; RideRequest_status := "Pending" |}.
Proof.
  destruct (proj2 (proj2 (request_ride_spec "u1" 0%Z 0%nat (mkLocation 0 0)
              (mkLocation 0 1) (mkWorld [] [] [] [] [] RideService_init))))
    as (w' & Hrun & _ & Hlook & _).
  - cbn. lra.
  - exists w'. split; [exact Hrun | exact Hlook].
Defined.

(* ================================================================= *)
(** ** Matching *)

Lemma available_among_none (w : World) (ds : list ref) :
  Forall (λ r, ∃ d, driver_store w !! r = Some d ∧ Driver_is_available d = false) ds →
  available_among ds w = (Ok [], w).
Proof.
  induction 1 as [| r ds (d & Hd & Hav) _ IH]; [reflexivity |].
  cbn [available_among].
  rewrite (bind_Ok _ _ _ _ _ (deref_Some driver_store r w d Hd)).
  rewrite (bind_Ok _ _ _ _ _ IH). now rewrite Hav.
Qed.

Lemma _find_nearest_driver_none (pickup : Location) (w : World) :
  Forall (λ r, ∃ d, driver_store w !! r = Some d ∧ Driver_is_available d = false)
    (_drivers (service w)) →
  _find_nearest_driver pickup w = (Raise NoDriverFoundError, w).
Proof.
  intros H. unfold _find_nearest_driver.
  rewrite (bind_Ok _ _ w w []); [reflexivity |].
  unfold available_drivers. now apply available_among_none.
Qed.

Lemma _optimized_driver_matching_none (request : ref) (w : World) :
  Forall (λ r, ∃ d, driver_store w !! r = Some d ∧ Driver_is_available d = false)
    (_drivers (service w)) →
  Stage3._optimized_driver_matching request w = (Raise NoDriverFoundError, w).
Proof.
  intros H. unfold Stage3._optimized_driver_matching.
  rewrite (bind_Ok _ _ w w []); [reflexivity |].
  unfold available_drivers. now apply available_among_none.
Qed.

(** C1 -- when no driver of the service is available (each one has
    [is_available] false, or there is none), [assign_ride] raises
    [NoDriverFoundError] and the whole state after the call is the state
    before it: the four collections, every stored driver, request, ride,
    passenger and vehicle.  Both versions of the method, the one of
    [service.py] and the stage-3 one. *)
Theorem assign_ride_no_driver (uuid : string) (now : datetime) (request : ref)
    (rq : RideRequest) (w : World) :
  request_store w !! request = Some rq →
  Forall (λ r, ∃ d, driver_store w !! r = Some d ∧ Driver_is_available d = false)
    (_drivers (service w)) →
  assign_ride uuid now request w = (Raise NoDriverFoundError, w)
  ∧ Stage3.assign_ride uuid now request w = (Raise NoDriverFoundError, w).
Proof.
  intros Hrq Hnone. split.
  - unfold assign_ride.
    rewrite (bind_Ok _ _ _ _ _ (deref_Some request_store request w rq Hrq)).
    now rewrite (bind_Raise _ _ _ _ _ (_find_nearest_driver_none (pickup_loc rq) w Hnone)).
  - unfold Stage3.assign_ride.
    now rewrite (bind_Raise _ _ _ _ _ (_optimized_driver_matching_none request w Hnone)).
Qed.

Lemma assign_ride_no_driver_witness :
  assign_ride "r1" 1%Z 0%nat world_busy = (Raise NoDriverFoundError, world_busy)
  ∧ Stage3.assign_ride "r1" 1%Z 0%nat world_busy = (Raise NoDriverFoundError, world_busy).
Proof.
  apply (assign_ride_no_driver "r1" 1%Z 0%nat (request_p1 "Pending") world_busy).
  - reflexivity.
  - repeat constructor; eexists; (split; [reflexivity | reflexivity]).
Defined.

(** *** The comparison with [float('inf')] *)

Lemma xlt_Finite (x y : R) : xlt x (Finite y) = true ↔ x < y.
Proof. cbn. apply bool_decide_eq_true. Qed.

Lemma xlt_false (x : R) (m : xfloat) :
  xlt x m = false → ∃ y, m = Finite y ∧ y <= x.
Proof.
  destruct m as [y |]; cbn; [| discriminate].
  intros H. apply bool_decide_eq_false in H. exists y. split; [reflexivity | lra].
Qed.

Lemma xlt_below (x y : R) (m : xfloat) : x < y → xlt y m = true → xlt x m = true.
Proof.
  destruct m as [z |]; [| reflexivity].
  rewrite !xlt_Finite. lra.
Qed.

Lemma xlt_between (x y : R) (m : xfloat) : xlt x m = true → xlt y m = false → x < y.
Proof.
  intros Hx Hy. destruct (xlt_false _ _ Hy) as (z & -> & Hz).
  apply xlt_Finite in Hx. lra.
Qed.

Lemma xlt_arrival (x : R) (acc : option ref * xfloat) :
  xlt (x / Stage3.AVG_SPEED_KM_PER_MIN) (snd (arrival_of acc)) = xlt x (snd acc).
Proof.
  destruct acc as [o [y |]]; [| reflexivity]. cbn.
  apply bool_decide_ext. unfold Stage3.AVG_SPEED_KM_PER_MIN. lra.
Qed.

(** *** The loop on keys: the first minimum *)

Lemma first_min_spec (key : ref → R) (ds : list ref) (acc : option ref * xfloat) :
  (first_min key ds acc = acc ∧ ∀ j d, ds !! j = Some d → xlt (key d) (snd acc) = false)
  ∨ (∃ i d, ds !! i = Some d
       ∧ first_min key ds acc = (Some d, Finite (key d))
       ∧ xlt (key d) (snd acc) = true
       ∧ (∀ j d', ds !! j = Some d' → key d <= key d')
       ∧ (∀ j d', (j < i)%nat → ds !! j = Some d' → key d < key d')).
Proof.
  revert acc. induction ds as [| d0 ds IH]; intros acc.
  - left. split; [reflexivity |]. intros j d Hj. discriminate.
  - cbn [first_min]. destruct (xlt (key d0) (snd acc)) eqn:Hx.
    + right.
      destruct (IH (Some d0, Finite (key d0)))
        as [[Heq Hall] | (i & d & Hi & Heq & Hlt & Hmin & Hfirst)].
      * exists 0%nat, d0. repeat split; trivial.
        -- intros [| j] d' Hj; cbn in Hj.
           ++ injection Hj as <-. lra.
           ++ specialize (Hall j d' Hj). cbn in Hall.
              apply bool_decide_eq_false in Hall. lra.
        -- intros j d' Hj. lia.
      * apply xlt_Finite in Hlt.
        exists (S i), d. repeat split; trivial.
        -- now apply (xlt_below _ (key d0)).
        -- intros [| j] d' Hj; cbn in Hj.
           ++ injection Hj as <-. lra.
           ++ now apply (Hmin j).
        -- intros [| j] d' Hji Hj; cbn in Hj.
           ++ injection Hj as <-. lra.
           ++ apply (Hfirst j); [lia | trivial].
    + destruct (IH acc) as [[Heq Hall] | (i & d & Hi & Heq & Hlt & Hmin & Hfirst)].
      * left. split; [trivial |].
        intros [| j] d Hj; cbn in Hj.
        -- now injection Hj as <-.
        -- now apply (Hall j).
      * right. pose proof (xlt_between _ _ _ Hlt Hx) as Hd0.
        exists (S i), d. repeat split; trivial.
        -- intros [| j] d' Hj; cbn in Hj.
           ++ injection Hj as <-. lra.
           ++ now apply (Hmin j).
        -- intros [| j] d' Hji Hj; cbn in Hj.
           ++ injection Hj as <-. lra.
           ++ apply (Hfirst j); [lia | trivial].
Qed.

Lemma first_min_nonempty (key : ref → R) (ds : list ref) :
  ds ≠ [] →
  ∃ i d, ds !! i = Some d
    ∧ first_min key ds (None, PosInf) = (Some d, Finite (key d))
    ∧ (∀ j d', ds !! j = Some d' → key d <= key d')
    ∧ (∀ j d', (j < i)%nat → ds !! j = Some d' → key d < key d').
Proof.
  intros Hne.
  destruct (first_min_spec key ds (None, PosInf))
    as [[_ Hall] | (i & d & Hi & Heq & _ & Hmin & Hfirst)].
  - destruct ds as [| d0 ds]; [congruence |].
    specialize (Hall 0%nat d0 eq_refl). discriminate.
  - exists i, d. auto.
Qed.

(** *** The two loops of the service *)

Lemma available_among_filter (w : World) (ds : list ref) :
  Forall (λ r, is_Some (driver_store w !! r)) ds →
  available_among ds w = (Ok (List.filter (is_available_at w) ds), w).
Proof.
  induction 1 as [| r ds [drv Hr] _ IH]; [reflexivity |].
  cbn [available_among List.filter].
  rewrite (bind_Ok _ _ _ _ _ (deref_Some driver_store r w drv Hr)).
  rewrite (bind_Ok _ _ _ _ _ IH).
  replace (is_available_at w r) with (Driver_is_available drv)
    by (unfold is_available_at; now rewrite Hr).
  reflexivity.
Qed.

Lemma available_among_world (w : World) (ds : list ref) :
  snd (available_among ds w) = w.
Proof.
  induction ds as [| r ds IH]; [reflexivity |].
  cbn [available_among]. rewrite bind_run. unfold deref.
  destruct (driver_store w !! r) as [drv |]; [| reflexivity].
  rewrite bind_run. destruct (available_among ds w) as [[l | e] w']; cbn in *; now subst.
Qed.

Lemma nearest_loop_step (pickup : Location) (w : World) (d : ref) (drv : Driver)
    (ds : list ref) (acc : option ref * xfloat) :
  driver_store w !! d = Some drv →
  nearest_loop pickup (d :: ds) acc w
  = nearest_loop pickup ds
      (let distance := distance_km (_current_location (Driver_person drv)) pickup in
       if xlt distance (snd acc) then (Some d, Finite distance) else acc) w.
Proof.
  intros Hd. cbn [nearest_loop].
  rewrite (bind_Ok _ _ _ _ _ (deref_Some driver_store d w drv Hd)).
  rewrite calculate_distance_ok. reflexivity.
Qed.

Lemma arrival_loop_step (request : ref) (rq : RideRequest) (w : World) (d : ref)
    (drv : Driver) (ds : list ref) (acc : option ref * xfloat) :
  driver_store w !! d = Some drv →
  request_store w !! request = Some rq →
  Stage3.arrival_loop request (d :: ds) acc w
  = Stage3.arrival_loop request ds
      (let arrival := distance_km (_current_location (Driver_person drv)) (pickup_loc rq)
                      / Stage3.AVG_SPEED_KM_PER_MIN in
       if xlt arrival (snd acc) then (Some d, Finite arrival) else acc) w.
Proof.
  intros Hd Hrq. cbn [Stage3.arrival_loop].
  rewrite (bind_Ok _ _ _ _ _ (deref_Some driver_store d w drv Hd)).
  rewrite (bind_Ok _ _ _ _ _ (deref_Some request_store request w rq Hrq)).
  rewrite calculate_distance_ok. reflexivity.
Qed.

Lemma nearest_loop_first_min (pickup : Location) (w : World) (ds : list ref)
    (acc : option ref * xfloat) :
  Forall (λ r, is_Some (driver_store w !! r)) ds →
  nearest_loop pickup ds acc w = (Ok (first_min (driver_to_pickup w pickup) ds acc), w).
Proof.
  intros H. revert acc. induction H as [| d ds [drv Hd] _ IH]; intros acc.
  - reflexivity.
  - rewrite (nearest_loop_step _ _ _ _ _ _ Hd), IH. cbn [first_min].
    replace (driver_to_pickup w pickup d)
      with (distance_km (_current_location (Driver_person drv)) pickup)
      by (unfold driver_to_pickup; now rewrite Hd).
    reflexivity.
Qed.

Lemma nearest_loop_world (pickup : Location) (w : World) (ds : list ref)
    (acc : option ref * xfloat) :
  snd (nearest_loop pickup ds acc w) = w.
Proof.
  revert acc. induction ds as [| d ds IH]; intros acc; [reflexivity |].
  destruct (driver_store w !! d) as [drv |] eqn:Hd.
  - rewrite (nearest_loop_step _ _ _ _ _ _ Hd). apply IH.
  - cbn [nearest_loop]. now rewrite (bind_Raise _ _ _ _ _ (deref_None driver_store d w Hd)).
Qed.

(** The stage-3 loop is the plain loop read in minutes. *)
Lemma arrival_loop_nearest_loop (request : ref) (rq : RideRequest) (w : World)
    (ds : list ref) (acc : option ref * xfloat) :
  request_store w !! request = Some rq →
  Stage3.arrival_loop request ds (arrival_of acc) w
  = (result_map arrival_of (fst (nearest_loop (pickup_loc rq) ds acc w)), w).
Proof.
  intros Hrq. revert acc. induction ds as [| d ds IH]; intros acc; [reflexivity |].
  destruct (driver_store w !! d) as [drv |] eqn:Hd.
  - rewrite (nearest_loop_step _ _ _ _ _ _ Hd), (arrival_loop_step _ _ _ _ _ _ _ Hd Hrq).
    cbv zeta. rewrite xlt_arrival, <- IH.
    now destruct (xlt _ (snd acc)).
  - cbn [nearest_loop Stage3.arrival_loop].
    now rewrite !(bind_Raise _ _ _ _ _ (deref_None driver_store d w Hd)).
Qed.

Lemma nearest_loop_kept (pickup : Location) (w : World) (ds : list ref)
    (acc res : option ref * xfloat) :
  kept w pickup acc ∨ (snd acc = PosInf ∧ ds ≠ []) →
  fst (nearest_loop pickup ds acc w) = Ok res →
  kept w pickup res.
Proof.
  revert acc. induction ds as [| d ds IH]; intros acc Hacc Hrun.
  - cbn in Hrun. destruct Hacc as [Hk | [_ Hne]]; congruence.
  - destruct (driver_store w !! d) as [drv |] eqn:Hd.
    + rewrite (nearest_loop_step _ _ _ _ _ _ Hd) in Hrun. cbv zeta in Hrun.
      apply IH in Hrun; [trivial |]. left.
      destruct (xlt _ (snd acc)) eqn:Hx.
      * exists d, drv. auto.
      * destruct Hacc as [Hk | [Hinf _]]; [trivial |].
        rewrite Hinf in Hx. discriminate.
    + cbn [nearest_loop] in Hrun.
      rewrite (bind_Raise _ _ _ _ _ (deref_None driver_store d w Hd)) in Hrun.
      discriminate.
Qed.

(** The stage-3 matching returns what the plain search returns. *)
Lemma optimized_as_nearest (request : ref) (rq : RideRequest) (w : World) :
  request_store w !! request = Some rq →
  _find_nearest_driver (pickup_loc rq) w
  = (as_nearest (fst (Stage3._optimized_driver_matching request w)),
     snd (Stage3._optimized_driver_matching request w)).
Proof.
  intros Hrq. unfold _find_nearest_driver, Stage3._optimized_driver_matching.
  rewrite !bind_run. unfold available_drivers.
  pose proof (available_among_world w (_drivers (service w))) as Hw.
  destruct (available_among (_drivers (service w)) w) as [[av | e] w1];
    cbn in Hw; subst w1; [| reflexivity].
  destruct av as [| d0 av]; [reflexivity |].
  rewrite bind_run.
  change (@pair (option ref) xfloat None PosInf) with (arrival_of (None, PosInf)).
  rewrite (arrival_loop_nearest_loop _ _ _ _ _ Hrq).
  change (arrival_of (None, PosInf)) with (@pair (option ref) xfloat None PosInf).
  pose proof (nearest_loop_world (pickup_loc rq) w (d0 :: av) (None, PosInf)) as Hw.
  pose proof (nearest_loop_kept (pickup_loc rq) w (d0 :: av) (None, PosInf)) as Hk.
  destruct (nearest_loop (pickup_loc rq) (d0 :: av) (None, PosInf) w) as [[res | e] w1];
    cbn in Hw; subst w1; [| now cbn].
  destruct (Hk res) as (d & drv & Hd & ->); [right; split; [reflexivity | discriminate] | reflexivity |].
  cbn [fst result_map arrival_of on_object].
  rewrite (bind_Ok _ _ _ _ _ (deref_Some driver_store d w drv Hd)).
  rewrite (bind_Ok _ _ _ _ _ (deref_Some request_store request w rq Hrq)).
  rewrite calculate_distance_ok. reflexivity.
Qed.

Lemma available_refs_resolve (w : World) (j : nat) (d : ref) :
  available_refs w !! j = Some d →
  ∃ drv, driver_store w !! d = Some drv ∧ Driver_is_available drv = true.
Proof.
  intros Hj. apply list_elem_of_lookup_2, list_elem_of_In in Hj.
  apply filter_In in Hj as [_ Hav]. unfold is_available_at in Hav.
  destruct (driver_store w !! d) as [drv |]; [eauto | discriminate].
Qed.

Lemma _find_nearest_driver_first_min (pickup : Location) (w : World) :
  drivers_resolve w →
  available_refs w ≠ [] →
  _find_nearest_driver pickup w
  = (Ok (first_min (driver_to_pickup w pickup) (available_refs w) (None, PosInf)), w).
Proof.
  intros Hres Hne. unfold _find_nearest_driver.
  rewrite (bind_Ok _ _ w w (available_refs w)) by now apply available_among_filter.
  destruct (available_refs w) as [| d0 av] eqn:Hav; [congruence |].
  rewrite <- Hav. apply nearest_loop_first_min.
  apply Forall_forall. intros d Hin. unfold available_refs in Hin.
  apply list_elem_of_In, filter_In in Hin as [Hin _].
  unfold drivers_resolve in Hres. rewrite Forall_forall in Hres.
  now apply Hres, list_elem_of_In.
Qed.

Lemma arrival_le (x y : R) :
  x <= y ↔ x / Stage3.AVG_SPEED_KM_PER_MIN <= y / Stage3.AVG_SPEED_KM_PER_MIN.
Proof. unfold Stage3.AVG_SPEED_KM_PER_MIN. lra. Qed.

Lemma arrival_lt (x y : R) :
  x < y ↔ x / Stage3.AVG_SPEED_KM_PER_MIN < y / Stage3.AVG_SPEED_KM_PER_MIN.
Proof. unfold Stage3.AVG_SPEED_KM_PER_MIN. lra. Qed.

(** *** The two loops over any arithmetic *)

Lemma first_min_arrival (dist : ref → R) (ds : list ref) (acc : option ref * xfloat) :
  first_min (λ d, dist d / Stage3.AVG_SPEED_KM_PER_MIN) ds (arrival_of acc)
  = arrival_of (first_min dist ds acc).
Proof.
  revert acc. induction ds as [| d ds IH]; intros acc; [reflexivity |].
  cbn [first_min]. rewrite xlt_arrival, <- IH. now destruct (xlt (dist d) (snd acc)).
Qed.

Lemma available_drivers_run (w : World) :
  drivers_resolve w → available_drivers w = (Ok (available_refs w), w).
Proof. intros Hres. now apply available_among_filter. Qed.

Lemma available_refs_stored (w : World) (d : ref) :
  In d (available_refs w) →
  ∃ drv, driver_store w !! d = Some drv ∧ Driver_is_available drv = true.
Proof.
  intros Hin. apply list_elem_of_In, list_elem_of_lookup_1 in Hin as [j Hj].
  now apply (available_refs_resolve w j).
Qed.

(** The methods above are the generic ones at the exact functions. *)
Lemma assign_ride_instance :
  _find_nearest_driver = Generic._find_nearest_driver calculate_distance
  ∧ Stage3._optimized_driver_matching
    = Generic._optimized_driver_matching calculate_distance
  ∧ assign_ride = Generic.assign_ride calculate_distance _estimate_fare
  ∧ Stage3.assign_ride = Generic.assign_ride_stage3 calculate_distance _estimate_fare.
Proof. repeat split. Qed.

Section GenericMatching.

Variable calculate_distance : Location → Location → result R.

Lemma distances_to_returns_along (w : World) (pickup : Location) (dist : ref → R) :
  distances_to calculate_distance w pickup dist →
  returns_along calculate_distance w pickup dist (available_refs w).
Proof.
  intros Hd. apply Forall_forall. intros d Hin. apply list_elem_of_In in Hin.
  destruct (available_refs_stored w d Hin) as (drv & Hs & _).
  exists drv. split; [exact Hs | now apply Hd].
Qed.

Lemma generic_nearest_loop_first_min (pickup : Location) (dist : ref → R) (w : World)
    (ds : list ref) (acc : option ref * xfloat) :
  returns_along calculate_distance w pickup dist ds →
  Generic.nearest_loop calculate_distance pickup ds acc w
  = (Ok (first_min dist ds acc), w).
Proof.
  intros H. revert acc.
  induction H as [| d ds (drv & Hd & Hx) _ IH]; intros acc; [reflexivity |].
  cbn [Generic.nearest_loop first_min].
  rewrite (bind_Ok _ _ _ _ _ (deref_Some driver_store d w drv Hd)).
  rewrite Hx. apply IH.
Qed.

Lemma generic_arrival_loop_first_min (request : ref) (rq : RideRequest)
    (dist : ref → R) (w : World) (ds : list ref) (acc : option ref * xfloat) :
  request_store w !! request = Some rq →
  returns_along calculate_distance w (pickup_loc rq) dist ds →
  Generic.arrival_loop calculate_distance request ds acc w
  = (Ok (first_min (λ d, dist d / Stage3.AVG_SPEED_KM_PER_MIN) ds acc), w).
Proof.
  intros Hrq H. revert acc.
  induction H as [| d ds (drv & Hd & Hx) _ IH]; intros acc; [reflexivity |].
  cbn [Generic.arrival_loop first_min].
  rewrite (bind_Ok _ _ _ _ _ (deref_Some driver_store d w drv Hd)).
  rewrite (bind_Ok _ _ _ _ _ (deref_Some request_store request w rq Hrq)).
  rewrite Hx. apply IH.
Qed.

Lemma generic_find_nearest_driver_run (pickup : Location) (dist : ref → R) (w : World) :
  drivers_resolve w →
  available_refs w ≠ [] →
  distances_to calculate_distance w pickup dist →
  Generic._find_nearest_driver calculate_distance pickup w
  = (Ok (first_min dist (available_refs w) (None, PosInf)), w).
Proof.
  intros Hres Hne Hd. unfold Generic._find_nearest_driver.
  rewrite (bind_Ok _ _ w w (available_refs w)) by now apply available_drivers_run.
  pose proof (distances_to_returns_along w pickup dist Hd) as Hall.
  destruct (available_refs w) as [| d0 av]; [congruence |].
  now apply generic_nearest_loop_first_min.
Qed.

Lemma generic_optimized_driver_matching_run (request : ref) (rq : RideRequest)
    (dist : ref → R) (w : World) (d : ref) :
  drivers_resolve w →
  request_store w !! request = Some rq →
  distances_to calculate_distance w (pickup_loc rq) dist →
  In d (available_refs w) →
  first_min dist (available_refs w) (None, PosInf) = (Some d, Finite (dist d)) →
  Generic._optimized_driver_matching calculate_distance request w
  = (Ok (d, dist d), w).
Proof.
  intros Hres Hrq Hd Hin Hmin. unfold Generic._optimized_driver_matching.
  rewrite (bind_Ok _ _ w w (available_refs w)) by now apply available_drivers_run.
  pose proof (distances_to_returns_along w (pickup_loc rq) dist Hd) as Hall.
  destruct (available_refs_stored w d Hin) as (drv & Hs & _).
  specialize (Hd d drv Hin Hs).
  destruct (available_refs w) as [| d0 av]; [destruct Hin |].
  rewrite (bind_Ok _ _ w w (arrival_of (Some d, Finite (dist d)))).
  - cbn [arrival_of on_object].
    rewrite (bind_Ok _ _ _ _ _ (deref_Some driver_store d w drv Hs)).
    rewrite (bind_Ok _ _ _ _ _ (deref_Some request_store request w rq Hrq)).
    rewrite Hd. reflexivity.
  - rewrite (generic_arrival_loop_first_min request rq dist w _ _ Hrq Hall).
    change (@pair (option ref) xfloat None PosInf) with (arrival_of (None, PosInf)).
    now rewrite first_min_arrival, Hmin.
Qed.

(** A loop that returns has had every one of its distance calls return. *)
Lemma generic_nearest_loop_returned (pickup : Location) (w w' : World) (ds : list ref)
    (acc res : option ref * xfloat) :
  Generic.nearest_loop calculate_distance pickup ds acc w = (Ok res, w') →
  returns_along calculate_distance w pickup
    (returned_distance calculate_distance w pickup) ds.
Proof.
  revert acc. induction ds as [| d ds IH]; intros acc Hrun; [constructor |].
  cbn [Generic.nearest_loop] in Hrun. rewrite bind_run in Hrun. unfold deref in Hrun.
  destruct (driver_store w !! d) as [drv |] eqn:Hd; [| discriminate].
  destruct (calculate_distance (_current_location (Driver_person drv)) pickup)
    as [x | e] eqn:Hx; [| discriminate].
  cbn [lift_result] in Hrun. rewrite bind_run in Hrun. cbn [mret] in Hrun.
  constructor; [| exact (IH _ Hrun)].
  exists drv. split; [exact Hd |].
  unfold returned_distance. now rewrite Hd, Hx.
Qed.

Lemma generic_nearest_loop_cases (pickup : Location) (w : World) (ds : list ref)
    (acc : option ref * xfloat) :
  Forall (λ r, is_Some (driver_store w !! r)) ds →
  (∃ res, Generic.nearest_loop calculate_distance pickup ds acc w = (Ok res, w))
  ∨ (∃ e a b, calculate_distance a b = Raise e
       ∧ Generic.nearest_loop calculate_distance pickup ds acc w = (Raise e, w)).
Proof.
  intros H. revert acc. induction H as [| d ds [drv Hd] _ IH]; intros acc.
  - left. exists acc. reflexivity.
  - cbn [Generic.nearest_loop].
    rewrite (bind_Ok _ _ _ _ _ (deref_Some driver_store d w drv Hd)).
    destruct (calculate_distance (_current_location (Driver_person drv)) pickup)
      as [x | e] eqn:Hx.
    + cbn [lift_result]. rewrite bind_run. cbn [mret]. apply IH.
    + right. exists e, (_current_location (Driver_person drv)), pickup.
      split; [exact Hx | reflexivity].
Qed.

Lemma returns_along_distances_to (w : World) (pickup : Location) (dist : ref → R) :
  returns_along calculate_distance w pickup dist (available_refs w) →
  distances_to calculate_distance w pickup dist.
Proof.
  intros H d drv Hin Hd. unfold returns_along in H. rewrite Forall_forall in H.
  destruct (H d) as (drv' & Hd' & Hx); [now apply list_elem_of_In |].
  rewrite Hd in Hd'. injection Hd' as <-. exact Hx.
Qed.

(** The stage-3 loop is the plain loop read in minutes, whatever the
    distance calls do. *)
Lemma generic_arrival_loop_nearest_loop (request : ref) (rq : RideRequest) (w : World)
    (ds : list ref) (acc : option ref * xfloat) :
  request_store w !! request = Some rq →
  Generic.arrival_loop calculate_distance request ds (arrival_of acc) w
  = (result_map arrival_of
       (fst (Generic.nearest_loop calculate_distance (pickup_loc rq) ds acc w)),
     snd (Generic.nearest_loop calculate_distance (pickup_loc rq) ds acc w)).
Proof.
  intros Hrq. revert acc. induction ds as [| d ds IH]; intros acc; [reflexivity |].
  cbn [Generic.nearest_loop Generic.arrival_loop]. rewrite !bind_run.
  unfold deref.
  destruct (driver_store w !! d) as [drv |]; [| reflexivity].
  rewrite !bind_run. unfold deref. rewrite Hrq.
  destruct (calculate_distance (_current_location (Driver_person drv)) (pickup_loc rq))
    as [x | e]; [| reflexivity].
  unfold lift_result. rewrite bind_run. cbv beta iota.
  rewrite xlt_arrival, <- IH. now destruct (xlt x (snd acc)).
Qed.

(** When a distance call of the search raises, both methods raise what it
    raised. *)
Lemma generic_matching_raises (pickup : Location) (w : World) :
  drivers_resolve w →
  available_refs w ≠ [] →
  ¬ distances_to calculate_distance w pickup
      (returned_distance calculate_distance w pickup) →
  ∃ e a b,
    calculate_distance a b = Raise e
    ∧ Generic._find_nearest_driver calculate_distance pickup w = (Raise e, w)
    ∧ (∀ request rq,
         request_store w !! request = Some rq → pickup_loc rq = pickup →
         Generic._optimized_driver_matching calculate_distance request w
         = (Raise e, w)).
Proof.
  intros Hres Hne Hnot.
  assert (Hstored : Forall (λ r, is_Some (driver_store w !! r)) (available_refs w)).
  { apply Forall_forall. intros d Hin. apply list_elem_of_In in Hin.
    destruct (available_refs_stored w d Hin) as (drv & Hs & _). eauto. }
  destruct (generic_nearest_loop_cases pickup w (available_refs w) (None, PosInf) Hstored)
    as [[res Hrun] | (e & a & b & Hab & Hrun)].
  { exfalso. apply Hnot, returns_along_distances_to.
    exact (generic_nearest_loop_returned pickup w w _ _ _ Hrun). }
  exists e, a, b. split; [exact Hab |]. split.
  - unfold Generic._find_nearest_driver.
    rewrite (bind_Ok _ _ w w (available_refs w)) by now apply available_drivers_run.
    revert Hrun. destruct (available_refs w) as [| d0 av]; [congruence |].
    intros Hrun. exact Hrun.
  - intros request rq Hrq <-. unfold Generic._optimized_driver_matching.
    rewrite (bind_Ok _ _ w w (available_refs w)) by now apply available_drivers_run.
    revert Hrun. destruct (available_refs w) as [| d0 av]; [congruence |].
    intros Hrun. erewrite bind_Raise; [reflexivity |].
    change (@pair (option ref) xfloat None PosInf) with (arrival_of (None, PosInf)).
    rewrite (generic_arrival_loop_nearest_loop request rq w _ _ Hrq).
    now rewrite Hrun.
Qed.

End GenericMatching.

(** C2 -- with at least one available driver, the matching engine (the
    search of [service.py] and the stage-3 matching alike) compares the
    distances that [calculate_distance] returns, whatever its arithmetic.
    When each of its calls returns, the engine returns an available
    driver whose distance to the pickup, and so whose arrival time
    [distance / 0.5], is smallest among the available drivers, and
    strictly smaller than that of every available driver before it in the
    collection: of several drivers at the minimal distance the first in
    insertion order is selected; it returns that distance and changes
    nothing.  When a call raises, the engine selects no driver: it raises
    what [calculate_distance] raised, and changes nothing. *)
Theorem nearest_available_driver_selected
    (calculate_distance : Location → Location → result R)
    (pickup : Location) (w : World) :
  drivers_resolve w →
  available_refs w ≠ [] →
  let dist := returned_distance calculate_distance w pickup in
  (distances_to calculate_distance w pickup dist →
   ∃ i d drv,
     available_refs w !! i = Some d
     ∧ driver_store w !! d = Some drv
     ∧ Driver_is_available drv = true
     ∧ calculate_distance (_current_location (Driver_person drv)) pickup = Ok (dist d)
     ∧ Generic._find_nearest_driver calculate_distance pickup w
       = (Ok (Some d, Finite (dist d)), w)
     ∧ (∀ request rq,
          request_store w !! request = Some rq → pickup_loc rq = pickup →
          Generic._optimized_driver_matching calculate_distance request w
          = (Ok (d, dist d), w))
     ∧ (∀ j d', available_refs w !! j = Some d' →
          dist d <= dist d'
          ∧ dist d / Stage3.AVG_SPEED_KM_PER_MIN
            <= dist d' / Stage3.AVG_SPEED_KM_PER_MIN)
     ∧ (∀ j d', (j < i)%nat → available_refs w !! j = Some d' →
          dist d < dist d'
          ∧ dist d / Stage3.AVG_SPEED_KM_PER_MIN
            < dist d' / Stage3.AVG_SPEED_KM_PER_MIN))
  ∧ (¬ distances_to calculate_distance w pickup dist →
     ∃ e a b,
       calculate_distance a b = Raise e
       ∧ Generic._find_nearest_driver calculate_distance pickup w = (Raise e, w)
       ∧ (∀ request rq,
            request_store w !! request = Some rq → pickup_loc rq = pickup →
            Generic._optimized_driver_matching calculate_distance request w
            = (Raise e, w))).
Proof.
  intros Hres Hne dist. split; [| now apply generic_matching_raises].
  intros Hdist.
  pose proof (generic_find_nearest_driver_run calculate_distance pickup dist w
                Hres Hne Hdist) as Hrun.
  destruct (first_min_nonempty dist (available_refs w) Hne)
    as (i & d & Hi & Hmin & Hle & Hlt).
  rewrite Hmin in Hrun.
  destruct (available_refs_resolve w i d Hi) as (drv & Hd & Hav).
  assert (Hin : In d (available_refs w))
    by (apply list_elem_of_In; eapply list_elem_of_lookup_2, Hi).
  exists i, d, drv. repeat split; trivial.
  - now apply Hdist.
  - intros request rq Hrq <-.
    now apply (generic_optimized_driver_matching_run calculate_distance request rq).
  - now apply (Hle j).
  - apply (proj1 (arrival_le _ _)). now apply (Hle j).
  - now apply (Hlt j).
  - apply (proj1 (arrival_lt _ _)). now apply (Hlt j).
Qed.

(** Two available drivers at the same place, with the exact distance:
    the first is selected.  Two available drivers at 5 and at 1 from the
    pickup: the second is selected.  A driver nearly opposite to the
    pickup on the globe, where the distance call raises as it does in
    binary64: the search raises [ValueError]. *)
Lemma nearest_available_driver_selected_witness :
  Generic._find_nearest_driver calculate_distance location_p1 world_tie
  = (Ok (Some 0%nat, Finite (distance_km location_d1 location_p1)), world_tie)
  ∧ Generic._find_nearest_driver
      (λ a _, Ok (if decide (latitude a = 41.0082) then 5 else 1))
      location_p1 world_requested
    = (Ok (Some 1%nat, Finite 1), world_requested)
  ∧ Generic._find_nearest_driver sqrt_raises_at_opposite (mkLocation (-84.9) 180)
      world_opposite
    = (Raise ValueError, world_opposite).
Proof.
  split; [| split].
  - assert (Hdist : ∀ d, (d < 2)%nat →
              returned_distance calculate_distance world_tie location_p1 d
              = distance_km location_d1 location_p1).
    { intros d Hlt. unfold returned_distance.
      destruct d as [| [| d]]; [| | lia]; cbn [world_tie set_driver_store driver_store];
        cbn [lookup list_lookup]; cbn [driver_d1 Driver_person _current_location];
        now rewrite calculate_distance_ok. }
    destruct (proj1 (nearest_available_driver_selected calculate_distance location_p1
                       world_tie
                       ltac:(repeat constructor; eexists; reflexivity)
                       ltac:(discriminate)))
      as (i & d & drv & Hi & _ & _ & _ & Hrun & _ & _ & Hfirst).
    + intros d drv Hin Hd. rewrite calculate_distance_ok.
      unfold returned_distance. now rewrite Hd, calculate_distance_ok.
    + destruct i as [| [| i]]; cbn in Hi; try discriminate; injection Hi as <-.
      * now rewrite Hdist in Hrun by lia.
      * destruct (Hfirst 0%nat 0%nat) as [Hlt _]; [lia | reflexivity |].
        rewrite !Hdist in Hlt by lia. lra.
  - assert (Hdist0 : returned_distance
                       (λ a _, Ok (if decide (latitude a = 41.0082) then 5 else 1))
                       world_requested location_p1 0%nat = 5).
    { unfold returned_distance. cbn [world_requested driver_store].
      cbn [lookup list_lookup]. cbn [driver_d1 Driver_person _current_location].
      apply decide_True. reflexivity. }
    assert (Hdist1 : returned_distance
                       (λ a _, Ok (if decide (latitude a = 41.0082) then 5 else 1))
                       world_requested location_p1 1%nat = 1).
    { unfold returned_distance. cbn [world_requested driver_store].
      cbn [lookup list_lookup]. cbn [driver_d2 Driver_person _current_location].
      apply decide_False. cbn [location_d2 latitude]. lra. }
    destruct (proj1 (nearest_available_driver_selected
                       (λ a _, Ok (if decide (latitude a = 41.0082) then 5 else 1))
                       location_p1 world_requested
                       ltac:(repeat constructor; eexists; reflexivity)
                       ltac:(discriminate)))
      as (i & d & drv & Hi & _ & _ & _ & Hrun & _ & Hle & _).
    + intros d drv Hin Hd. unfold returned_distance. now rewrite Hd.
    + destruct i as [| [| i]]; cbn in Hi; try discriminate; injection Hi as <-.
      * destruct (Hle 1%nat 1%nat) as [Hlt _]; [reflexivity |].
        rewrite Hdist0, Hdist1 in Hlt. lra.
      * now rewrite Hdist1 in Hrun.
  - destruct (proj2 (nearest_available_driver_selected sqrt_raises_at_opposite
                       (mkLocation (-84.9) 180) world_opposite
                       ltac:(repeat constructor; eexists; reflexivity)
                       ltac:(discriminate)))
      as (e & a & b & Hab & Hrun & _).
    + intros Hdist.
      specialize (Hdist 0%nat _ ltac:(left; reflexivity) eq_refl).
      unfold sqrt_raises_at_opposite in Hdist.
      rewrite decide_True in Hdist by (cbn; repeat split; lra). discriminate.
    + rewrite Hrun. f_equal. f_equal.
      unfold sqrt_raises_at_opposite in Hab.
      destruct (decide _); [congruence |].
      rewrite calculate_distance_ok in Hab. discriminate.
Defined.

(** C8 -- the stage-3 matching, which minimises the arrival time
    [distance / 0.5], and the plain search for the nearest driver have the
    same outcome on every state and every request: the same driver with
    the same distance, or the same exception, and the same state after. *)
Theorem optimized_matching_equals_nearest (request : ref) (rq : RideRequest) (w : World) :
  request_store w !! request = Some rq →
  _find_nearest_driver (pickup_loc rq) w
  = (as_nearest (fst (Stage3._optimized_driver_matching request w)),
     snd (Stage3._optimized_driver_matching request w))
  ∧ (∀ d x w',
       Stage3._optimized_driver_matching request w = (Ok (d, x), w')
       ↔ _find_nearest_driver (pickup_loc rq) w = (Ok (Some d, Finite x), w'))
  ∧ (∀ e w',
       Stage3._optimized_driver_matching request w = (Raise e, w')
       ↔ _find_nearest_driver (pickup_loc rq) w = (Raise e, w')).
Proof.
  intros Hrq. pose proof (optimized_as_nearest request rq w Hrq) as Heq.
  split; [exact Heq |].
  destruct (Stage3._optimized_driver_matching request w) as [[[d' x'] | e'] w1];
    rewrite Heq; cbn; split; intros; split; congruence.
Qed.

Lemma optimized_matching_equals_nearest_witness :
  _find_nearest_driver location_p1 world_requested
  = (as_nearest (fst (Stage3._optimized_driver_matching 0%nat world_requested)),
     snd (Stage3._optimized_driver_matching 0%nat world_requested)).
Proof.
  apply (optimized_matching_equals_nearest 0%nat (request_p1 "Pending") world_requested).
  reflexivity.
Defined.

(* ================================================================= *)
(** ** Completing a ride *)

Lemma Driver_update_location_run (d : ref) (drv : Driver) (loc : Location) (w : World) :
  driver_store w !! d = Some drv →
  Driver_update_location d loc w
  = (Ok tt,
     set_driver_store (λ l,
       <[d := mkDriver (Person_update_location (Driver_person drv) loc)
                (Driver_vehicle drv) (Driver_is_available drv) (Driver_rating drv)
                (Driver_total_rides drv) (Driver_earnings drv)]> l) w).
Proof.
  intros Hd. unfold Driver_update_location.
  now rewrite (bind_Ok _ _ _ _ _ (deref_Some driver_store d w drv Hd)).
Qed.

Lemma Driver_set_availability_run (d : ref) (drv : Driver) (status : bool) (w : World) :
  driver_store w !! d = Some drv →
  Driver_set_availability d status w
  = (Ok tt,
     set_driver_store (λ l,
       <[d := mkDriver (Driver_person drv) (Driver_vehicle drv) status (Driver_rating drv)
                (Driver_total_rides drv) (Driver_earnings drv)]> l) w).
Proof.
  intros Hd. unfold Driver_set_availability.
  now rewrite (bind_Ok _ _ _ _ _ (deref_Some driver_store d w drv Hd)).
Qed.

Lemma set_driver_store_twice (d : ref) (x y : Driver) (w : World) :
  set_driver_store (λ l, <[d := y]> l) (set_driver_store (λ l, <[d := x]> l) w)
  = set_driver_store (λ l, <[d := y]> l) w.
Proof. unfold set_driver_store. cbn. now rewrite list_insert_insert_eq. Qed.

Lemma driver_store_assigned (d : ref) (drv x : Driver) (w : World) :
  driver_store w !! d = Some drv →
  driver_store (set_driver_store (λ l, <[d := x]> l) w) !! d = Some x.
Proof.
  intros Hd. cbn. apply list_lookup_insert_eq. now apply lookup_lt_Some in Hd.
Qed.

Lemma Driver_complete_ride_run (d : ref) (drv : Driver) (fare0 new_rating : R) (w : World) :
  driver_store w !! d = Some drv →
  Driver_complete_ride d fare0 new_rating w
  = (Ok tt,
     set_driver_store (λ l,
       <[d := mkDriver (Driver_person drv) (Driver_vehicle drv) true
                ((Driver_rating drv * INR (S (Driver_total_rides drv) - 1) + new_rating)
                 / INR (S (Driver_total_rides drv)))
                (S (Driver_total_rides drv)) (Driver_earnings drv + fare0)]> l) w).
Proof.
  intros Hd. unfold Driver_complete_ride.
  rewrite (bind_Ok _ _ _ _ _ (deref_Some driver_store d w drv Hd)).
  cbv zeta. rewrite bind_run. cbn [assign].
  erewrite Driver_set_availability_run by (eapply driver_store_assigned, Hd).
  now rewrite set_driver_store_twice.
Qed.

Lemma Vehicle_add_mileage_run (v : ref) (veh : Vehicle) (distance : R) (w : World) :
  vehicle_store w !! v = Some veh →
  Vehicle_add_mileage v distance w
  = (Ok tt,
     set_vehicle_store (λ l,
       <[v := mkVehicle (_make veh) (_model veh) (_license_plate veh)
                (_mileage veh + distance)]> l) w).
Proof.
  intros Hv. unfold Vehicle_add_mileage.
  now rewrite (bind_Ok _ _ _ _ _ (deref_Some vehicle_store v w veh Hv)).
Qed.

Lemma Passenger_complete_ride_run (p : ref) (pas : Passenger) (w : World) :
  passenger_store w !! p = Some pas →
  Passenger_complete_ride p w
  = (Ok tt,
     set_passenger_store (λ l,
       <[p := mkPassenger (Passenger_person pas) (S (Passenger_total_rides pas))]> l) w).
Proof.
  intros Hp. unfold Passenger_complete_ride.
  now rewrite (bind_Ok _ _ _ _ _ (deref_Some passenger_store p w pas Hp)).
Qed.

(** The state [Ride.complete] leaves, when every reference it follows is
    in the store. *)
Lemma Ride_complete_run (now : datetime) (self : ref) (actual_distance final_fare rating : R)
    (w : World) (r : Ride) (rq : RideRequest) (d : ref) (drv : Driver) (veh : Vehicle)
    (pas : Passenger) :
  ride_store w !! self = Some r →
  request_store w !! Ride_request r = Some rq →
  Ride_driver r = Some d →
  driver_store w !! d = Some drv →
  vehicle_store w !! Driver_vehicle drv = Some veh →
  passenger_store w !! RideRequest_passenger rq = Some pas →
  Ride_complete now self actual_distance final_fare rating w
  = (Ok tt, completed_world now self actual_distance final_fare rating w r rq d drv veh pas).
Proof.
  intros Hr Hrq Hdr Hd Hv Hp. unfold Ride_complete.
  rewrite (bind_Ok _ _ _ _ _ (deref_Some ride_store self w r Hr)).
  rewrite bind_run. cbn [assign].
  erewrite (bind_Ok (deref request_store _)) by (apply deref_Some; exact Hrq).
  rewrite Hdr. cbn [on_object].
  erewrite (bind_Ok (Driver_update_location _ _))
    by (apply Driver_update_location_run; exact Hd).
  erewrite (bind_Ok (Driver_complete_ride _ _ _))
    by (apply Driver_complete_ride_run; eapply driver_store_assigned, Hd).
  rewrite set_driver_store_twice.
  erewrite (bind_Ok (_ ≫= _)).
  2:{ erewrite (bind_Ok (deref driver_store _))
        by (apply deref_Some; eapply driver_store_assigned, Hd).
      cbn [Driver_vehicle]. apply Vehicle_add_mileage_run. exact Hv. }
  erewrite (bind_Ok (deref request_store _)) by (apply deref_Some; exact Hrq).
  erewrite Passenger_complete_ride_run by exact Hp.
  unfold completed_world. rewrite Hdr. reflexivity.
Qed.

Section Completed.

Variables (now : datetime) (self : ref) (actual_distance final_fare rating : R).
Variables (w : World) (r : Ride) (rq : RideRequest) (d : ref) (drv : Driver).
Variables (veh : Vehicle) (pas : Passenger).

Hypothesis Hr : ride_store w !! self = Some r.
Hypothesis Hrq : request_store w !! Ride_request r = Some rq.
Hypothesis Hd : driver_store w !! d = Some drv.
Hypothesis Hv : vehicle_store w !! Driver_vehicle drv = Some veh.
Hypothesis Hp : passenger_store w !! RideRequest_passenger rq = Some pas.

Let w' : World :=
  completed_world now self actual_distance final_fare rating w r rq d drv veh pas.

Lemma completed_world_ride :
  ride_store w' !! self
  = Some (mkRide (Ride_id r) (Ride_request r) (Ride_driver r) (_start_time r)
            (Some now) (fare r) (estimated_distance r) "Completed").
Proof. apply list_lookup_insert_eq. now apply lookup_lt_Some in Hr. Qed.

Lemma completed_world_driver :
  driver_store w' !! d
  = Some (mkDriver (Person_update_location (Driver_person drv) (dropoff_loc rq))
            (Driver_vehicle drv) true
            ((Driver_rating drv * INR (S (Driver_total_rides drv) - 1) + rating)
             / INR (S (Driver_total_rides drv)))
            (S (Driver_total_rides drv)) (Driver_earnings drv + final_fare)).
Proof. apply list_lookup_insert_eq. now apply lookup_lt_Some in Hd. Qed.

Lemma completed_world_vehicle :
  vehicle_store w' !! Driver_vehicle drv
  = Some (mkVehicle (_make veh) (_model veh) (_license_plate veh)
            (_mileage veh + actual_distance)).
Proof. apply list_lookup_insert_eq. now apply lookup_lt_Some in Hv. Qed.

Lemma completed_world_passenger :
  passenger_store w' !! RideRequest_passenger rq
  = Some (mkPassenger (Passenger_person pas) (S (Passenger_total_rides pas))).
Proof. apply list_lookup_insert_eq. now apply lookup_lt_Some in Hp. Qed.

End Completed.

Lemma INR_pred_S (n : nat) : INR (S n - 1) = INR (S n) - 1.
Proof. replace (S n - 1)%nat with n by lia. rewrite S_INR. lra. Qed.

(** C3 -- [complete_ride] on a ride in progress, with driver [d] of rating
    [r], [n - 1] rides and earnings [e], request of dropoff [D] and
    passenger [p]: the call returns; the ride is Completed with the end
    time stamped; [d] is at [D], available, has [n] rides, earnings
    [e + final_fare] and rating [(r * (n - 1) + rating) / n]; the mileage
    of [d]'s vehicle has grown by [actual_distance]; [p] has one more
    trip. *)
Theorem complete_ride_updates (now : datetime) (ride : ref)
    (rating actual_distance final_fare : R) (w : World)
    (r : Ride) (rq : RideRequest) (d : ref) (drv : Driver) (veh : Vehicle)
    (pas : Passenger) :
  ride_store w !! ride = Some r →
  Ride_status r = "In Progress"%string →
  request_store w !! Ride_request r = Some rq →
  Ride_driver r = Some d →
  driver_store w !! d = Some drv →
  vehicle_store w !! Driver_vehicle drv = Some veh →
  passenger_store w !! RideRequest_passenger rq = Some pas →
  let n := S (Driver_total_rides drv) in
  ∃ w' r' drv' veh' pas',
    complete_ride now ride rating actual_distance final_fare w = (Ok tt, w')
    ∧ ride_store w' !! ride = Some r'
    ∧ Ride_status r' = "Completed"%string
    ∧ _end_time r' = Some now
    ∧ driver_store w' !! d = Some drv'
    ∧ _current_location (Driver_person drv') = dropoff_loc rq
    ∧ Driver_is_available drv' = true
    ∧ Driver_total_rides drv' = n
    ∧ Driver_earnings drv' = Driver_earnings drv + final_fare
    ∧ Driver_rating drv' = (Driver_rating drv * (INR n - 1) + rating) / INR n
    ∧ Driver_vehicle drv' = Driver_vehicle drv
    ∧ vehicle_store w' !! Driver_vehicle drv = Some veh'
    ∧ _mileage veh' = _mileage veh + actual_distance
    ∧ passenger_store w' !! RideRequest_passenger rq = Some pas'
    ∧ Passenger_total_rides pas' = S (Passenger_total_rides pas).
Proof.
  intros Hr _ Hrq Hdr Hd Hv Hp n.
  pose proof (Ride_complete_run now ride actual_distance final_fare rating
                w r rq d drv veh pas Hr Hrq Hdr Hd Hv Hp) as Hrun.
  eexists _, _, _, _, _.
  split; [exact Hrun |].
  split; [apply completed_world_ride; exact Hr |].
  split; [reflexivity |]. split; [reflexivity |].
  split; [apply completed_world_driver; exact Hd |].
  split; [reflexivity |]. split; [reflexivity |]. split; [reflexivity |].
  split; [reflexivity |].
  split; [cbn [Driver_rating]; now rewrite INR_pred_S |].
  split; [reflexivity |].
  split; [apply completed_world_vehicle; exact Hv |].
  split; [reflexivity |].
  split; [apply completed_world_passenger; exact Hp |].
  reflexivity.
Qed.

(** The completion of [main.py]: rating 4.9, 11.2 km, fare 18.50. *)
Lemma complete_ride_updates_witness :
  ∃ w' drv' veh' pas',
    complete_ride 2%Z 0%nat 4.9 11.2 18.50 (world_riding 13) = (Ok tt, w')
    ∧ driver_store w' !! 0%nat = Some drv'
    ∧ Driver_is_available drv' = true
    ∧ Driver_total_rides drv' = 1%nat
    ∧ Driver_earnings drv' = 0.0 + 18.50
    ∧ Driver_rating drv' = (5.0 * (INR 1 - 1) + 4.9) / INR 1
    ∧ vehicle_store w' !! 0%nat = Some veh'
    ∧ _mileage veh' = 0 + 11.2
    ∧ passenger_store w' !! 0%nat = Some pas'
    ∧ Passenger_total_rides pas' = 1%nat.
Proof.
  destruct (complete_ride_updates 2%Z 0%nat 4.9 11.2 18.50 (world_riding 13)
              (ride_d1 13) (request_p1 "Assigned") 0%nat (driver_d1 false)
              vehicle_d1 passenger_p1)
    as (w' & r' & drv' & veh' & pas' & Hrun & _ & _ & _ & Hd & _ & Hav & Hn & He & Hrt
        & _ & Hv & Hm & Hp & Hpn); try reflexivity.
  exists w', drv', veh', pas'. repeat split; assumption.
Defined.

(** C5 -- [complete_ride] has no guard on the status: for a stored ride
    that has a driver, with the driver, its vehicle, the request and the
    passenger stored, the call returns whatever the status of the ride,
    and so does a second call on the same ride, by then Completed.  After
    the second call the driver has two more rides, the earnings are those
    of before with the first final fare added, then the second, the
    mileage of the vehicle that of before with the first distance added,
    then the second, and the passenger has two more trips.  A ride
    without a driver is the exception: there the call raises
    [AttributeError]. *)
Theorem complete_ride_twice (now1 now2 : datetime) (ride : ref)
    (rating1 rating2 distance1 distance2 fare1 fare2 : R) (w : World)
    (r : Ride) (rq : RideRequest) (d : ref) (drv : Driver) (veh : Vehicle)
    (pas : Passenger) :
  ride_store w !! ride = Some r →
  request_store w !! Ride_request r = Some rq →
  Ride_driver r = Some d →
  driver_store w !! d = Some drv →
  vehicle_store w !! Driver_vehicle drv = Some veh →
  passenger_store w !! RideRequest_passenger rq = Some pas →
  ∃ w1 w2 r1 drv2 veh2 pas2,
    complete_ride now1 ride rating1 distance1 fare1 w = (Ok tt, w1)
    ∧ ride_store w1 !! ride = Some r1
    ∧ Ride_status r1 = "Completed"%string
    ∧ complete_ride now2 ride rating2 distance2 fare2 w1 = (Ok tt, w2)
    ∧ driver_store w2 !! d = Some drv2
    ∧ Driver_total_rides drv2 = (Driver_total_rides drv + 2)%nat
    ∧ Driver_earnings drv2 = Driver_earnings drv + fare1 + fare2
    ∧ vehicle_store w2 !! Driver_vehicle drv = Some veh2
    ∧ _mileage veh2 = _mileage veh + distance1 + distance2
    ∧ passenger_store w2 !! RideRequest_passenger rq = Some pas2
    ∧ Passenger_total_rides pas2 = (Passenger_total_rides pas + 2)%nat.
Proof.
  intros Hr Hrq Hdr Hd Hv Hp.
  pose proof (Ride_complete_run now1 ride distance1 fare1 rating1
                w r rq d drv veh pas Hr Hrq Hdr Hd Hv Hp) as Hrun1.
  set (w1 := completed_world now1 ride distance1 fare1 rating1 w r rq d drv veh pas)
    in *.
  pose proof (completed_world_ride now1 ride distance1 fare1 rating1
                w r rq d drv veh pas Hr) as Hr1.
  pose proof (completed_world_driver now1 ride distance1 fare1 rating1
                w r rq d drv veh pas Hd) as Hd1.
  pose proof (completed_world_vehicle now1 ride distance1 fare1 rating1
                w r rq d drv veh pas Hv) as Hv1.
  pose proof (completed_world_passenger now1 ride distance1 fare1 rating1
                w r rq d drv veh pas Hp) as Hp1.
  fold w1 in Hr1, Hd1, Hv1, Hp1.
  assert (Hrq1 : request_store w1 !! Ride_request r = Some rq) by exact Hrq.
  match type of Hr1 with _ = Some ?x => set (r1 := x) in * end.
  match type of Hd1 with _ = Some ?x => set (drv1 := x) in * end.
  match type of Hv1 with _ = Some ?x => set (veh1 := x) in * end.
  match type of Hp1 with _ = Some ?x => set (pas1 := x) in * end.
  pose proof (Ride_complete_run now2 ride distance2 fare2 rating2
                w1 r1 rq d drv1 veh1 pas1 Hr1 Hrq1 Hdr Hd1 Hv1 Hp1) as Hrun2.
  eexists w1, _, r1, _, _, _.
  split; [exact Hrun1 |]. split; [exact Hr1 |]. split; [reflexivity |].
  split; [exact Hrun2 |].
  split; [apply completed_world_driver; exact Hd1 |].
  split; [unfold drv1; cbn [Driver_total_rides]; lia |].
  split; [reflexivity |].
  split; [apply (completed_world_vehicle now2 ride distance2 fare2 rating2 w1 r1 rq d
                   drv1 veh1 pas1 Hv1) |].
  split; [reflexivity |].
  split; [apply completed_world_passenger; exact Hp1 |].
  unfold pas1. cbn [Passenger_total_rides]. lia.
Qed.

Lemma complete_ride_twice_witness :
  ∃ w1 w2 drv2 veh2 pas2,
    complete_ride 2%Z 0%nat 4.9 11.2 18.50 (world_riding 13) = (Ok tt, w1)
    ∧ complete_ride 3%Z 0%nat 4.1 3.4 7.25 w1 = (Ok tt, w2)
    ∧ driver_store w2 !! 0%nat = Some drv2
    ∧ Driver_total_rides drv2 = 2%nat
    ∧ Driver_earnings drv2 = 0.0 + 18.50 + 7.25
    ∧ _mileage veh2 = 0 + 11.2 + 3.4
    ∧ passenger_store w2 !! 0%nat = Some pas2
    ∧ Passenger_total_rides pas2 = 2%nat.
Proof.
  destruct (complete_ride_twice 2%Z 3%Z 0%nat 4.9 4.1 11.2 3.4 18.50 7.25
              (world_riding 13) (ride_d1 13) (request_p1 "Assigned") 0%nat
              (driver_d1 false) vehicle_d1 passenger_p1)
    as (w1 & w2 & r1 & drv2 & veh2 & pas2 & Hrun1 & _ & _ & Hrun2 & Hd & Hn & He
        & _ & Hm & Hp & Hpn); try reflexivity.
  exists w1, w2, drv2, veh2, pas2. repeat split; assumption.
Defined.

(** The claim as it is written fails on a ride constructed without a
    driver: the call raises [AttributeError]. *)
Lemma complete_ride_twice_counterexample :
  ride_store world_driverless !! 0%nat
  = Some (mkRide "r0" 0%nat None 1%Z None 5 3 "In Progress")
  ∧ request_store world_driverless !! 0%nat = Some (request_p1 "Pending")
  ∧ fst (complete_ride 2%Z 0%nat 4.9 11.2 18.50 world_driverless) = Raise AttributeError.
Proof. repeat split. Qed.

(* ================================================================= *)
(** ** The stored fare of a ride *)

(** *** Methods that leave the rides alone *)

Lemma same_rides_refl (w : World) : same_rides w w.
Proof. split; reflexivity. Qed.

Lemma same_rides_trans (w1 w2 w3 : World) :
  same_rides w1 w2 → same_rides w2 w3 → same_rides w1 w3.
Proof. intros [H1 H2] [H3 H4]. split; congruence. Qed.

Lemma keeps_rides_ret {A : Type} (a : A) : keeps_rides (mret a : M A).
Proof. intros w. apply same_rides_refl. Qed.

Lemma keeps_rides_raise {A : Type} (e : exn) : keeps_rides (raise e : M A).
Proof. intros w. apply same_rides_refl. Qed.

Lemma keeps_rides_lift_result {A : Type} (r : result A) : keeps_rides (lift_result r).
Proof. intros w. apply same_rides_refl. Qed.

Lemma keeps_rides_deref {A : Type} (store : World → list A) (r : ref) :
  keeps_rides (deref store r).
Proof. intros w. rewrite deref_world. apply same_rides_refl. Qed.

Lemma keeps_rides_bind {A B : Type} (m : M A) (f : A → M B) :
  keeps_rides m → (∀ a, keeps_rides (f a)) → keeps_rides (m ≫= f).
Proof.
  intros Hm Hf w. rewrite bind_run. specialize (Hm w).
  destruct (m w) as [[a | e] w1]; cbn in Hm; [| exact Hm].
  eapply same_rides_trans; [exact Hm | apply Hf].
Qed.

Lemma keeps_rides_assign_vehicle (r : ref) (x : Vehicle) :
  keeps_rides (assign set_vehicle_store r x).
Proof. intros w. split; reflexivity. Qed.

Lemma keeps_rides_assign_driver (r : ref) (x : Driver) :
  keeps_rides (assign set_driver_store r x).
Proof. intros w. split; reflexivity. Qed.

Lemma keeps_rides_assign_passenger (r : ref) (x : Passenger) :
  keeps_rides (assign set_passenger_store r x).
Proof. intros w. split; reflexivity. Qed.

Lemma keeps_rides_assign_request (r : ref) (x : RideRequest) :
  keeps_rides (assign set_request_store r x).
Proof. intros w. split; reflexivity. Qed.

Lemma keeps_rides_new_vehicle (x : Vehicle) :
  keeps_rides (new vehicle_store set_vehicle_store x).
Proof. intros w. split; reflexivity. Qed.

Lemma keeps_rides_new_driver (x : Driver) :
  keeps_rides (new driver_store set_driver_store x).
Proof. intros w. split; reflexivity. Qed.

Lemma keeps_rides_new_passenger (x : Passenger) :
  keeps_rides (new passenger_store set_passenger_store x).
Proof. intros w. split; reflexivity. Qed.

Lemma keeps_rides_new_request (x : RideRequest) :
  keeps_rides (new request_store set_request_store x).
Proof. intros w. split; reflexivity. Qed.

Lemma keeps_rides_append_drivers (r : ref) : keeps_rides (append set_drivers r).
Proof. intros w. split; reflexivity. Qed.

Lemma keeps_rides_append_passengers (r : ref) : keeps_rides (append set_passengers r).
Proof. intros w. split; reflexivity. Qed.

Lemma keeps_rides_append_requests (r : ref) : keeps_rides (append set_requests r).
Proof. intros w. split; reflexivity. Qed.

Create HintDb keeps.

#[local] Hint Resolve keeps_rides_ret keeps_rides_raise keeps_rides_lift_result
  keeps_rides_deref keeps_rides_bind keeps_rides_assign_vehicle
  keeps_rides_assign_driver keeps_rides_assign_passenger keeps_rides_assign_request
  keeps_rides_new_vehicle keeps_rides_new_driver keeps_rides_new_passenger
  keeps_rides_new_request keeps_rides_append_drivers keeps_rides_append_passengers
  keeps_rides_append_requests : keeps.

Lemma keeps_rides_on_object {A : Type} (o : option ref) (method : ref → M A) :
  (∀ r, keeps_rides (method r)) → keeps_rides (on_object o method).
Proof. intros H. destruct o; cbn; auto with keeps. Qed.

Lemma keeps_rides_Driver_update_location (d : ref) (loc : Location) :
  keeps_rides (Driver_update_location d loc).
Proof. unfold Driver_update_location. auto with keeps. Qed.

Lemma keeps_rides_Driver_set_availability (d : ref) (status : bool) :
  keeps_rides (Driver_set_availability d status).
Proof. unfold Driver_set_availability. auto with keeps. Qed.

#[local] Hint Resolve keeps_rides_on_object keeps_rides_Driver_update_location
  keeps_rides_Driver_set_availability : keeps.

Lemma keeps_rides_Driver_complete_ride (d : ref) (fare0 new_rating : R) :
  keeps_rides (Driver_complete_ride d fare0 new_rating).
Proof. unfold Driver_complete_ride. auto 6 with keeps. Qed.

Lemma keeps_rides_Passenger_complete_ride (p : ref) :
  keeps_rides (Passenger_complete_ride p).
Proof. unfold Passenger_complete_ride. auto with keeps. Qed.

Lemma keeps_rides_Vehicle_add_mileage (v : ref) (distance : R) :
  keeps_rides (Vehicle_add_mileage v distance).
Proof. unfold Vehicle_add_mileage. auto with keeps. Qed.

Lemma keeps_rides_RideRequest_set_status (r : ref) (status : string) :
  keeps_rides (RideRequest_set_status r status).
Proof. unfold RideRequest_set_status. auto with keeps. Qed.

#[local] Hint Resolve keeps_rides_Driver_complete_ride
  keeps_rides_Passenger_complete_ride keeps_rides_Vehicle_add_mileage
  keeps_rides_RideRequest_set_status : keeps.

Lemma keeps_rides_request_ride (uuid : string) (now : datetime) (passenger : ref)
    (pickup dropoff : Location) :
  keeps_rides (request_ride uuid now passenger pickup dropoff).
Proof.
  unfold request_ride, RideRequest_init. case_decide; auto 6 with keeps.
Qed.

Lemma keeps_rides_available_among (ds : list ref) : keeps_rides (available_among ds).
Proof. induction ds; cbn [available_among]; auto 6 with keeps. Qed.

Lemma keeps_rides_available_drivers : keeps_rides available_drivers.
Proof. intros w. apply keeps_rides_available_among. Qed.

Lemma keeps_rides_nearest_loop (pickup : Location) (ds : list ref)
    (acc : option ref * xfloat) :
  keeps_rides (nearest_loop pickup ds acc).
Proof.
  revert acc. induction ds; intros acc; cbn [nearest_loop]; auto 6 with keeps.
Qed.

Lemma keeps_rides_arrival_loop (request : ref) (ds : list ref)
    (acc : option ref * xfloat) :
  keeps_rides (Stage3.arrival_loop request ds acc).
Proof.
  revert acc. induction ds; intros acc; cbn [Stage3.arrival_loop]; auto 8 with keeps.
Qed.

#[local] Hint Resolve keeps_rides_request_ride keeps_rides_available_drivers
  keeps_rides_nearest_loop keeps_rides_arrival_loop : keeps.

Lemma keeps_rides__find_nearest_driver (pickup : Location) :
  keeps_rides (_find_nearest_driver pickup).
Proof.
  unfold _find_nearest_driver. apply keeps_rides_bind; [auto with keeps |].
  intros [| d ds]; auto with keeps.
Qed.

Lemma keeps_rides__optimized_driver_matching (request : ref) :
  keeps_rides (Stage3._optimized_driver_matching request).
Proof.
  unfold Stage3._optimized_driver_matching. apply keeps_rides_bind; [auto with keeps |].
  intros [| d ds]; [auto with keeps |].
  apply keeps_rides_bind; [auto with keeps |].
  intros [best_driver min_arrival_time]. auto 10 with keeps.
Qed.

(** *** The invariant of a run *)

Lemma frozen_refl (w : World) : frozen w w.
Proof. intros k x Hk. eauto. Qed.

Lemma rides_inv_same (w0 w w' : World) :
  same_rides w w' → rides_inv w0 w → rides_inv w0 w'.
Proof.
  unfold rides_inv, frozen, rides_ok. intros [Hs Hr]. now rewrite Hs, Hr.
Qed.

Lemma rides_inv_keeps {A : Type} (m : M A) (w0 w : World) :
  keeps_rides m → rides_inv w0 w → rides_inv w0 (snd (m w)).
Proof. intros Hm. apply rides_inv_same, Hm. Qed.

(** A new ride that the service does not hold yet. *)
Lemma rides_inv_new_ride (w0 w : World) (x : Ride) :
  rides_inv w0 w → rides_inv w0 (set_ride_store (λ l, l ++ [x]) w).
Proof.
  intros [Hf Hok]. split.
  - intros k y Hk. destruct (Hf k y Hk) as (y' & Hk' & Heq).
    exists y'. split; [| exact Heq]. cbn. now apply lookup_app_l_Some.
  - unfold rides_ok in *. cbn. eapply Forall_impl; [exact Hok |].
    intros k (y & Hk & Hend). exists y. split; [| exact Hend].
    now apply lookup_app_l_Some.
Qed.

(** A new ride in progress, appended to the service's collection. *)
Lemma rides_inv_start (w0 w : World) (x : Ride) :
  Ride_status x = "In Progress"%string →
  rides_inv w0 w →
  rides_inv w0 (set_service (set_rides (λ l, l ++ [length (ride_store w)]))
                  (set_ride_store (λ l, l ++ [x]) w)).
Proof.
  intros Hst Hinv. destruct (rides_inv_new_ride w0 w x Hinv) as [Hf Hok].
  split; [exact Hf |].
  unfold rides_ok in *. cbn in *. apply Forall_app. split; [exact Hok |].
  repeat constructor. exists x. split.
  - apply list_lookup_middle. reflexivity.
  - rewrite Hst. discriminate.
Qed.

(** A stored ride marked completed, with its end time. *)
Lemma rides_inv_completed (w0 w : World) (self : ref) (r : Ride) (now : datetime) :
  ride_store w !! self = Some r →
  rides_inv w0 w →
  rides_inv w0
    (set_ride_store (λ l,
       <[self := mkRide (Ride_id r) (Ride_request r) (Ride_driver r) (_start_time r)
                   (Some now) (fare r) (estimated_distance r) "Completed"]> l) w).
Proof.
  intros Hr [Hf Hok].
  assert (Hlen : (self < length (ride_store w))%nat) by now apply lookup_lt_Some in Hr.
  split.
  - intros k y Hk. destruct (Hf k y Hk) as (y' & Hk' & Hfare & Hdist). cbn.
    destruct (decide (self = k)) as [Heq | Hne]; [subst k |].
    + rewrite list_lookup_insert_eq by exact Hlen.
      assert (Hy : Some y' = Some r)
        by (transitivity (ride_store w !! self); [symmetry; exact Hk' | exact Hr]).
      injection Hy as ->.
      eexists. split; [reflexivity |]. cbn [fare estimated_distance]. now split.
    + rewrite list_lookup_insert_ne by exact Hne. eauto.
  - unfold rides_ok in *. cbn. eapply Forall_impl; [exact Hok |].
    intros k (y & Hk & Hend).
    destruct (decide (self = k)) as [Heq | Hne]; [subst k |].
    + rewrite list_lookup_insert_eq by exact Hlen.
      eexists. split; [reflexivity |]. cbn [_end_time]. eauto.
    + rewrite list_lookup_insert_ne by exact Hne. eauto.
Qed.

Lemma rides_inv_Ride_init (w0 w : World) (uuid : string) (now : datetime)
    (request : ref) (driver : option ref) (fare0 estimated_distance0 : R) :
  rides_inv w0 w →
  rides_inv w0 (snd (Ride_init uuid now request driver fare0 estimated_distance0 w)).
Proof. apply rides_inv_new_ride. Qed.

Lemma rides_inv_start_ride (w0 w : World) (uuid : string) (now : datetime)
    (request : ref) (nearest_driver : option ref) :
  rides_inv w0 w →
  rides_inv w0 (snd (start_ride uuid now request nearest_driver w)).
Proof.
  intros Hinv. unfold start_ride. rewrite bind_run. unfold deref at 1.
  destruct (request_store w !! request) as [rq |]; [| exact Hinv].
  rewrite calculate_distance_ok, bind_run. cbn [lift_result].
  rewrite bind_run. cbn [Ride_init new]. rewrite bind_run. cbn [append].
  apply rides_inv_keeps; [auto 8 with keeps |].
  now apply rides_inv_start.
Qed.

Lemma rides_inv_Ride_complete (w0 w : World) (now : datetime) (self : ref)
    (actual_distance final_fare rating : R) :
  rides_inv w0 w →
  rides_inv w0 (snd (Ride_complete now self actual_distance final_fare rating w)).
Proof.
  intros Hinv. unfold Ride_complete. rewrite bind_run. unfold deref at 1.
  destruct (ride_store w !! self) as [r |] eqn:Hr; [| exact Hinv].
  rewrite bind_run. cbn [assign].
  apply rides_inv_keeps; [auto 10 with keeps |].
  now apply rides_inv_completed.
Qed.

Lemma rides_inv_assign_ride (w0 w : World) (uuid : string) (now : datetime)
    (request : ref) :
  rides_inv w0 w →
  rides_inv w0 (snd (assign_ride uuid now request w)).
Proof.
  intros Hinv. unfold assign_ride. rewrite bind_run. unfold deref at 1.
  destruct (request_store w !! request) as [rq |]; [| exact Hinv].
  rewrite bind_run.
  pose proof (keeps_rides__find_nearest_driver (pickup_loc rq) w) as Hk.
  destruct (_find_nearest_driver (pickup_loc rq) w) as [[[nearest distance] | e] w1];
    cbn in Hk.
  - apply rides_inv_start_ride. now apply (rides_inv_same w0 w).
  - now apply (rides_inv_same w0 w).
Qed.

Lemma rides_inv_assign_ride_stage3 (w0 w : World) (uuid : string) (now : datetime)
    (request : ref) :
  rides_inv w0 w →
  rides_inv w0 (snd (Stage3.assign_ride uuid now request w)).
Proof.
  intros Hinv. unfold Stage3.assign_ride. rewrite bind_run.
  pose proof (keeps_rides__optimized_driver_matching request w) as Hk.
  destruct (Stage3._optimized_driver_matching request w)
    as [[[nearest distance] | e] w1]; cbn in Hk.
  - apply rides_inv_start_ride. now apply (rides_inv_same w0 w).
  - now apply (rides_inv_same w0 w).
Qed.

(** *** Analytics *)

Lemma completed_among_filter (w : World) (rs : list ref) :
  Forall (λ k, is_Some (ride_store w !! k)) rs →
  completed_among rs w = (Ok (List.filter (is_completed_at w) rs), w).
Proof.
  induction 1 as [| k rs [x Hk] _ IH]; [reflexivity |].
  cbn [completed_among List.filter].
  rewrite (bind_Ok _ _ _ _ _ (deref_Some ride_store k w x Hk)).
  rewrite (bind_Ok _ _ _ _ _ IH).
  replace (is_completed_at w k) with (String.eqb (Ride_status x) "Completed")
    by (unfold is_completed_at; now rewrite Hk).
  reflexivity.
Qed.

Lemma sum_fares_fold (w : World) (rs : list ref) (acc : R) :
  Forall (λ k, is_Some (ride_store w !! k)) rs →
  sum_fares rs acc w = (Ok (fold_left (λ acc k, acc + fare_at w k) rs acc), w).
Proof.
  intros H. revert acc. induction H as [| k rs [x Hk] _ IH]; intros acc; [reflexivity |].
  cbn [sum_fares fold_left].
  rewrite (bind_Ok _ _ _ _ _ (deref_Some ride_store k w x Hk)), IH.
  replace (fare_at w k) with (fare x) by (unfold fare_at; now rewrite Hk).
  reflexivity.
Qed.

Lemma sum_durations_returns (w : World) (rs : list ref) (acc : timedelta) :
  Forall (λ k, ∃ x, ride_store w !! k = Some x ∧ is_Some (_end_time x)) rs →
  ∃ t, sum_durations rs acc w = (Ok t, w).
Proof.
  intros H. revert acc.
  induction H as [| k rs (x & Hk & [e He]) _ IH]; intros acc.
  - exists acc. reflexivity.
  - cbn [sum_durations].
    rewrite (bind_Ok _ _ _ _ _ (deref_Some ride_store k w x Hk)), He. apply IH.
Qed.

Lemma completed_refs_ended (w : World) :
  rides_ok w →
  Forall (λ k, ∃ x, ride_store w !! k = Some x ∧ is_Some (_end_time x)) (completed_refs w).
Proof.
  intros Hok. apply Forall_forall. intros k Hin.
  apply list_elem_of_In, filter_In in Hin as [Hin Hc].
  unfold rides_ok in Hok. rewrite Forall_forall in Hok.
  destruct (Hok k) as (x & Hk & Hend); [now apply list_elem_of_In |].
  exists x. split; [exact Hk |]. apply Hend.
  unfold is_completed_at in Hc. rewrite Hk in Hc. now apply String.eqb_eq.
Qed.

(** On a state that satisfies [rides_ok] the analytics return, and the
    total they report is the sum of the stored fares. *)
Lemma generate_simple_analytics_returns (w : World) :
  rides_ok w →
  ∃ a, generate_simple_analytics w = (Ok a, w)
    ∧ total_trips a = length (completed_refs w)
    ∧ total_fare a = sum_stored_fares w.
Proof.
  intros Hok.
  assert (Hres : Forall (λ k, is_Some (ride_store w !! k)) (_rides (service w))).
  { eapply Forall_impl; [exact Hok |]. intros k (x & Hk & _). eauto. }
  pose proof (completed_refs_ended w Hok) as Hend.
  assert (Hcres : Forall (λ k, is_Some (ride_store w !! k)) (completed_refs w)).
  { eapply Forall_impl; [exact Hend |]. intros k (x & Hk & _). eauto. }
  unfold generate_simple_analytics.
  rewrite (bind_Ok _ _ w w (completed_refs w))
    by (unfold completed_rides; now apply completed_among_filter).
  cbv zeta. rewrite (bind_Ok _ _ _ _ _ (sum_fares_fold w _ 0 Hcres)).
  destruct (0 <? length (completed_refs w))%nat.
  - destruct (sum_durations_returns w (completed_refs w) 0%Z Hend) as [t Ht].
    erewrite (bind_Ok (_ ≫= _)) by (rewrite (bind_Ok _ _ _ _ _ Ht); reflexivity).
    eexists. split; [reflexivity |]. split; reflexivity.
  - eexists. split; [reflexivity |]. split; reflexivity.
Qed.

Lemma keeps_rides_completed_among (rs : list ref) : keeps_rides (completed_among rs).
Proof. induction rs; cbn [completed_among]; auto 6 with keeps. Qed.

Lemma keeps_rides_sum_fares (rs : list ref) (acc : R) : keeps_rides (sum_fares rs acc).
Proof. revert acc. induction rs; intros acc; cbn [sum_fares]; auto 6 with keeps. Qed.

Lemma keeps_rides_sum_durations (rs : list ref) (acc : timedelta) :
  keeps_rides (sum_durations rs acc).
Proof.
  revert acc. induction rs; intros acc; cbn [sum_durations]; [auto with keeps |].
  apply keeps_rides_bind; [auto with keeps |].
  intros x. destruct (_end_time x); auto with keeps.
Qed.

Lemma keeps_rides_generate_simple_analytics : keeps_rides generate_simple_analytics.
Proof.
  unfold generate_simple_analytics.
  apply keeps_rides_bind; [intros w; apply keeps_rides_completed_among |].
  intros completed. cbv zeta.
  apply keeps_rides_bind; [apply keeps_rides_sum_fares |]. intros total.
  apply keeps_rides_bind; [| auto with keeps].
  destruct (0 <? length completed)%nat; [| auto with keeps].
  apply keeps_rides_bind; [apply keeps_rides_sum_durations | auto with keeps].
Qed.

(** *** Runs *)

Lemma rides_inv_run_call (w0 w : World) (c : call) :
  rides_inv w0 w → rides_inv w0 (run_call c w).
Proof.
  intros Hinv. destruct c; cbn [run_call]; unfold state_after.
  all: try solve
    [ apply rides_inv_keeps;
      [ unfold Vehicle_init, Driver_init, Passenger_init, RideRequest_init,
          add_driver, add_passenger; auto with keeps
      | exact Hinv ] ].
  - now apply rides_inv_Ride_init.
  - now apply rides_inv_Ride_complete.
  - now apply rides_inv_assign_ride.
  - now apply rides_inv_assign_ride_stage3.
  - now apply rides_inv_Ride_complete.
  - apply rides_inv_keeps; [apply keeps_rides_generate_simple_analytics | exact Hinv].
Qed.

Lemma rides_inv_run (w0 : World) (cs : list call) (w : World) :
  rides_inv w0 w → rides_inv w0 (run cs w).
Proof.
  revert w. induction cs as [| c cs IH]; intros w Hinv; [exact Hinv |].
  cbn [run fold_left]. apply IH. now apply rides_inv_run_call.
Qed.

Lemma frozen_fare_at (w w' : World) (k : ref) :
  frozen w w' → is_Some (ride_store w !! k) → fare_at w' k = fare_at w k.
Proof.
  intros Hf [x Hk]. destruct (Hf k x Hk) as (x' & Hk' & Hfare & _).
  unfold fare_at. now rewrite Hk, Hk'.
Qed.

(** *** Starting a ride *)

Lemma start_ride_run (uuid : string) (now : datetime) (request : ref) (rq : RideRequest)
    (d : ref) (drv : Driver) (w : World) :
  request_store w !! request = Some rq →
  driver_store w !! d = Some drv →
  start_ride uuid now request (Some d) w
  = (Ok (length (ride_store w)), started_world uuid now request rq d drv w).
Proof.
  intros Hrq Hd. unfold start_ride.
  rewrite (bind_Ok _ _ _ _ _ (deref_Some request_store request w rq Hrq)).
  rewrite calculate_distance_ok, bind_run. cbn [lift_result].
  rewrite bind_run. cbn [Ride_init new]. rewrite bind_run. cbn [append on_object].
  erewrite (bind_Ok (Driver_set_availability _ _))
    by (apply Driver_set_availability_run; exact Hd).
  unfold RideRequest_set_status.
  erewrite (bind_Ok (_ ≫= _))
    by (erewrite (bind_Ok (deref request_store _)) by (apply deref_Some; exact Hrq);
        reflexivity).
  reflexivity.
Qed.

Lemma start_ride_returned (uuid : string) (now : datetime) (request : ref)
    (rq : RideRequest) (nearest_driver : option ref) (w w' : World) (k : ref) :
  request_store w !! request = Some rq →
  start_ride uuid now request nearest_driver w = (Ok k, w') →
  ∃ d drv, nearest_driver = Some d ∧ driver_store w !! d = Some drv
    ∧ k = length (ride_store w)
    ∧ w' = started_world uuid now request rq d drv w.
Proof.
  intros Hrq Hrun. destruct nearest_driver as [d |].
  - destruct (driver_store w !! d) as [drv |] eqn:Hd.
    + rewrite (start_ride_run _ _ _ _ _ _ _ Hrq Hd) in Hrun.
      injection Hrun as <- <-. eauto 6.
    + exfalso. unfold start_ride in Hrun.
      rewrite (bind_Ok _ _ _ _ _ (deref_Some request_store request w rq Hrq)) in Hrun.
      rewrite calculate_distance_ok, bind_run in Hrun. cbn [lift_result] in Hrun.
      rewrite bind_run in Hrun. cbn [Ride_init new] in Hrun.
      rewrite bind_run in Hrun. cbn [append on_object] in Hrun.
      erewrite (bind_Raise (Driver_set_availability _ _)) in Hrun; [discriminate |].
      unfold Driver_set_availability.
      erewrite bind_Raise; [reflexivity |]. apply deref_None. exact Hd.
  - exfalso. unfold start_ride in Hrun.
    rewrite (bind_Ok _ _ _ _ _ (deref_Some request_store request w rq Hrq)) in Hrun.
    rewrite calculate_distance_ok, bind_run in Hrun. cbn [lift_result] in Hrun.
    rewrite bind_run in Hrun. cbn [Ride_init new] in Hrun.
    rewrite bind_run in Hrun. cbn [append on_object] in Hrun.
    rewrite bind_run in Hrun. cbn [raise] in Hrun. discriminate.
Qed.

Lemma _find_nearest_driver_world (pickup : Location) (w : World) :
  snd (_find_nearest_driver pickup w) = w.
Proof.
  unfold _find_nearest_driver. rewrite bind_run. unfold available_drivers.
  pose proof (available_among_world w (_drivers (service w))) as Hw.
  destruct (available_among (_drivers (service w)) w) as [[av | e] w1];
    cbn in Hw; subst w1; [| reflexivity].
  destruct av as [| d av]; [reflexivity | apply nearest_loop_world].
Qed.

(** The ride [assign_ride] returns carries the fare estimated from the
    distance between pickup and dropoff, and that distance. *)
Lemma assign_ride_fare (uuid : string) (now : datetime) (request : ref)
    (rq : RideRequest) (w w' : World) (k : ref) :
  request_store w !! request = Some rq →
  assign_ride uuid now request w = (Ok k, w')
  ∨ Stage3.assign_ride uuid now request w = (Ok k, w') →
  ∃ x, ride_store w' !! k = Some x
    ∧ k = length (ride_store w)
    ∧ fare x = _estimate_fare (distance_km (pickup_loc rq) (dropoff_loc rq))
    ∧ estimated_distance x = distance_km (pickup_loc rq) (dropoff_loc rq)
    ∧ Ride_status x = "In Progress"%string.
Proof.
  intros Hrq Hrun.
  assert (Hstart : ∃ nearest, start_ride uuid now request nearest w = (Ok k, w')).
  { pose proof (optimized_as_nearest request rq w Hrq) as Heq.
    pose proof (_find_nearest_driver_world (pickup_loc rq) w) as Hw.
    rewrite Heq in Hw. cbn in Hw.
    destruct Hrun as [Hrun | Hrun].
    - unfold assign_ride in Hrun.
      rewrite (bind_Ok _ _ _ _ _ (deref_Some request_store request w rq Hrq)) in Hrun.
      rewrite bind_run, Heq in Hrun. rewrite Hw in Hrun.
      destruct (Stage3._optimized_driver_matching request w) as [[[d x] | e] w1];
        cbn in Hrun; [eauto | discriminate].
    - unfold Stage3.assign_ride in Hrun. rewrite bind_run in Hrun.
      destruct (Stage3._optimized_driver_matching request w) as [[[d x] | e] w1];
        cbn in Hw; subst; [eauto | discriminate]. }
  destruct Hstart as [nearest Hstart].
  destruct (start_ride_returned _ _ _ _ _ _ _ _ Hrq Hstart) as (d & drv & _ & _ & -> & ->).
  eexists. split; [apply list_lookup_middle; reflexivity |].
  repeat split.
Qed.

Lemma rides_ok_initial : rides_ok (mkWorld [] [] [] [] [] RideService_init).
Proof. constructor. Qed.

(** C10 -- the fare and the estimated distance stored in a ride never
    change: after every sequence of calls each ride still holds the
    values it was given when it was created, which for a ride made by
    [assign_ride] are the fare estimated from the pickup-to-dropoff
    distance and that distance.  [complete_ride] adds [final_fare] to the
    driver's earnings and leaves the ride's fare alone, and the total the
    analytics report after any sequence of calls is the sum of the stored
    fares of the completed rides. *)
Theorem stored_fare_frozen (cs : list call) (w : World) :
  rides_ok w →
  frozen w (run cs w)
  ∧ (∀ k, is_Some (ride_store w !! k) → fare_at (run cs w) k = fare_at w k)
  ∧ (∃ a, generate_simple_analytics (run cs w) = (Ok a, run cs w)
       ∧ total_trips a = length (completed_refs (run cs w))
       ∧ total_fare a = sum_stored_fares (run cs w))
  ∧ (∀ now ride rating actual_distance final_fare r rq d drv veh pas,
       ride_store w !! ride = Some r →
       request_store w !! Ride_request r = Some rq →
       Ride_driver r = Some d →
       driver_store w !! d = Some drv →
       vehicle_store w !! Driver_vehicle drv = Some veh →
       passenger_store w !! RideRequest_passenger rq = Some pas →
       ∃ w' r' drv',
         complete_ride now ride rating actual_distance final_fare w = (Ok tt, w')
         ∧ ride_store w' !! ride = Some r'
         ∧ fare r' = fare r
         ∧ estimated_distance r' = estimated_distance r
         ∧ driver_store w' !! d = Some drv'
         ∧ Driver_earnings drv' = Driver_earnings drv + final_fare)
  ∧ (∀ uuid now request rq k w',
       request_store w !! request = Some rq →
       assign_ride uuid now request w = (Ok k, w')
       ∨ Stage3.assign_ride uuid now request w = (Ok k, w') →
       ∃ x, ride_store w' !! k = Some x
         ∧ fare x = _estimate_fare (distance_km (pickup_loc rq) (dropoff_loc rq))
         ∧ estimated_distance x = distance_km (pickup_loc rq) (dropoff_loc rq)).
Proof.
  intros Hok.
  assert (Hinv : rides_inv w (run cs w)).
  { apply rides_inv_run. split; [apply frozen_refl | exact Hok]. }
  destruct Hinv as [Hf Hok'].
  split; [exact Hf |].
  split; [intros k Hk; now apply frozen_fare_at |].
  split; [now apply generate_simple_analytics_returns |].
  split.
  - intros now ride rating actual_distance final_fare r rq d drv veh pas
      Hr Hrq Hdr Hd Hv Hp.
    eexists _, _, _.
    split; [exact (Ride_complete_run now ride actual_distance final_fare rating
                     w r rq d drv veh pas Hr Hrq Hdr Hd Hv Hp) |].
    split; [apply completed_world_ride; exact Hr |].
    split; [reflexivity |]. split; [reflexivity |].
    split; [apply completed_world_driver; exact Hd |]. reflexivity.
  - intros uuid now request rq k w' Hrq Hrun.
    destruct (assign_ride_fare uuid now request rq w w' k Hrq Hrun)
      as (x & Hx & _ & Hfare & Hdist & _).
    eauto.
Qed.

(** *** The run of [main.py] *)

Lemma world_tie_nearest :
  _find_nearest_driver location_p1 world_tie
  = (Ok (Some 0%nat, Finite (distance_km location_d1 location_p1)), world_tie).
Proof.
  unfold _find_nearest_driver.
  rewrite (bind_Ok _ _ world_tie world_tie [0%nat; 1%nat]) by reflexivity.
  erewrite nearest_loop_step by reflexivity.
  erewrite nearest_loop_step by reflexivity.
  cbv zeta. cbn [xlt snd _current_location Driver_person driver_d1].
  rewrite bool_decide_eq_false_2 by lra. reflexivity.
Qed.

Lemma main_calls_run :
  run main_calls world_tie
  = completed_world 2%Z 0%nat 11.2 18.50 4.9
      (started_world "r1" 1%Z 0%nat (request_p1 "Pending") 0%nat (driver_d1 true) world_tie)
      (ride_d1 (_estimate_fare (distance_km location_p1 location_dropoff)))
      (request_p1 "Assigned") 0%nat (driver_d1 false) vehicle_d1 passenger_p1.
Proof.
  unfold main_calls, run. cbn [fold_left run_call]. unfold state_after.
  assert (Hassign : assign_ride "r1" 1%Z 0%nat world_tie
            = (Ok 0%nat, started_world "r1" 1%Z 0%nat (request_p1 "Pending") 0%nat
                           (driver_d1 true) world_tie)).
  { unfold assign_ride.
    erewrite (bind_Ok (deref request_store _)) by (apply deref_Some; reflexivity).
    erewrite (bind_Ok (_find_nearest_driver _)) by exact world_tie_nearest.
    cbv beta iota. now erewrite start_ride_run by reflexivity. }
  rewrite Hassign. cbn [snd]. unfold complete_ride.
  now erewrite Ride_complete_run by reflexivity.
Qed.

(** The run of [main.py]: the analytics report the estimated fare, the
    driver has earned the final fare 18.50. *)
Lemma stored_fare_frozen_witness :
  ∃ a drv,
    generate_simple_analytics (run main_calls world_tie) = (Ok a, run main_calls world_tie)
    ∧ total_trips a = 1%nat
    ∧ total_fare a = 0 + _estimate_fare (distance_km location_p1 location_dropoff)
    ∧ driver_store (run main_calls world_tie) !! 0%nat = Some drv
    ∧ Driver_earnings drv = 0.0 + 18.50.
Proof.
  destruct (stored_fare_frozen main_calls world_tie) as (_ & _ & (a & Ha & Hn & Htotal) & _).
  - constructor.
  - exists a. eexists. split; [exact Ha |].
    rewrite Hn, Htotal, main_calls_run.
    split; [reflexivity |]. split; [reflexivity |]. split; reflexivity.
Defined.

(* ================================================================= *)
(** ** Further properties of the distance *)

(** The distance does not change when both points are mirrored in the
    equator, nor when both are mirrored in the prime meridian: the
    haversine term only sees the squares of the sines of the two
    differences, and the cosines of the latitudes. *)
Theorem calculate_distance_invariant (lat1 lon1 lat2 lon2 : R) :
  calculate_distance (mkLocation (- lat1) lon1) (mkLocation (- lat2) lon2)
  = calculate_distance (mkLocation lat1 lon1) (mkLocation lat2 lon2)
  ∧ calculate_distance (mkLocation lat1 (- lon1)) (mkLocation lat2 (- lon2))
    = calculate_distance (mkLocation lat1 lon1) (mkLocation lat2 lon2).
Proof.
  assert (Hneg : ∀ x, radians (- x) = - radians x) by (intros x; unfold radians; ring).
  assert (Hsq : ∀ x y, sin ((- y - - x) / 2) ^ 2 = sin ((y - x) / 2) ^ 2).
  { intros x y. replace ((- y - - x) / 2) with (- ((y - x) / 2)) by lra.
    rewrite sin_neg. ring. }
  unfold calculate_distance, haversine_a. cbv zeta. cbn [latitude longitude].
  rewrite !Hneg, !Hsq, !cos_neg. split; reflexivity.
Qed.

(* ================================================================= *)
(** ** Further properties of the assignment *)

Section GenericAssignment.

Variable calculate_distance : Location → Location → result R.
Variable _estimate_fare : R → R.

Lemma generic_start_ride_run (uuid : string) (now : datetime) (request : ref)
    (rq : RideRequest) (d : ref) (drv : Driver) (x : R) (w : World) :
  request_store w !! request = Some rq →
  driver_store w !! d = Some drv →
  calculate_distance (pickup_loc rq) (dropoff_loc rq) = Ok x →
  Generic.start_ride calculate_distance _estimate_fare uuid now request (Some d) w
  = (Ok (length (ride_store w)),
     Generic.started_world uuid now request rq d drv (_estimate_fare x) x w).
Proof.
  intros Hrq Hd Hx. unfold Generic.start_ride.
  rewrite (bind_Ok _ _ _ _ _ (deref_Some request_store request w rq Hrq)).
  rewrite Hx, bind_run. cbn [lift_result].
  rewrite bind_run. cbn [Ride_init new]. rewrite bind_run. cbn [append on_object].
  erewrite (bind_Ok (Driver_set_availability _ _))
    by (apply Driver_set_availability_run; exact Hd).
  unfold RideRequest_set_status.
  erewrite (bind_Ok (_ ≫= _))
    by (erewrite (bind_Ok (deref request_store _)) by (apply deref_Some; exact Hrq);
        reflexivity).
  reflexivity.
Qed.

(** The ride distance is computed before anything is created. *)
Lemma generic_start_ride_raise (uuid : string) (now : datetime) (request : ref)
    (rq : RideRequest) (nearest_driver : option ref) (e : exn) (w : World) :
  request_store w !! request = Some rq →
  calculate_distance (pickup_loc rq) (dropoff_loc rq) = Raise e →
  Generic.start_ride calculate_distance _estimate_fare uuid now request nearest_driver w
  = (Raise e, w).
Proof.
  intros Hrq Hx. unfold Generic.start_ride.
  rewrite (bind_Ok _ _ _ _ _ (deref_Some request_store request w rq Hrq)).
  now rewrite Hx.
Qed.

(** Whatever the distance calls do, the loop of the search leaves the
    state as it is; it raises only what a distance call raised, and
    otherwise holds a stored driver. *)
Lemma generic_nearest_loop_outcome (pickup : Location) (w : World) (ds : list ref)
    (acc : option ref * xfloat) :
  Forall (λ r, is_Some (driver_store w !! r)) ds →
  holds_driver calculate_distance w pickup (λ x, x) acc ∨ (snd acc = PosInf ∧ ds ≠ []) →
  (∃ res, Generic.nearest_loop calculate_distance pickup ds acc w = (Ok res, w)
        ∧ holds_driver calculate_distance w pickup (λ x, x) res)
  ∨ (∃ e a b, Generic.nearest_loop calculate_distance pickup ds acc w = (Raise e, w)
            ∧ calculate_distance a b = Raise e).
Proof.
  intros H. revert acc. induction H as [| d ds [drv Hd] _ IH]; intros acc Hacc.
  - left. exists acc. split; [reflexivity |]. destruct Hacc as [Hk | [_ Hne]]; congruence.
  - cbn [Generic.nearest_loop].
    rewrite (bind_Ok _ _ _ _ _ (deref_Some driver_store d w drv Hd)).
    destruct (calculate_distance (_current_location (Driver_person drv)) pickup)
      as [x | e] eqn:Hx.
    + cbn [lift_result]. rewrite bind_run. cbn [mret].
      apply IH. left. destruct (xlt x (snd acc)) eqn:Hlt.
      * exists d, drv, x. auto.
      * destruct Hacc as [Hk | [Hinf _]]; [exact Hk |].
        rewrite Hinf in Hlt. discriminate.
    + right. exists e, (_current_location (Driver_person drv)), pickup.
      split; [reflexivity | exact Hx].
Qed.

Lemma generic_arrival_loop_outcome (request : ref) (rq : RideRequest) (w : World)
    (ds : list ref) (acc : option ref * xfloat) :
  request_store w !! request = Some rq →
  Forall (λ r, is_Some (driver_store w !! r)) ds →
  holds_driver calculate_distance w (pickup_loc rq)
    (λ x, x / Stage3.AVG_SPEED_KM_PER_MIN) acc
  ∨ (snd acc = PosInf ∧ ds ≠ []) →
  (∃ res, Generic.arrival_loop calculate_distance request ds acc w = (Ok res, w)
        ∧ holds_driver calculate_distance w (pickup_loc rq)
            (λ x, x / Stage3.AVG_SPEED_KM_PER_MIN) res)
  ∨ (∃ e a b, Generic.arrival_loop calculate_distance request ds acc w = (Raise e, w)
            ∧ calculate_distance a b = Raise e).
Proof.
  intros Hrq H. revert acc. induction H as [| d ds [drv Hd] _ IH]; intros acc Hacc.
  - left. exists acc. split; [reflexivity |]. destruct Hacc as [Hk | [_ Hne]]; congruence.
  - cbn [Generic.arrival_loop].
    rewrite (bind_Ok _ _ _ _ _ (deref_Some driver_store d w drv Hd)).
    rewrite (bind_Ok _ _ _ _ _ (deref_Some request_store request w rq Hrq)).
    destruct (calculate_distance (_current_location (Driver_person drv)) (pickup_loc rq))
      as [x | e] eqn:Hx.
    + cbn [lift_result]. rewrite bind_run. cbn [mret].
      apply IH. left.
      destruct (xlt (x / Stage3.AVG_SPEED_KM_PER_MIN) (snd acc)) eqn:Hlt.
      * exists d, drv, x. auto.
      * destruct Hacc as [Hk | [Hinf _]]; [exact Hk |].
        rewrite Hinf in Hlt. discriminate.
    + right. exists e, (_current_location (Driver_person drv)), (pickup_loc rq).
      split; [reflexivity | exact Hx].
Qed.

Lemma available_refs_all_stored (w : World) :
  Forall (λ r, is_Some (driver_store w !! r)) (available_refs w).
Proof.
  apply Forall_forall. intros d Hin. apply list_elem_of_In in Hin.
  destruct (available_refs_stored w d Hin) as (drv & Hs & _). eauto.
Qed.

Lemma generic_find_nearest_driver_outcome (pickup : Location) (w : World) :
  drivers_resolve w →
  (available_refs w = []
   ∧ Generic._find_nearest_driver calculate_distance pickup w
     = (Raise NoDriverFoundError, w))
  ∨ (available_refs w ≠ []
     ∧ ((∃ d drv x, driver_store w !! d = Some drv
           ∧ calculate_distance (_current_location (Driver_person drv)) pickup = Ok x
           ∧ Generic._find_nearest_driver calculate_distance pickup w
             = (Ok (Some d, Finite x), w))
        ∨ (∃ e a b, Generic._find_nearest_driver calculate_distance pickup w
                    = (Raise e, w)
                  ∧ calculate_distance a b = Raise e))).
Proof.
  intros Hres. unfold Generic._find_nearest_driver.
  rewrite (bind_Ok _ _ w w (available_refs w)) by now apply available_drivers_run.
  pose proof (available_refs_all_stored w) as Hall.
  destruct (available_refs w) as [| d0 av]; [left; split; reflexivity |].
  right. split; [discriminate |].
  destruct (generic_nearest_loop_outcome pickup w (d0 :: av) (None, PosInf) Hall)
    as [(res & Hrun & d & drv & x & Hd & Hx & ->) | (e & a & b & Hrun & Hab)].
  - right. split; [reflexivity | discriminate].
  - left. exists d, drv, x. auto.
  - right. exists e, a, b. auto.
Qed.

Lemma generic_optimized_driver_matching_outcome (request : ref) (rq : RideRequest)
    (w : World) :
  drivers_resolve w →
  request_store w !! request = Some rq →
  (available_refs w = []
   ∧ Generic._optimized_driver_matching calculate_distance request w
     = (Raise NoDriverFoundError, w))
  ∨ (available_refs w ≠ []
     ∧ ((∃ d drv x, driver_store w !! d = Some drv
           ∧ calculate_distance (_current_location (Driver_person drv)) (pickup_loc rq)
             = Ok x
           ∧ Generic._optimized_driver_matching calculate_distance request w
             = (Ok (d, x), w))
        ∨ (∃ e a b, Generic._optimized_driver_matching calculate_distance request w
                    = (Raise e, w)
                  ∧ calculate_distance a b = Raise e))).
Proof.
  intros Hres Hrq. unfold Generic._optimized_driver_matching.
  rewrite (bind_Ok _ _ w w (available_refs w)) by now apply available_drivers_run.
  pose proof (available_refs_all_stored w) as Hall.
  destruct (available_refs w) as [| d0 av]; [left; split; reflexivity |].
  right. split; [discriminate |].
  destruct (generic_arrival_loop_outcome request rq w (d0 :: av) (None, PosInf) Hrq Hall)
    as [(res & Hrun & d & drv & x & Hd & Hx & ->) | (e & a & b & Hrun & Hab)].
  - right. split; [reflexivity | discriminate].
  - left. exists d, drv, x. split; [exact Hd |]. split; [exact Hx |].
    rewrite (bind_Ok _ _ _ _ _ Hrun). cbn [on_object].
    rewrite (bind_Ok _ _ _ _ _ (deref_Some driver_store d w drv Hd)).
    rewrite (bind_Ok _ _ _ _ _ (deref_Some request_store request w rq Hrq)).
    now rewrite Hx.
  - right. exists e, a, b. split; [| exact Hab].
    now rewrite (bind_Raise _ _ _ _ _ Hrun).
Qed.

(** Every exception of [assign_ride] comes before the first assignment. *)
Lemma generic_assign_ride_raise (uuid : string) (now : datetime) (request : ref)
    (rq : RideRequest) (w w' : World) (e : exn) :
  drivers_resolve w →
  request_store w !! request = Some rq →
  Generic.assign_ride calculate_distance _estimate_fare uuid now request w = (Raise e, w')
  ∨ Generic.assign_ride_stage3 calculate_distance _estimate_fare uuid now request w
    = (Raise e, w') →
  w' = w
  ∧ ((e = NoDriverFoundError ∧ available_refs w = [])
     ∨ ∃ a b, calculate_distance a b = Raise e).
Proof.
  intros Hres Hrq. unfold Generic.assign_ride, Generic.assign_ride_stage3.
  rewrite (bind_Ok _ _ _ _ _ (deref_Some request_store request w rq Hrq)).
  assert (Hstart : ∀ d drv, driver_store w !! d = Some drv →
            Generic.start_ride calculate_distance _estimate_fare uuid now request
              (Some d) w = (Raise e, w') →
            w' = w ∧ ∃ a b, calculate_distance a b = Raise e).
  { intros d drv Hd Hrun.
    destruct (calculate_distance (pickup_loc rq) (dropoff_loc rq)) as [x | e'] eqn:Hx.
    - rewrite (generic_start_ride_run uuid now request rq d drv x w Hrq Hd Hx) in Hrun.
      discriminate.
    - rewrite (generic_start_ride_raise uuid now request rq (Some d) e' w Hrq Hx) in Hrun.
      injection Hrun as <- <-. eauto. }
  intros [Hrun | Hrun].
  - destruct (generic_find_nearest_driver_outcome (pickup_loc rq) w Hres)
      as [[Hnone Hs] | [_ [(d & drv & x & Hd & _ & Hs) | (e' & a & b & Hs & Hab)]]].
    + rewrite (bind_Raise _ _ _ _ _ Hs) in Hrun. injection Hrun as <- <-. auto.
    + rewrite (bind_Ok _ _ _ _ _ Hs) in Hrun. cbv beta iota in Hrun.
      destruct (Hstart d drv Hd Hrun) as [-> Hab]. auto.
    + rewrite (bind_Raise _ _ _ _ _ Hs) in Hrun. injection Hrun as <- <-. eauto.
  - destruct (generic_optimized_driver_matching_outcome request rq w Hres Hrq)
      as [[Hnone Hs] | [_ [(d & drv & x & Hd & _ & Hs) | (e' & a & b & Hs & Hab)]]].
    + rewrite (bind_Raise _ _ _ _ _ Hs) in Hrun. injection Hrun as <- <-. auto.
    + rewrite (bind_Ok _ _ _ _ _ Hs) in Hrun. cbv beta iota in Hrun.
      destruct (Hstart d drv Hd Hrun) as [-> Hab]. auto.
    + rewrite (bind_Raise _ _ _ _ _ Hs) in Hrun. injection Hrun as <- <-. eauto.
Qed.

Lemma generic_assign_ride_none (uuid : string) (now : datetime) (request : ref)
    (rq : RideRequest) (w : World) :
  drivers_resolve w →
  available_refs w = [] →
  request_store w !! request = Some rq →
  Generic.assign_ride calculate_distance _estimate_fare uuid now request w
  = (Raise NoDriverFoundError, w)
  ∧ Generic.assign_ride_stage3 calculate_distance _estimate_fare uuid now request w
    = (Raise NoDriverFoundError, w).
Proof.
  intros Hres Hnone Hrq. unfold Generic.assign_ride, Generic.assign_ride_stage3.
  rewrite (bind_Ok _ _ _ _ _ (deref_Some request_store request w rq Hrq)).
  destruct (generic_find_nearest_driver_outcome (pickup_loc rq) w Hres)
    as [[_ Hs] | [Hne _]]; [| congruence].
  destruct (generic_optimized_driver_matching_outcome request rq w Hres Hrq)
    as [[_ Hs3] | [Hne _]]; [| congruence].
  now rewrite (bind_Raise _ _ _ _ _ Hs), (bind_Raise _ _ _ _ _ Hs3).
Qed.

Lemma generic_assign_ride_run (uuid : string) (now : datetime) (request : ref)
    (rq : RideRequest) (dist : ref → R) (x : R) (w : World) :
  drivers_resolve w →
  available_refs w ≠ [] →
  request_store w !! request = Some rq →
  distances_to calculate_distance w (pickup_loc rq) dist →
  calculate_distance (pickup_loc rq) (dropoff_loc rq) = Ok x →
  ∃ d drv,
    In d (available_refs w)
    ∧ driver_store w !! d = Some drv
    ∧ Driver_is_available drv = true
    ∧ (∀ d', In d' (available_refs w) → dist d <= dist d')
    ∧ Generic.assign_ride calculate_distance _estimate_fare uuid now request w
      = (Ok (length (ride_store w)),
         Generic.started_world uuid now request rq d drv (_estimate_fare x) x w)
    ∧ Generic.assign_ride_stage3 calculate_distance _estimate_fare uuid now request w
      = (Ok (length (ride_store w)),
         Generic.started_world uuid now request rq d drv (_estimate_fare x) x w).
Proof.
  intros Hres Hne Hrq Hdist Hx.
  pose proof (generic_find_nearest_driver_run calculate_distance (pickup_loc rq) dist w
                Hres Hne Hdist) as Hrun.
  destruct (first_min_nonempty dist (available_refs w) Hne)
    as (i & d & Hi & Hmin & Hle & _).
  rewrite Hmin in Hrun.
  destruct (available_refs_resolve w i d Hi) as (drv & Hd & Hav).
  assert (Hin : In d (available_refs w))
    by (apply list_elem_of_In; eapply list_elem_of_lookup_2, Hi).
  exists d, drv. repeat split; trivial.
  - intros d' Hin'. apply list_elem_of_In, list_elem_of_lookup_1 in Hin' as [j Hj].
    now apply (Hle j).
  - unfold Generic.assign_ride.
    rewrite (bind_Ok _ _ _ _ _ (deref_Some request_store request w rq Hrq)).
    rewrite (bind_Ok _ _ _ _ _ Hrun). cbv beta iota.
    now apply generic_start_ride_run.
  - unfold Generic.assign_ride_stage3.
    rewrite (bind_Ok _ _ _ _ _
               (generic_optimized_driver_matching_run calculate_distance request rq dist
                  w d Hres Hrq Hdist Hin Hmin)).
    cbv beta iota. now apply generic_start_ride_run.
Qed.

End GenericAssignment.

Section Started.

Variables (uuid : string) (now : datetime) (request : ref) (rq : RideRequest).
Variables (d : ref) (drv : Driver) (fare0 ride_distance : R) (w : World).

Hypothesis Hrq : request_store w !! request = Some rq.
Hypothesis Hd : driver_store w !! d = Some drv.

Lemma started_world_ride :
  ride_store (Generic.started_world uuid now request rq d drv fare0 ride_distance w)
    !! length (ride_store w)
  = Some (mkRide uuid request (Some d) now None fare0 ride_distance "In Progress").
Proof. apply list_lookup_middle. reflexivity. Qed.

Lemma started_world_driver :
  driver_store (Generic.started_world uuid now request rq d drv fare0 ride_distance w) !! d
  = Some (mkDriver (Driver_person drv) (Driver_vehicle drv) false (Driver_rating drv)
            (Driver_total_rides drv) (Driver_earnings drv)).
Proof. apply list_lookup_insert_eq. now apply lookup_lt_Some in Hd. Qed.

Lemma started_world_other_driver (d' : ref) :
  d' ≠ d →
  driver_store (Generic.started_world uuid now request rq d drv fare0 ride_distance w) !! d'
  = driver_store w !! d'.
Proof. intros Hne. apply list_lookup_insert_ne. congruence. Qed.

Lemma started_world_request :
  request_store (Generic.started_world uuid now request rq d drv fare0 ride_distance w)
    !! request
  = Some (mkRideRequest (RideRequest_id rq) (RideRequest_passenger rq) (pickup_loc rq)
            (dropoff_loc rq) (timestamp rq) "Assigned").
Proof. apply list_lookup_insert_eq. now apply lookup_lt_Some in Hrq. Qed.

Lemma started_world_available (x : ref) :
  is_available_at (Generic.started_world uuid now request rq d drv fare0 ride_distance w) x
  = is_available_at w x && negb (x =? d)%nat.
Proof.
  unfold is_available_at. destruct (Nat.eqb_spec x d) as [-> | Hne].
  - rewrite started_world_driver. cbn. now rewrite andb_false_r.
  - rewrite started_world_other_driver by exact Hne. now rewrite andb_true_r.
Qed.

Lemma started_world_available_refs :
  available_refs (Generic.started_world uuid now request rq d drv fare0 ride_distance w)
  = List.filter (λ x, negb (x =? d)%nat) (available_refs w).
Proof.
  unfold available_refs. cbn [service Generic.started_world _drivers set_rides].
  induction (_drivers (service w)) as [| x l IH]; [reflexivity |].
  cbn [List.filter]. rewrite started_world_available, IH.
  destruct (is_available_at w x); cbn [andb List.filter]; [| reflexivity].
  reflexivity.
Qed.

Lemma started_world_drivers_resolve :
  drivers_resolve w →
  drivers_resolve (Generic.started_world uuid now request rq d drv fare0 ride_distance w).
Proof.
  unfold drivers_resolve. cbn [service Generic.started_world _drivers set_rides].
  intros Hall. eapply Forall_impl; [exact Hall |]. cbv beta. intros x [y Hx].
  destruct (decide (x = d)) as [-> | Hne].
  - rewrite started_world_driver. eauto.
  - rewrite started_world_other_driver by exact Hne. eauto.
Qed.

End Started.

(** With a stored request and at least one available driver, when the
    distance calls of the search and the one for the ride return, both
    versions of [assign_ride] return a new ride in progress that refers
    to the request and to an available driver whose returned distance to
    the pickup is smallest; the ride carries the distance returned for
    the way from pickup to dropoff and the fare estimated from it; that
    driver becomes unavailable, no other driver changes, the request
    becomes Assigned and the ride is appended to the service's rides.
    Whatever the arithmetic of the two functions. *)
Theorem assign_ride_returns
    (calculate_distance : Location → Location → result R) (_estimate_fare : R → R)
    (uuid : string) (now : datetime) (request : ref) (rq : RideRequest)
    (dist : ref → R) (ride_distance : R) (w : World) :
  drivers_resolve w →
  available_refs w ≠ [] →
  request_store w !! request = Some rq →
  distances_to calculate_distance w (pickup_loc rq) dist →
  calculate_distance (pickup_loc rq) (dropoff_loc rq) = Ok ride_distance →
  ∃ d drv w',
    In d (available_refs w)
    ∧ driver_store w !! d = Some drv
    ∧ (∀ d', In d' (available_refs w) → dist d <= dist d')
    ∧ Generic.assign_ride calculate_distance _estimate_fare uuid now request w
      = (Ok (length (ride_store w)), w')
    ∧ Generic.assign_ride_stage3 calculate_distance _estimate_fare uuid now request w
      = (Ok (length (ride_store w)), w')
    ∧ ride_store w' !! length (ride_store w)
      = Some (mkRide uuid request (Some d) now None (_estimate_fare ride_distance)
                ride_distance "In Progress")
    ∧ driver_store w' !! d
      = Some (mkDriver (Driver_person drv) (Driver_vehicle drv) false (Driver_rating drv)
                (Driver_total_rides drv) (Driver_earnings drv))
    ∧ (∀ d', d' ≠ d → driver_store w' !! d' = driver_store w !! d')
    ∧ request_store w' !! request
      = Some (mkRideRequest (RideRequest_id rq) (RideRequest_passenger rq)
                (pickup_loc rq) (dropoff_loc rq) (timestamp rq) "Assigned")
    ∧ _rides (service w') = _rides (service w) ++ [length (ride_store w)]
    ∧ vehicle_store w' = vehicle_store w
    ∧ passenger_store w' = passenger_store w.
Proof.
  intros Hres Hne Hrq Hdist Hx.
  destruct (generic_assign_ride_run calculate_distance _estimate_fare uuid now request rq
              dist ride_distance w Hres Hne Hrq Hdist Hx)
    as (d & drv & Hin & Hd & _ & Hle & Hrun & Hrun3).
  exists d, drv,
    (Generic.started_world uuid now request rq d drv (_estimate_fare ride_distance)
       ride_distance w).
  split; [exact Hin |]. split; [exact Hd |]. split; [exact Hle |].
  split; [exact Hrun |]. split; [exact Hrun3 |].
  split; [apply started_world_ride |].
  split; [now apply started_world_driver |].
  split; [intros d' Hd'; now apply started_world_other_driver |].
  split; [now apply started_world_request |].
  repeat split.
Qed.

(** The state of [main.py] and the exact functions. *)
Lemma assign_ride_returns_witness :
  ∃ d w',
    Generic.assign_ride calculate_distance _estimate_fare "r1" 1%Z 0%nat world_requested
    = (Ok 0%nat, w')
    ∧ ride_store w' !! 0%nat
      = Some (mkRide "r1" 0%nat (Some d) 1%Z None
                (_estimate_fare (distance_km location_p1 location_dropoff))
                (distance_km location_p1 location_dropoff) "In Progress").
Proof.
  destruct (assign_ride_returns calculate_distance _estimate_fare "r1" 1%Z 0%nat
              (request_p1 "Pending") (driver_to_pickup world_requested location_p1)
              (distance_km location_p1 location_dropoff) world_requested)
    as (d & drv & w' & _ & _ & _ & Hrun & _ & Hride & _).
  - repeat constructor; eexists; reflexivity.
  - discriminate.
  - reflexivity.
  - intros d drv Hin Hd. rewrite calculate_distance_ok.
    unfold driver_to_pickup. now rewrite Hd.
  - apply calculate_distance_ok.
  - exists d, w'. split; [exact Hrun | exact Hride].
Defined.

(** [assign_ride] is all or nothing.  When the drivers of the collection
    and the request are stored, whatever it raises it raises before its
    first assignment, so that the state is as it was: [NoDriverFoundError]
    when no driver is available, and exactly then, or else what a call of
    [calculate_distance] raised, from a driver to the pickup or from the
    pickup to the dropoff.  When a driver is available and these calls
    return, it returns. *)
Theorem assign_ride_all_or_nothing
    (calculate_distance : Location → Location → result R) (_estimate_fare : R → R)
    (uuid : string) (now : datetime) (request : ref) (rq : RideRequest) (w : World) :
  drivers_resolve w →
  request_store w !! request = Some rq →
  (∀ e w',
     Generic.assign_ride calculate_distance _estimate_fare uuid now request w
     = (Raise e, w')
     ∨ Generic.assign_ride_stage3 calculate_distance _estimate_fare uuid now request w
       = (Raise e, w') →
     w' = w
     ∧ ((e = NoDriverFoundError ∧ available_refs w = [])
        ∨ ∃ a b, calculate_distance a b = Raise e))
  ∧ (available_refs w = [] →
       Generic.assign_ride calculate_distance _estimate_fare uuid now request w
       = (Raise NoDriverFoundError, w)
       ∧ Generic.assign_ride_stage3 calculate_distance _estimate_fare uuid now request w
         = (Raise NoDriverFoundError, w))
  ∧ (∀ dist ride_distance,
       available_refs w ≠ [] →
       distances_to calculate_distance w (pickup_loc rq) dist →
       calculate_distance (pickup_loc rq) (dropoff_loc rq) = Ok ride_distance →
       ∃ w',
         Generic.assign_ride calculate_distance _estimate_fare uuid now request w
         = (Ok (length (ride_store w)), w')
         ∧ Generic.assign_ride_stage3 calculate_distance _estimate_fare uuid now request w
           = (Ok (length (ride_store w)), w')).
Proof.
  intros Hres Hrq. split; [| split].
  - intros e w'. now apply (generic_assign_ride_raise _ _ uuid now request rq).
  - intros Hav. now apply (generic_assign_ride_none _ _ uuid now request rq).
  - intros dist x Hav Hdist Hx.
    destruct (generic_assign_ride_run calculate_distance _estimate_fare uuid now request
                rq dist x w Hres Hav Hrq Hdist Hx)
      as (d & drv & _ & _ & _ & _ & H1 & H2).
    eauto.
Qed.

(** No available driver: [NoDriverFoundError].  A distance function that
    raises [ValueError]: whatever [assign_ride] raises, the state is as it
    was.  The exact functions on the state of [main.py]: a ride. *)
Lemma assign_ride_all_or_nothing_witness :
  Generic.assign_ride calculate_distance _estimate_fare "r1" 1%Z 0%nat world_busy
  = (Raise NoDriverFoundError, world_busy)
  ∧ (∀ e w',
       Generic.assign_ride (λ _ _, Raise ValueError) _estimate_fare "r1" 1%Z 0%nat
         world_requested = (Raise e, w') →
       w' = world_requested)
  ∧ ∃ w', Generic.assign_ride calculate_distance _estimate_fare "r1" 1%Z 0%nat
            world_requested = (Ok 0%nat, w').
Proof.
  split; [| split].
  - apply (proj1 (proj2 (assign_ride_all_or_nothing calculate_distance _estimate_fare
                           "r1" 1%Z 0%nat (request_p1 "Pending") world_busy
                           ltac:(repeat constructor; eexists; reflexivity) eq_refl))).
    reflexivity.
  - intros e w' Hrun.
    apply (proj1 (assign_ride_all_or_nothing (λ _ _, Raise ValueError) _estimate_fare
                    "r1" 1%Z 0%nat (request_p1 "Pending") world_requested
                    ltac:(repeat constructor; eexists; reflexivity) eq_refl) e w').
    now left.
  - destruct (proj2 (proj2 (assign_ride_all_or_nothing calculate_distance _estimate_fare
                              "r1" 1%Z 0%nat (request_p1 "Pending") world_requested
                              ltac:(repeat constructor; eexists; reflexivity) eq_refl))
                (driver_to_pickup world_requested location_p1)
                (distance_km location_p1 location_dropoff))
      as (w' & H1 & _).
    + discriminate.
    + intros d drv Hin Hd. rewrite calculate_distance_ok.
      unfold driver_to_pickup. now rewrite Hd.
    + apply calculate_distance_ok.
    + exists w'. exact H1.
Defined.

(** The driver given a ride is out of the pool of available drivers:
    the next search does not see it, and when it was the only available
    driver the next [assign_ride] raises [NoDriverFoundError] and changes
    nothing. *)
Theorem assigned_driver_leaves_pool
    (calculate_distance : Location → Location → result R) (_estimate_fare : R → R)
    (uuid : string) (now : datetime) (request : ref) (rq : RideRequest)
    (dist : ref → R) (ride_distance : R) (w : World) :
  drivers_resolve w →
  available_refs w ≠ [] →
  request_store w !! request = Some rq →
  distances_to calculate_distance w (pickup_loc rq) dist →
  calculate_distance (pickup_loc rq) (dropoff_loc rq) = Ok ride_distance →
  ∃ d w',
    Generic.assign_ride calculate_distance _estimate_fare uuid now request w
    = (Ok (length (ride_store w)), w')
    ∧ In d (available_refs w)
    ∧ available_refs w' = List.filter (λ x, negb (x =? d)%nat) (available_refs w)
    ∧ ¬ In d (available_refs w')
    ∧ ((∀ x, In x (available_refs w) → x = d) →
       ∀ uuid' now' request' rq',
         request_store w' !! request' = Some rq' →
         Generic.assign_ride calculate_distance _estimate_fare uuid' now' request' w'
         = (Raise NoDriverFoundError, w')
         ∧ Generic.assign_ride_stage3 calculate_distance _estimate_fare uuid' now'
             request' w'
           = (Raise NoDriverFoundError, w')).
Proof.
  intros Hres Hne Hrq Hdist Hx.
  destruct (generic_assign_ride_run calculate_distance _estimate_fare uuid now request rq
              dist ride_distance w Hres Hne Hrq Hdist Hx)
    as (d & drv & Hin & Hd & _ & _ & Hrun & _).
  exists d,
    (Generic.started_world uuid now request rq d drv (_estimate_fare ride_distance)
       ride_distance w).
  pose proof (started_world_available_refs uuid now request rq d drv
                (_estimate_fare ride_distance) ride_distance w Hd) as Hav.
  split; [exact Hrun |]. split; [exact Hin |]. split; [exact Hav |].
  split.
  - rewrite Hav. intros Hin'. apply filter_In in Hin' as [_ Hneq].
    now rewrite Nat.eqb_refl in Hneq.
  - intros Hsole uuid' now' request' rq' Hrq'.
    apply (generic_assign_ride_none _ _ uuid' now' request' rq'); [| | exact Hrq'].
    + now apply started_world_drivers_resolve.
    + rewrite Hav. destruct (List.filter _ (available_refs w)) as [| x l] eqn:Hf;
        [reflexivity | exfalso].
      assert (Hx' : In x (List.filter (λ x, negb (x =? d)%nat) (available_refs w)))
        by (rewrite Hf; now left).
      apply filter_In in Hx' as [Hx' Hneq].
      rewrite (Hsole x Hx'), Nat.eqb_refl in Hneq. discriminate.
Qed.

Lemma assigned_driver_leaves_pool_witness :
  ∃ d w',
    Generic.assign_ride calculate_distance _estimate_fare "r1" 1%Z 0%nat world_requested
    = (Ok 0%nat, w')
    ∧ ¬ In d (available_refs w').
Proof.
  destruct (assigned_driver_leaves_pool calculate_distance _estimate_fare "r1" 1%Z 0%nat
              (request_p1 "Pending") (driver_to_pickup world_requested location_p1)
              (distance_km location_p1 location_dropoff) world_requested)
    as (d & w' & Hrun & _ & _ & Hout & _).
  - repeat constructor; eexists; reflexivity.
  - discriminate.
  - reflexivity.
  - intros d drv Hin Hd. rewrite calculate_distance_ok.
    unfold driver_to_pickup. now rewrite Hd.
  - apply calculate_distance_ok.
  - exists d, w'. split; [exact Hrun | exact Hout].
Defined.

(** A request made by [request_ride] can be assigned at once when a
    driver is available and the distance calls return: the ride returned
    refers to that request and carries the distance returned for the way
    from pickup to dropoff and the fare estimated from it. *)
Theorem request_ride_then_assign_ride
    (calculate_distance : Location → Location → result R) (_estimate_fare : R → R)
    (uuid1 uuid2 : string) (now1 now2 : datetime)
    (passenger : ref) (pickup dropoff : Location) (dist : ref → R) (ride_distance : R)
    (w : World) :
  drivers_resolve w →
  available_refs w ≠ [] →
  ¬ (latitude pickup = latitude dropoff ∧ longitude pickup = longitude dropoff) →
  distances_to calculate_distance w pickup dist →
  calculate_distance pickup dropoff = Ok ride_distance →
  let request := length (request_store w) in
  ∃ d w1 w2,
    request_ride uuid1 now1 passenger pickup dropoff w = (Ok request, w1)
    ∧ Generic.assign_ride calculate_distance _estimate_fare uuid2 now2 request w1
      = (Ok (length (ride_store w)), w2)
    ∧ Generic.assign_ride_stage3 calculate_distance _estimate_fare uuid2 now2 request w1
      = (Ok (length (ride_store w)), w2)
    ∧ In d (available_refs w)
    ∧ (∀ d', In d' (available_refs w) → dist d <= dist d')
    ∧ ride_store w2 !! length (ride_store w)
      = Some (mkRide uuid2 request (Some d) now2 None (_estimate_fare ride_distance)
                ride_distance "In Progress")
    ∧ request_store w2 !! request
      = Some (mkRideRequest uuid1 passenger pickup dropoff now1 "Assigned")
    ∧ _requests (service w2) = _requests (service w) ++ [request]
    ∧ _rides (service w2) = _rides (service w) ++ [length (ride_store w)].
Proof.
  intros Hres Hne Hdiff Hdist Hx request.
  set (rq := mkRideRequest uuid1 passenger pickup dropoff now1 "Pending").
  set (w1 := set_service (set_requests (λ l, l ++ [request]))
               (set_request_store (λ l, l ++ [rq]) w)).
  assert (Hreq : request_ride uuid1 now1 passenger pickup dropoff w = (Ok request, w1)).
  { unfold request_ride. now rewrite decide_False by exact Hdiff. }
  assert (Hrq1 : request_store w1 !! request = Some rq)
    by (apply list_lookup_middle; reflexivity).
  destruct (generic_assign_ride_run calculate_distance _estimate_fare uuid2 now2 request
              rq dist ride_distance w1 Hres Hne Hrq1 Hdist Hx)
    as (d & drv & Hin & Hd & _ & Hle & Hrun & Hrun3).
  exists d, w1,
    (Generic.started_world uuid2 now2 request rq d drv (_estimate_fare ride_distance)
       ride_distance w1).
  split; [exact Hreq |]. split; [exact Hrun |]. split; [exact Hrun3 |].
  split; [exact Hin |]. split; [exact Hle |].
  split; [apply (started_world_ride uuid2 now2 request rq d drv _ _ w1) |].
  split; [now apply started_world_request |].
  split; reflexivity.
Qed.

Lemma request_ride_then_assign_ride_witness :
  ∃ d w1 w2,
    request_ride "q2" 5%Z 1%nat location_p2 location_dropoff world_requested
    = (Ok 1%nat, w1)
    ∧ Generic.assign_ride calculate_distance _estimate_fare "r2" 6%Z 1%nat w1
      = (Ok 0%nat, w2)
    ∧ ride_store w2 !! 0%nat
      = Some (mkRide "r2" 1%nat (Some d) 6%Z None
                (_estimate_fare (distance_km location_p2 location_dropoff))
                (distance_km location_p2 location_dropoff) "In Progress").
Proof.
  destruct (request_ride_then_assign_ride calculate_distance _estimate_fare "q2" "r2"
              5%Z 6%Z 1%nat location_p2 location_dropoff
              (driver_to_pickup world_requested location_p2)
              (distance_km location_p2 location_dropoff) world_requested)
    as (d & w1 & w2 & Hreq & Hrun & _ & _ & _ & Hride & _).
  - repeat constructor; eexists; reflexivity.
  - discriminate.
  - cbn. lra.
  - intros d drv Hin Hd. rewrite calculate_distance_ok.
    unfold driver_to_pickup. now rewrite Hd.
  - apply calculate_distance_ok.
  - exists d, w1, w2. auto.
Defined.

(** Assignment then completion, when the distance calls return: the
    driver is available again, stands at the dropoff of the request with
    one more ride, the final fare added to the earnings and the rating
    updated by the formula of [Driver.complete_ride]; the pool of
    available drivers is what it was before the assignment; the ride is
    Completed with the fare estimated at assignment; the request stays
    Assigned; the passenger has one more trip. *)
Theorem assign_ride_then_complete_ride
    (calculate_distance : Location → Location → result R) (_estimate_fare : R → R)
    (uuid : string) (now1 now2 : datetime)
    (request : ref) (rq : RideRequest) (pas : Passenger)
    (rating actual_distance final_fare : R) (dist : ref → R) (ride_distance : R)
    (w : World) :
  drivers_resolve w →
  available_refs w ≠ [] →
  request_store w !! request = Some rq →
  passenger_store w !! RideRequest_passenger rq = Some pas →
  (∀ d drv, driver_store w !! d = Some drv →
            is_Some (vehicle_store w !! Driver_vehicle drv)) →
  distances_to calculate_distance w (pickup_loc rq) dist →
  calculate_distance (pickup_loc rq) (dropoff_loc rq) = Ok ride_distance →
  let ride := length (ride_store w) in
  ∃ d drv w1 w2,
    Generic.assign_ride calculate_distance _estimate_fare uuid now1 request w
    = (Ok ride, w1)
    ∧ complete_ride now2 ride rating actual_distance final_fare w1 = (Ok tt, w2)
    ∧ driver_store w !! d = Some drv
    ∧ Driver_is_available drv = true
    ∧ driver_store w2 !! d
      = Some (mkDriver (Person_update_location (Driver_person drv) (dropoff_loc rq))
                (Driver_vehicle drv) true
                ((Driver_rating drv * INR (S (Driver_total_rides drv) - 1) + rating)
                 / INR (S (Driver_total_rides drv)))
                (S (Driver_total_rides drv)) (Driver_earnings drv + final_fare))
    ∧ available_refs w2 = available_refs w
    ∧ ride_store w2 !! ride
      = Some (mkRide uuid request (Some d) now1 (Some now2)
                (_estimate_fare ride_distance) ride_distance "Completed")
    ∧ request_store w2 !! request
      = Some (mkRideRequest (RideRequest_id rq) (RideRequest_passenger rq)
                (pickup_loc rq) (dropoff_loc rq) (timestamp rq) "Assigned")
    ∧ passenger_store w2 !! RideRequest_passenger rq
      = Some (mkPassenger (Passenger_person pas) (S (Passenger_total_rides pas))).
Proof.
  intros Hres Hne Hrq Hp Hveh Hdist Hx ride.
  destruct (generic_assign_ride_run calculate_distance _estimate_fare uuid now1 request
              rq dist ride_distance w Hres Hne Hrq Hdist Hx)
    as (d & drv & Hin & Hd & Hav & _ & Hrun & _).
  destruct (Hveh d drv Hd) as [veh Hv].
  set (w1 := Generic.started_world uuid now1 request rq d drv
               (_estimate_fare ride_distance) ride_distance w) in *.
  pose proof (started_world_ride uuid now1 request rq d drv
                (_estimate_fare ride_distance) ride_distance w) as Hr1.
  pose proof (started_world_driver uuid now1 request rq d drv
                (_estimate_fare ride_distance) ride_distance w Hd) as Hd1.
  pose proof (started_world_request uuid now1 request rq d drv
                (_estimate_fare ride_distance) ride_distance w Hrq) as Hrq1.
  fold w1 in Hr1, Hd1, Hrq1. fold ride in Hr1.
  match type of Hr1 with _ = Some ?x => set (r1 := x) in * end.
  match type of Hd1 with _ = Some ?x => set (drv1 := x) in * end.
  match type of Hrq1 with _ = Some ?x => set (rq1 := x) in * end.
  assert (Hv1 : vehicle_store w1 !! Driver_vehicle drv1 = Some veh) by exact Hv.
  assert (Hp1 : passenger_store w1 !! RideRequest_passenger rq1 = Some pas) by exact Hp.
  pose proof (Ride_complete_run now2 ride actual_distance final_fare rating
                w1 r1 rq1 d drv1 veh pas Hr1 Hrq1 eq_refl Hd1 Hv1 Hp1) as Hrun2.
  set (w2 := completed_world now2 ride actual_distance final_fare rating
               w1 r1 rq1 d drv1 veh pas) in *.
  assert (Hd2 : driver_store w2 !! d
            = Some (mkDriver (Person_update_location (Driver_person drv) (dropoff_loc rq))
                      (Driver_vehicle drv) true
                      ((Driver_rating drv * INR (S (Driver_total_rides drv) - 1) + rating)
                       / INR (S (Driver_total_rides drv)))
                      (S (Driver_total_rides drv)) (Driver_earnings drv + final_fare)))
    by (apply (completed_world_driver now2 ride actual_distance final_fare rating
                 w1 r1 rq1 d drv1 veh pas Hd1)).
  exists d, drv, w1, w2.
  split; [exact Hrun |]. split; [exact Hrun2 |]. split; [exact Hd |].
  split; [exact Hav |]. split; [exact Hd2 |].
  split.
  - unfold available_refs. apply filter_ext. intros x. unfold is_available_at.
    destruct (decide (x = d)) as [-> | Hneq].
    + now rewrite Hd2, Hd, Hav.
    + unfold w2, completed_world, w1, Generic.started_world. cbn [driver_store].
      now rewrite !list_lookup_insert_ne by congruence.
  - split; [apply (completed_world_ride now2 ride actual_distance final_fare rating
                     w1 r1 rq1 d drv1 veh pas Hr1) |].
    split; [exact Hrq1 |].
    apply (completed_world_passenger now2 ride actual_distance final_fare rating
             w1 r1 rq1 d drv1 veh pas Hp1).
Qed.

Lemma assign_ride_then_complete_ride_witness :
  ∃ w1 w2,
    Generic.assign_ride calculate_distance _estimate_fare "r1" 1%Z 0%nat world_requested
    = (Ok 0%nat, w1)
    ∧ complete_ride 2%Z 0%nat 4.9 11.2 18.50 w1 = (Ok tt, w2)
    ∧ available_refs w2 = available_refs world_requested.
Proof.
  destruct (assign_ride_then_complete_ride calculate_distance _estimate_fare "r1" 1%Z 2%Z
              0%nat (request_p1 "Pending") passenger_p1 4.9 11.2 18.50
              (driver_to_pickup world_requested location_p1)
              (distance_km location_p1 location_dropoff) world_requested)
    as (d & drv & w1 & w2 & H1 & H2 & _ & _ & _ & Hav & _).
  - repeat constructor; eexists; reflexivity.
  - discriminate.
  - reflexivity.
  - reflexivity.
  - intros [| [| d]] drv Hd; cbn in Hd; try discriminate;
      injection Hd as <-; eexists; reflexivity.
  - intros d drv Hin Hd. rewrite calculate_distance_ok.
    unfold driver_to_pickup. now rewrite Hd.
  - apply calculate_distance_ok.
  - exists w1, w2. auto.
Defined.

(* ================================================================= *)
(** ** Lookup of a driver *)

Lemma find_by_id_step (driver_id : string) (d : ref) (drv : Driver) (ds : list ref)
    (w : World) :
  driver_store w !! d = Some drv →
  find_by_id driver_id (d :: ds) w
  = if String.eqb (_id (Driver_person drv)) driver_id
    then (Ok (Some d), w) else find_by_id driver_id ds w.
Proof.
  intros Hd. cbn [find_by_id].
  rewrite (bind_Ok _ _ _ _ _ (deref_Some driver_store d w drv Hd)).
  now destruct (String.eqb _ _).
Qed.

Lemma id_at_eqb (w : World) (d : ref) (drv : Driver) (driver_id : string) :
  driver_store w !! d = Some drv →
  String.eqb (_id (Driver_person drv)) driver_id = true ↔ id_at w d = Some driver_id.
Proof.
  intros Hd. unfold id_at. rewrite Hd, String.eqb_eq. split; congruence.
Qed.

Lemma find_by_id_spec (driver_id : string) (w : World) (ds : list ref) :
  Forall (λ r, is_Some (driver_store w !! r)) ds →
  (∃ i d, ds !! i = Some d
     ∧ id_at w d = Some driver_id
     ∧ (∀ j d', (j < i)%nat → ds !! j = Some d' → id_at w d' ≠ Some driver_id)
     ∧ find_by_id driver_id ds w = (Ok (Some d), w))
  ∨ ((∀ j d', ds !! j = Some d' → id_at w d' ≠ Some driver_id)
     ∧ find_by_id driver_id ds w = (Ok None, w)).
Proof.
  induction 1 as [| d ds [drv Hd] _ IH].
  - right. split; [intros j d' Hj; discriminate | reflexivity].
  - rewrite (find_by_id_step _ _ _ _ _ Hd).
    pose proof (id_at_eqb w d drv driver_id Hd) as Heq.
    destruct (String.eqb (_id (Driver_person drv)) driver_id).
    + left. exists 0%nat, d. repeat split; [now apply Heq | intros j d' Hj; lia].
    + assert (Hne : id_at w d ≠ Some driver_id)
        by (intros Hid; apply Heq in Hid; discriminate).
      destruct IH as [(i & d0 & Hi & Hid & Hfirst & Hrun) | [Hnone Hrun]].
      * left. exists (S i), d0. repeat split; trivial.
        intros [| j] d' Hji Hj; cbn in Hj.
        -- now injection Hj as <-.
        -- apply (Hfirst j); [lia | exact Hj].
      * right. split; [| exact Hrun].
        intros [| j] d' Hj; cbn in Hj.
        -- now injection Hj as <-.
        -- now apply (Hnone j).
Qed.

(** [get_driver_by_id] returns the first driver of the collection whose
    id is the one asked for, and [None] exactly when no driver of the
    collection has that id; it does not change the state. *)
Theorem get_driver_by_id_first_match (driver_id : string) (w : World) :
  drivers_resolve w →
  (∃ i d, _drivers (service w) !! i = Some d
     ∧ id_at w d = Some driver_id
     ∧ (∀ j d', (j < i)%nat → _drivers (service w) !! j = Some d' →
          id_at w d' ≠ Some driver_id)
     ∧ get_driver_by_id driver_id w = (Ok (Some d), w))
  ∨ ((∀ j d', _drivers (service w) !! j = Some d' → id_at w d' ≠ Some driver_id)
     ∧ get_driver_by_id driver_id w = (Ok None, w)).
Proof. intros Hres. now apply find_by_id_spec. Qed.

Lemma get_driver_by_id_first_match_witness :
  get_driver_by_id "d2" world_requested = (Ok (Some 1%nat), world_requested)
  ∧ get_driver_by_id "d9" world_requested = (Ok None, world_requested).
Proof.
  assert (Hres : drivers_resolve world_requested)
    by (repeat constructor; eexists; reflexivity).
  split.
  - destruct (get_driver_by_id_first_match "d2" world_requested Hres)
      as [(i & d & Hi & Hid & _ & Hrun) | [Hnone _]].
    + destruct i as [| [| i]]; cbn in Hi; try discriminate; injection Hi as <-.
      * discriminate.
      * exact Hrun.
    + exfalso. now apply (Hnone 1%nat 1%nat).
  - destruct (get_driver_by_id_first_match "d9" world_requested Hres)
      as [(i & d & Hi & Hid & _ & _) | [_ Hrun]]; [| exact Hrun].
    destruct i as [| [| i]]; cbn in Hi; try discriminate; injection Hi as <-;
      discriminate.
Defined.

Lemma find_by_id_app (driver_id : string) (w : World) (ds l : list ref) :
  Forall (λ r, is_Some (driver_store w !! r)) ds →
  find_by_id driver_id (ds ++ l) w
  = match fst (find_by_id driver_id ds w) with
    | Ok None => find_by_id driver_id l w
    | _ => find_by_id driver_id ds w
    end.
Proof.
  induction 1 as [| d ds [drv Hd] _ IH]; [reflexivity |].
  cbn [app]. rewrite !(find_by_id_step _ _ _ _ _ Hd).
  destruct (String.eqb _ _); [reflexivity | exact IH].
Qed.

(** After [add_driver] of a stored driver whose id no driver of the
    collection has, [get_driver_by_id] of that id returns this driver,
    and every other id is answered as before. *)
Theorem add_driver_then_get_driver_by_id (d : ref) (drv : Driver) (w : World) :
  drivers_resolve w →
  driver_store w !! d = Some drv →
  (∀ j d', _drivers (service w) !! j = Some d' →
           id_at w d' ≠ Some (_id (Driver_person drv))) →
  ∃ w', add_driver d w = (Ok tt, w')
    ∧ _drivers (service w') = _drivers (service w) ++ [d]
    ∧ get_driver_by_id (_id (Driver_person drv)) w' = (Ok (Some d), w')
    ∧ (∀ other, other ≠ _id (Driver_person drv) →
         fst (get_driver_by_id other w') = fst (get_driver_by_id other w)).
Proof.
  intros Hres Hd Hfresh. eexists. split; [reflexivity |]. split; [reflexivity |].
  set (w' := set_service (set_drivers (λ l, l ++ [d])) w).
  assert (Hfind : ∀ driver_id,
            get_driver_by_id driver_id w'
            = (fst (find_by_id driver_id (_drivers (service w) ++ [d]) w), w')).
  { intros driver_id. unfold get_driver_by_id. cbn [w' service set_service set_drivers _drivers].
    generalize (_drivers (service w) ++ [d]). intros l.
    induction l as [| x l IH]; [reflexivity |].
    cbn [find_by_id]. rewrite !bind_run. unfold deref.
    change (driver_store w') with (driver_store w).
    destruct (driver_store w !! x) as [y |]; [| reflexivity].
    destruct (String.eqb _ _); [reflexivity | exact IH]. }
  split.
  - rewrite Hfind, (find_by_id_app _ _ _ _ Hres).
    destruct (find_by_id_spec (_id (Driver_person drv)) w _ Hres)
      as [(i & d0 & Hi & Hid & _ & _) | [_ Hrun]].
    + exfalso. now apply (Hfresh i d0).
    + rewrite Hrun. cbn [fst]. rewrite (find_by_id_step _ _ _ _ _ Hd).
      now rewrite String.eqb_refl.
  - intros other Hother. rewrite Hfind, (find_by_id_app _ _ _ _ Hres). cbn [fst].
    unfold get_driver_by_id.
    destruct (find_by_id other (_drivers (service w)) w) as [[[d0 |] | e] w0];
      cbn [fst]; try reflexivity.
    rewrite (find_by_id_step _ _ _ _ _ Hd).
    destruct (String.eqb_spec (_id (Driver_person drv)) other); [congruence | reflexivity].
Qed.

Lemma add_driver_then_get_driver_by_id_witness :
  ∃ w', add_driver 0%nat (set_service (λ _, RideService_init) world_requested) = (Ok tt, w')
    ∧ get_driver_by_id "d1" w' = (Ok (Some 0%nat), w').
Proof.
  destruct (add_driver_then_get_driver_by_id 0%nat (driver_d1 true)
              (set_service (λ _, RideService_init) world_requested))
    as (w' & Hadd & _ & Hget & _).
  - constructor.
  - reflexivity.
  - intros j d' Hj. discriminate.
  - exists w'. split; [exact Hadd | exact Hget].
Defined.

(* ================================================================= *)
(** ** Sorting the completed rides *)

Section Sort.

Variables (key : ref → R) (reverse : bool).

Lemma insert_by_key_map (r : ref) (l : list ref) :
  insert_by_key reverse (key r, r) (map (λ x, (key x, x)) l)
  = map (λ x, (key x, x)) (insert_ref key reverse r l).
Proof.
  induction l as [| q l IH]; [reflexivity |].
  cbn [map insert_by_key insert_ref fst].
  destruct (comes_before reverse (key q) (key r)); [| reflexivity].
  cbn [map]. now rewrite IH.
Qed.

Lemma sorted_map (l : list ref) :
  sorted reverse (map (λ x, (key x, x)) l) = sort_refs key reverse l.
Proof.
  unfold sorted, sort_refs.
  assert (H : fold_right (insert_by_key reverse) [] (map (λ x, (key x, x)) l)
              = map (λ x, (key x, x)) (fold_right (insert_ref key reverse) [] l)).
  { induction l as [| r l IH]; [reflexivity |].
    cbn [map fold_right]. now rewrite IH, insert_by_key_map. }
  rewrite H, map_map. cbn [snd]. apply map_id.
Qed.

Lemma insert_ref_perm (r : ref) (l : list ref) :
  Permutation (insert_ref key reverse r l) (r :: l).
Proof.
  induction l as [| q l IH]; [reflexivity |].
  cbn [insert_ref]. destruct (comes_before reverse (key q) (key r)); [| reflexivity].
  rewrite IH. apply perm_swap.
Qed.

Lemma comes_before_in_order (x y : R) :
  comes_before reverse x y = true → in_order reverse x y.
Proof.
  unfold comes_before, in_order. destruct reverse; intros H;
    apply bool_decide_eq_true in H; lra.
Qed.

Lemma not_comes_before_in_order (x y : R) :
  comes_before reverse x y = false → in_order reverse y x.
Proof.
  unfold comes_before, in_order. destruct reverse; intros H;
    apply bool_decide_eq_false in H; lra.
Qed.

Lemma comes_before_neq (x y : R) : comes_before reverse x y = true → x ≠ y.
Proof.
  unfold comes_before. destruct reverse; intros H;
    apply bool_decide_eq_true in H; lra.
Qed.

Lemma in_order_trans (x y z : R) :
  in_order reverse x y → in_order reverse y z → in_order reverse x z.
Proof. unfold in_order. destruct reverse; lra. Qed.

Lemma insert_ref_sorted (r : ref) (l : list ref) :
  StronglySorted (λ a b, in_order reverse (key a) (key b)) l →
  StronglySorted (λ a b, in_order reverse (key a) (key b)) (insert_ref key reverse r l).
Proof.
  induction 1 as [| q l Hs IH Hq]; [repeat constructor |].
  cbn [insert_ref]. destruct (comes_before reverse (key q) (key r)) eqn:Hc.
  - constructor; [exact IH |].
    eapply Permutation_Forall; [symmetry; apply insert_ref_perm |].
    constructor; [now apply comes_before_in_order | exact Hq].
  - apply not_comes_before_in_order in Hc.
    constructor; [now constructor |].
    constructor; [exact Hc |].
    eapply Forall_impl; [exact Hq |]. cbv beta. intros x Hx.
    now apply (in_order_trans _ (key q)).
Qed.

Lemma insert_ref_filter (v : R) (r : ref) (l : list ref) :
  List.filter (λ x, bool_decide (key x = v)) (insert_ref key reverse r l)
  = List.filter (λ x, bool_decide (key x = v)) (r :: l).
Proof.
  induction l as [| q l IH]; [reflexivity |].
  cbn [insert_ref]. destruct (comes_before reverse (key q) (key r)) eqn:Hc;
    [| reflexivity].
  apply comes_before_neq in Hc.
  cbn [List.filter] in *. rewrite IH.
  destruct (bool_decide (key q = v)) eqn:Hq, (bool_decide (key r = v)) eqn:Hr;
    try reflexivity.
  apply bool_decide_eq_true in Hq, Hr. congruence.
Qed.

Lemma sort_refs_stable_sort (l : list ref) :
  stable_sort_of key reverse l (sort_refs key reverse l).
Proof.
  induction l as [| r l (Hp & Hs & Hf)]; [repeat split; constructor |].
  cbn [sort_refs fold_right]. fold (sort_refs key reverse l). split; [| split].
  - rewrite insert_ref_perm. now constructor.
  - now apply insert_ref_sorted.
  - intros v. rewrite insert_ref_filter. cbn [List.filter]. now rewrite Hf.
Qed.

End Sort.

Lemma distance_key_run (w : World) (k : ref) (x : Ride) :
  ride_store w !! k = Some x → distance_key k w = (Ok (estimated_distance x), w).
Proof.
  intros Hk. unfold distance_key.
  now rewrite (bind_Ok _ _ _ _ _ (deref_Some ride_store k w x Hk)).
Qed.

Lemma rating_key_run (w : World) (k : ref) (x : Ride) (d : ref) (drv : Driver) :
  ride_store w !! k = Some x → Ride_driver x = Some d → driver_store w !! d = Some drv →
  rating_key k w = (Ok (Driver_rating drv), w).
Proof.
  intros Hk Hdr Hd. unfold rating_key.
  rewrite (bind_Ok _ _ _ _ _ (deref_Some ride_store k w x Hk)), Hdr. cbn [on_object].
  now rewrite (bind_Ok _ _ _ _ _ (deref_Some driver_store d w drv Hd)).
Qed.

Lemma keyed_distance_key (w : World) (rs : list ref) :
  Forall (λ k, is_Some (ride_store w !! k)) rs →
  keyed distance_key rs w = (Ok (map (λ r, (distance_at w r, r)) rs), w).
Proof.
  induction 1 as [| k rs [x Hk] _ IH]; [reflexivity |].
  cbn [keyed map].
  rewrite (bind_Ok _ _ _ _ _ (distance_key_run w k x Hk)).
  rewrite (bind_Ok _ _ _ _ _ IH).
  replace (distance_at w k) with (estimated_distance x)
    by (unfold distance_at; now rewrite Hk).
  reflexivity.
Qed.

Lemma keyed_rating_key (w : World) (rs : list ref) :
  Forall (λ k, ∃ x d, ride_store w !! k = Some x ∧ Ride_driver x = Some d
                    ∧ is_Some (driver_store w !! d)) rs →
  keyed rating_key rs w = (Ok (map (λ r, (rating_of_ride_at w r, r)) rs), w).
Proof.
  induction 1 as [| k rs (x & d & Hk & Hdr & [drv Hd]) _ IH]; [reflexivity |].
  cbn [keyed map].
  rewrite (bind_Ok _ _ _ _ _ (rating_key_run w k x d drv Hk Hdr Hd)).
  rewrite (bind_Ok _ _ _ _ _ IH).
  replace (rating_of_ride_at w k) with (Driver_rating drv)
    by (unfold rating_of_ride_at; now rewrite Hk, Hdr, Hd).
  reflexivity.
Qed.

Lemma completed_refs_resolve (w : World) :
  Forall (λ k, is_Some (ride_store w !! k)) (_rides (service w)) →
  Forall (λ k, is_Some (ride_store w !! k)) (completed_refs w).
Proof.
  rewrite !Forall_forall. intros H k Hin.
  apply list_elem_of_In, filter_In in Hin as [Hin _].
  now apply H, list_elem_of_In.
Qed.

Lemma sort_completed_rides_distance (reverse : bool) (w : World) :
  Forall (λ k, is_Some (ride_store w !! k)) (_rides (service w)) →
  sort_completed_rides "distance" reverse w
  = (Ok (sort_refs (distance_at w) reverse (completed_refs w)), w).
Proof.
  intros Hres. unfold sort_completed_rides.
  rewrite (bind_Ok _ _ w w (completed_refs w))
    by (unfold completed_rides; now apply completed_among_filter).
  cbn [String.eqb Ascii.eqb Bool.eqb andb].
  rewrite (bind_Ok _ _ _ _ _ (keyed_distance_key w _ (completed_refs_resolve w Hres))).
  unfold mret, M_ret. now rewrite sorted_map.
Qed.

Lemma sort_completed_rides_rating (reverse : bool) (w : World) :
  Forall (λ k, is_Some (ride_store w !! k)) (_rides (service w)) →
  Forall (λ k, ∃ x d, ride_store w !! k = Some x ∧ Ride_driver x = Some d
                    ∧ is_Some (driver_store w !! d)) (completed_refs w) →
  sort_completed_rides "rating" reverse w
  = (Ok (sort_refs (rating_of_ride_at w) reverse (completed_refs w)), w).
Proof.
  intros Hres Hdrv. unfold sort_completed_rides.
  rewrite (bind_Ok _ _ w w (completed_refs w))
    by (unfold completed_rides; now apply completed_among_filter).
  cbn [String.eqb Ascii.eqb Bool.eqb andb].
  rewrite (bind_Ok _ _ _ _ _ (keyed_rating_key w _ Hdrv)).
  unfold mret, M_ret. now rewrite sorted_map.
Qed.

(** [sort_completed_rides] returns the completed rides of the collection,
    each once per occurrence, ordered by estimated distance or by the
    current rating of their driver, from the largest when [reverse] is
    true and from the smallest otherwise; rides of equal key keep the
    order of the collection.  It does not change the state. *)
Theorem sort_completed_rides_sorted (reverse : bool) (w : World) :
  Forall (λ k, is_Some (ride_store w !! k)) (_rides (service w)) →
  (∃ l, sort_completed_rides "distance" reverse w = (Ok l, w)
      ∧ stable_sort_of (distance_at w) reverse (completed_refs w) l)
  ∧ (Forall (λ k, ∃ x d, ride_store w !! k = Some x ∧ Ride_driver x = Some d
                       ∧ is_Some (driver_store w !! d)) (completed_refs w) →
     ∃ l, sort_completed_rides "rating" reverse w = (Ok l, w)
       ∧ stable_sort_of (rating_of_ride_at w) reverse (completed_refs w) l).
Proof.
  intros Hres. split.
  - eexists. split; [now apply sort_completed_rides_distance |].
    apply sort_refs_stable_sort.
  - intros Hdrv. eexists. split; [now apply sort_completed_rides_rating |].
    apply sort_refs_stable_sort.
Qed.

(** Three completed rides with the distances 3, 1, 3 and drivers rated
    4.9, 4.5, 4.9: from the largest distance the rides 0, 2, 1, the two
    of distance 3 in the order of the collection; from the smallest
    rating the rides 1, 0, 2. *)
Lemma sort_completed_rides_sorted_witness :
  sort_completed_rides "distance" true world_three_rides
  = (Ok [0; 2; 1]%nat, world_three_rides)
  ∧ stable_sort_of (distance_at world_three_rides) true [0; 1; 2]%nat [0; 2; 1]%nat
  ∧ sort_completed_rides "rating" false world_three_rides
    = (Ok [1; 0; 2]%nat, world_three_rides)
  ∧ stable_sort_of (rating_of_ride_at world_three_rides) false [0; 1; 2]%nat
      [1; 0; 2]%nat.
Proof.
  assert (Hres : Forall (λ k, is_Some (ride_store world_three_rides !! k))
                   (_rides (service world_three_rides)))
    by (repeat constructor; eexists; reflexivity).
  assert (Hdrv : Forall (λ k, ∃ x d, ride_store world_three_rides !! k = Some x
                              ∧ Ride_driver x = Some d
                              ∧ is_Some (driver_store world_three_rides !! d))
                   (completed_refs world_three_rides))
    by (repeat constructor; do 2 eexists; repeat split; eexists; reflexivity).
  destruct (proj1 (sort_completed_rides_sorted true world_three_rides Hres))
    as (l & Hrun & Hst).
  destruct (proj2 (sort_completed_rides_sorted false world_three_rides Hres) Hdrv)
    as (l' & Hrun' & Hst').
  assert (Hl : l = [0; 2; 1]%nat).
  { rewrite (sort_completed_rides_distance true world_three_rides Hres) in Hrun.
    injection Hrun as <-.
    change (completed_refs world_three_rides) with [0; 1; 2]%nat.
    unfold sort_refs. cbn [fold_right insert_ref].
    change (distance_at world_three_rides 0%nat) with 3.
    change (distance_at world_three_rides 1%nat) with 1.
    change (distance_at world_three_rides 2%nat) with 3.
    unfold comes_before.
    rewrite (bool_decide_true (1 < 3)) by lra. cbn [insert_ref].
    unfold comes_before.
    now rewrite (bool_decide_false (3 < 3)) by lra. }
  assert (Hl' : l' = [1; 0; 2]%nat).
  { rewrite (sort_completed_rides_rating false world_three_rides Hres Hdrv) in Hrun'.
    injection Hrun' as <-.
    change (completed_refs world_three_rides) with [0; 1; 2]%nat.
    unfold sort_refs. cbn [fold_right insert_ref].
    change (rating_of_ride_at world_three_rides 0%nat) with 4.9.
    change (rating_of_ride_at world_three_rides 1%nat) with 4.5.
    change (rating_of_ride_at world_three_rides 2%nat) with 4.9.
    unfold comes_before.
    rewrite (bool_decide_false (4.9 < 4.5)) by lra. cbn [insert_ref].
    unfold comes_before.
    rewrite (bool_decide_true (4.5 < 4.9)) by lra. cbn [insert_ref].
    unfold comes_before.
    now rewrite (bool_decide_false (4.9 < 4.9)) by lra. }
  subst l l'. repeat split; try assumption; apply Hst || apply Hst'.
Defined.

(** An unknown sort key: the method of [service.py] returns the empty
    list, the one of stage 3 sorts by distance, as it does for every key
    but ['rating'], and always from the largest. *)
Theorem sort_completed_rides_unknown_key (sort_by : string) (reverse : bool) (w : World) :
  sort_by ≠ "rating"%string →
  (sort_by ≠ "distance"%string →
   Forall (λ k, is_Some (ride_store w !! k)) (_rides (service w)) →
   sort_completed_rides sort_by reverse w = (Ok [], w))
  ∧ Stage3Final.sort_completed_rides sort_by w = sort_completed_rides "distance" true w
  ∧ Stage3Final.sort_completed_rides "rating" w = sort_completed_rides "rating" true w.
Proof.
  intros Hr. apply String.eqb_neq in Hr. split; [| split].
  - intros Hd Hres. apply String.eqb_neq in Hd. unfold sort_completed_rides.
    rewrite (bind_Ok _ _ w w (completed_refs w))
      by (unfold completed_rides; now apply completed_among_filter).
    now rewrite Hr, Hd.
  - unfold Stage3Final.sort_completed_rides, sort_completed_rides.
    rewrite Hr. reflexivity.
  - reflexivity.
Qed.

(** A state with three completed rides: the key ['fare'] gives the empty
    list in [service.py] and the sort by distance in stage 3. *)
Lemma sort_completed_rides_unknown_key_witness :
  sort_completed_rides "fare" true world_three_rides = (Ok [], world_three_rides)
  ∧ completed_refs world_three_rides = [0; 1; 2]%nat
  ∧ Stage3Final.sort_completed_rides "fare" world_three_rides
    = sort_completed_rides "distance" true world_three_rides.
Proof.
  destruct (sort_completed_rides_unknown_key "fare" true world_three_rides
              ltac:(discriminate)) as (Hempty & Hstage3 & _).
  split; [| split; [reflexivity | exact Hstage3]].
  apply Hempty; [discriminate |].
  repeat constructor; eexists; reflexivity.
Defined.

(* ================================================================= *)
(** ** Reports *)

(** *** Methods that only read *)

Lemma read_only_ret {A : Type} (a : A) : read_only (mret a : M A).
Proof. intros w. reflexivity. Qed.

Lemma read_only_raise {A : Type} (e : exn) : read_only (raise e : M A).
Proof. intros w. reflexivity. Qed.

Lemma read_only_lift_result {A : Type} (r : result A) : read_only (lift_result r).
Proof. intros w. reflexivity. Qed.

Lemma read_only_deref {A : Type} (store : World → list A) (r : ref) :
  read_only (deref store r).
Proof. intros w. apply deref_world. Qed.

Lemma read_only_bind {A B : Type} (m : M A) (f : A → M B) :
  read_only m → (∀ a, read_only (f a)) → read_only (m ≫= f).
Proof.
  intros Hm Hf w. rewrite bind_run. specialize (Hm w).
  destruct (m w) as [[a | e] w1]; cbn in Hm; subst w1; [apply Hf | reflexivity].
Qed.

Lemma read_only_the_drivers : read_only the_drivers.
Proof. intros w. reflexivity. Qed.

Create HintDb reads.

#[local] Hint Resolve read_only_ret read_only_raise read_only_lift_result
  read_only_deref read_only_bind read_only_the_drivers : reads.

Lemma read_only_on_object {A : Type} (o : option ref) (method : ref → M A) :
  (∀ r, read_only (method r)) → read_only (on_object o method).
Proof. intros H. destruct o; cbn; auto with reads. Qed.

#[local] Hint Resolve read_only_on_object : reads.

Lemma read_only_completed_rides : read_only completed_rides.
Proof.
  intros w. unfold completed_rides.
  induction (_rides (service w)) as [| k rs IH]; [reflexivity |].
  cbn [completed_among]. rewrite bind_run. unfold deref.
  destruct (ride_store w !! k); [| reflexivity].
  rewrite bind_run. destruct (completed_among rs w) as [[l | e] w1]; exact IH.
Qed.

Lemma read_only_sum_fares (rs : list ref) (acc : R) : read_only (sum_fares rs acc).
Proof. revert acc. induction rs; intros acc; cbn [sum_fares]; auto with reads. Qed.

Lemma read_only_sum_durations (rs : list ref) (acc : timedelta) :
  read_only (sum_durations rs acc).
Proof.
  revert acc. induction rs; intros acc; cbn [sum_durations]; [auto with reads |].
  apply read_only_bind; [auto with reads |].
  intros x. destruct (_end_time x); auto with reads.
Qed.

Lemma read_only_average_trip_time (rs : list ref) : read_only (average_trip_time rs).
Proof.
  unfold average_trip_time. destruct (0 <? length rs)%nat; [| auto with reads].
  apply read_only_bind; [apply read_only_sum_durations | auto with reads].
Qed.

Lemma read_only_keyed (key : ref → M R) (rs : list ref) :
  (∀ r, read_only (key r)) → read_only (keyed key rs).
Proof. intros Hk. induction rs; cbn [keyed]; auto 6 with reads. Qed.

Lemma read_only_rating_key (r : ref) : read_only (rating_key r).
Proof. unfold rating_key. auto 6 with reads. Qed.

Lemma read_only_distance_key (r : ref) : read_only (distance_key r).
Proof. unfold distance_key. auto with reads. Qed.

#[local] Hint Resolve read_only_completed_rides read_only_sum_fares
  read_only_sum_durations read_only_average_trip_time read_only_keyed
  read_only_rating_key read_only_distance_key : reads.

Lemma read_only_find_by_id (driver_id : string) (ds : list ref) :
  read_only (find_by_id driver_id ds).
Proof.
  induction ds; cbn [find_by_id]; [auto with reads |].
  apply read_only_bind; [auto with reads |].
  intros drv. destruct (String.eqb _ _); auto with reads.
Qed.

Lemma read_only_final_sum_ratings (ds : list ref) (acc : R) :
  read_only (Stage3Final.sum_ratings ds acc).
Proof.
  revert acc. induction ds; intros acc; cbn [Stage3Final.sum_ratings]; auto with reads.
Qed.

Lemma read_only_added_sum_ratings (ds : list ref) (acc : R) :
  read_only (Stage3Added.sum_ratings ds acc).
Proof.
  revert acc. induction ds; intros acc; cbn [Stage3Added.sum_ratings];
    unfold Stage3Added.Driver_driver; auto 8 with reads.
Qed.

Lemma read_only_generate_simple_analytics : read_only generate_simple_analytics.
Proof.
  unfold generate_simple_analytics.
  apply read_only_bind; [auto with reads |]. intros completed. cbv zeta.
  apply read_only_bind; [auto with reads |]. intros total.
  apply read_only_bind; [apply (read_only_average_trip_time completed) |].
  auto with reads.
Qed.

Lemma read_only_sort_completed_rides (sort_by : string) (reverse : bool) :
  read_only (sort_completed_rides sort_by reverse).
Proof.
  unfold sort_completed_rides.
  apply read_only_bind; [auto with reads |]. intros completed.
  destruct (String.eqb sort_by "rating"); [auto 6 with reads |].
  destruct (String.eqb sort_by "distance"); auto 6 with reads.
Qed.

Lemma read_only_arrival_loop (request : ref) (ds : list ref)
    (acc : option ref * xfloat) :
  read_only (Stage3.arrival_loop request ds acc).
Proof.
  revert acc. induction ds; intros acc; cbn [Stage3.arrival_loop]; auto 8 with reads.
Qed.

Lemma read_only_available_drivers : read_only available_drivers.
Proof. intros w. apply available_among_world. Qed.

Lemma read_only_optimized_driver_matching (request : ref) :
  read_only (Stage3._optimized_driver_matching request).
Proof.
  unfold Stage3._optimized_driver_matching.
  apply read_only_bind; [apply read_only_available_drivers |].
  intros [| d av]; [auto with reads |].
  apply read_only_bind; [apply read_only_arrival_loop |].
  intros [best t]. auto 10 with reads.
Qed.

Lemma read_only_added_generate_advanced_analytics :
  read_only Stage3Added.generate_advanced_analytics.
Proof.
  unfold Stage3Added.generate_advanced_analytics.
  apply read_only_bind; [auto with reads |]. intros completed. cbv zeta.
  apply read_only_bind; [auto with reads |]. intros drivers.
  apply read_only_bind; [| auto with reads].
  destruct drivers; [auto with reads |].
  apply read_only_bind; [apply read_only_added_sum_ratings | auto with reads].
Qed.

Lemma read_only_final_generate_advanced_analytics :
  read_only Stage3Final.generate_advanced_analytics.
Proof.
  unfold Stage3Final.generate_advanced_analytics.
  apply read_only_bind; [auto with reads |]. intros completed. cbv zeta.
  apply read_only_bind; [auto with reads |]. intros drivers.
  apply read_only_bind; [| auto with reads].
  destruct drivers; [auto with reads |].
  apply read_only_bind; [apply read_only_final_sum_ratings | auto with reads].
Qed.

Lemma read_only_final_sort_completed_rides (sort_by : string) :
  read_only (Stage3Final.sort_completed_rides sort_by).
Proof.
  unfold Stage3Final.sort_completed_rides.
  apply read_only_bind; [auto with reads |]. intros completed.
  destruct (String.eqb sort_by "rating"); auto 6 with reads.
Qed.

(** The searches and the reports never change the state, whether they
    return or raise: the two analytics, the sorts, the lookup by id and
    the two matching methods. *)
Theorem reports_read_only :
  read_only generate_simple_analytics
  ∧ (∀ sort_by reverse, read_only (sort_completed_rides sort_by reverse))
  ∧ (∀ driver_id, read_only (get_driver_by_id driver_id))
  ∧ (∀ pickup, read_only (_find_nearest_driver pickup))
  ∧ (∀ request, read_only (Stage3._optimized_driver_matching request))
  ∧ read_only Stage3Added.generate_advanced_analytics
  ∧ read_only Stage3Final.generate_advanced_analytics
  ∧ (∀ sort_by, read_only (Stage3Final.sort_completed_rides sort_by)).
Proof.
  split; [apply read_only_generate_simple_analytics |].
  split; [apply read_only_sort_completed_rides |].
  split; [intros driver_id w; apply read_only_find_by_id |].
  split; [intros pickup w; apply _find_nearest_driver_world |].
  split; [apply read_only_optimized_driver_matching |].
  split; [apply read_only_added_generate_advanced_analytics |].
  split; [apply read_only_final_generate_advanced_analytics |].
  apply read_only_final_sort_completed_rides.
Qed.

(** *** Averages *)

Lemma divide_and_round_near (a b : Z) :
  (0 < b)%Z → (2 * Z.abs (b * divide_and_round a b - a) <= b)%Z.
Proof.
  intros Hb. unfold divide_and_round.
  pose proof (Z.div_mod a b ltac:(lia)) as Hdm.
  pose proof (Z.mod_pos_bound a b Hb) as Hm.
  replace (0 <? b)%Z with true by (symmetry; now apply Z.ltb_lt).
  set (q := (a / b)%Z) in *. set (m := (a mod b)%Z) in *.
  assert (Hup : (b * (q + 1) - a = b - m)%Z) by (rewrite Z.mul_add_distr_l; lia).
  assert (Hdown : (b * q - a = - m)%Z) by lia.
  destruct (b <? 2 * m)%Z eqn:Hgt; cbn [orb].
  - apply Z.ltb_lt in Hgt. rewrite Hup. lia.
  - apply Z.ltb_ge in Hgt.
    destruct ((2 * m =? b)%Z && Z.odd q) eqn:Htie.
    + apply andb_true_iff in Htie as [Heq _]. apply Z.eqb_eq in Heq.
      rewrite Hup. lia.
    + rewrite Hdown. lia.
Qed.

Lemma divide_and_round_1 (a : Z) : divide_and_round a 1 = a.
Proof.
  unfold divide_and_round. rewrite Z.div_1_r, Z.mod_1_r. reflexivity.
Qed.

Lemma sum_durations_fold (w : World) (rs : list ref) (acc : timedelta) :
  Forall (λ k, ∃ x, ride_store w !! k = Some x ∧ is_Some (_end_time x)) rs →
  sum_durations rs acc w
  = (Ok (fold_left (λ acc k, (acc + duration_at w k)%Z) rs acc), w).
Proof.
  intros H. revert acc.
  induction H as [| k rs (x & Hk & [e He]) _ IH]; intros acc; [reflexivity |].
  cbn [sum_durations fold_left].
  rewrite (bind_Ok _ _ _ _ _ (deref_Some ride_store k w x Hk)), He, IH.
  replace (duration_at w k) with (e - _start_time x)%Z
    by (unfold duration_at; now rewrite Hk, He).
  reflexivity.
Qed.

Lemma average_trip_time_run (w : World) :
  rides_ok w →
  average_trip_time (completed_refs w) w
  = (Ok (if (0 <? length (completed_refs w))%nat
         then divide_and_round (total_duration w) (Z.of_nat (length (completed_refs w)))
         else 0%Z), w).
Proof.
  intros Hok. unfold average_trip_time.
  destruct (0 <? length (completed_refs w))%nat; [| reflexivity].
  now rewrite (bind_Ok _ _ _ _ _ (sum_durations_fold w _ 0%Z (completed_refs_ended w Hok))).
Qed.

Lemma generate_simple_analytics_run (w : World) :
  rides_ok w →
  generate_simple_analytics w
  = (Ok {| total_trips := length (completed_refs w);
           total_fare := sum_stored_fares w;
           avg_trip_time :=
             if (0 <? length (completed_refs w))%nat
             then divide_and_round (total_duration w)
                    (Z.of_nat (length (completed_refs w)))
             else 0%Z |}, w).
Proof.
  intros Hok.
  assert (Hres : Forall (λ k, is_Some (ride_store w !! k)) (_rides (service w))).
  { eapply Forall_impl; [exact Hok |]. intros k (x & Hk & _). eauto. }
  unfold generate_simple_analytics.
  rewrite (bind_Ok _ _ w w (completed_refs w))
    by (unfold completed_rides; now apply completed_among_filter).
  cbv zeta.
  rewrite (bind_Ok _ _ _ _ _ (sum_fares_fold w _ 0 (completed_refs_resolve w Hres))).
  change (if (0 <? length (completed_refs w))%nat
          then sum_durations (completed_refs w) 0%Z
               ≫= (λ total_time,
                     mret (divide_and_round total_time
                             (Z.of_nat (length (completed_refs w)))))
          else mret 0%Z)
    with (average_trip_time (completed_refs w)).
  now rewrite (bind_Ok _ _ _ _ _ (average_trip_time_run w Hok)).
Qed.

(** The simple analytics on a state whose rides are stored and whose
    completed rides have an end time: the number of completed rides of
    the collection; with none of them a total of 0 and a zero average,
    nothing divided; with some, an average duration within half a
    microsecond of the exact mean, and with exactly one its duration and
    its stored fare. *)
Theorem generate_simple_analytics_average (w : World) :
  rides_ok w →
  ∃ a, generate_simple_analytics w = (Ok a, w)
    ∧ total_trips a = length (completed_refs w)
    ∧ (completed_refs w = [] → total_fare a = 0 ∧ avg_trip_time a = 0%Z)
    ∧ (completed_refs w ≠ [] →
       (2 * Z.abs (Z.of_nat (total_trips a) * avg_trip_time a - total_duration w)
        <= Z.of_nat (total_trips a))%Z)
    ∧ (∀ k, completed_refs w = [k] →
         avg_trip_time a = duration_at w k ∧ total_fare a = 0 + fare_at w k).
Proof.
  intros Hok. eexists. split; [now apply generate_simple_analytics_run |].
  cbn [total_trips total_fare avg_trip_time].
  split; [reflexivity |]. split; [| split].
  - intros Hnone. unfold sum_stored_fares. rewrite Hnone. auto.
  - intros Hsome.
    assert (Hlen : (0 < length (completed_refs w))%nat)
      by (destruct (completed_refs w); [congruence | cbn; lia]).
    replace (0 <? length (completed_refs w))%nat with true
      by (symmetry; now apply Nat.ltb_lt).
    apply divide_and_round_near. lia.
  - intros k Hone. unfold sum_stored_fares, total_duration. rewrite Hone. cbn.
    rewrite divide_and_round_1. split; [lia | reflexivity].
Qed.

(** Three completed rides of 10, 21 and 10 microseconds: the average is
    14, the nearest to 41 / 3. *)
Lemma generate_simple_analytics_average_witness :
  ∃ a, generate_simple_analytics world_three_rides = (Ok a, world_three_rides)
    ∧ total_trips a = 3%nat
    ∧ avg_trip_time a = 14%Z.
Proof.
  destruct (generate_simple_analytics_average world_three_rides)
    as (a & Hrun & Hn & _ & Hnear & _).
  - repeat (apply List.Forall_cons;
              [eexists; split;
               [reflexivity
               | cbn [Ride_status _end_time];
                 first [discriminate | intros _; eexists; reflexivity]] |]).
    apply List.Forall_nil.
  - exists a. split; [exact Hrun |]. split; [exact Hn |].
    specialize (Hnear ltac:(discriminate)). rewrite Hn in Hnear.
    change (length (completed_refs world_three_rides)) with 3%nat in Hnear.
    change (total_duration world_three_rides) with 41%Z in Hnear. lia.
Defined.

Lemma final_sum_ratings_fold (w : World) (ds : list ref) (acc : R) :
  Forall (λ r, is_Some (driver_store w !! r)) ds →
  Stage3Final.sum_ratings ds acc w
  = (Ok (fold_left (λ acc d, acc + rating_at w d) ds acc), w).
Proof.
  intros H. revert acc. induction H as [| d ds [drv Hd] _ IH]; intros acc.
  - reflexivity.
  - cbn [Stage3Final.sum_ratings fold_left].
    rewrite (bind_Ok _ _ _ _ _ (deref_Some driver_store d w drv Hd)), IH.
    replace (rating_at w d) with (Driver_rating drv)
      by (unfold rating_at; now rewrite Hd).
    reflexivity.
Qed.

(** The last [generate_advanced_analytics], on a state whose rides and
    drivers are stored and whose completed rides have an end time: it
    returns and changes nothing; it counts the completed rides of the
    collection; its satisfaction index is taken over all the drivers of
    the collection, with or without rides: their ratings added from the
    left, starting at 0, and divided by their number, and 0 for a service
    without drivers, nothing divided; its average duration is within half
    a microsecond of the exact mean. *)
Theorem generate_advanced_analytics_mean (w : World) :
  rides_ok w →
  drivers_resolve w →
  ∃ a, Stage3Final.generate_advanced_analytics w = (Ok a, w)
    ∧ advanced_total_trips a = length (completed_refs w)
    ∧ (_drivers (service w) = [] → avg_rating a = 0)
    ∧ (_drivers (service w) ≠ [] →
       avg_rating a
       = fold_left (λ acc d, acc + rating_at w d) (_drivers (service w)) 0
         / INR (length (_drivers (service w))))
    ∧ (completed_refs w = [] → advanced_avg_trip_time a = 0%Z)
    ∧ (completed_refs w ≠ [] →
       (2 * Z.abs (Z.of_nat (advanced_total_trips a) * advanced_avg_trip_time a
                   - total_duration w)
        <= Z.of_nat (advanced_total_trips a))%Z).
Proof.
  intros Hok Hres.
  assert (Hrides : Forall (λ k, is_Some (ride_store w !! k)) (_rides (service w))).
  { eapply Forall_impl; [exact Hok |]. intros k (x & Hk & _). eauto. }
  assert (Htime :
    (completed_refs w = [] →
     (if (0 <? length (completed_refs w))%nat
      then divide_and_round (total_duration w) (Z.of_nat (length (completed_refs w)))
      else 0%Z) = 0%Z)
    ∧ (completed_refs w ≠ [] →
       (2 * Z.abs (Z.of_nat (length (completed_refs w))
                   * (if (0 <? length (completed_refs w))%nat
                      then divide_and_round (total_duration w)
                             (Z.of_nat (length (completed_refs w)))
                      else 0%Z)
                   - total_duration w)
        <= Z.of_nat (length (completed_refs w)))%Z)).
  { split.
    - intros Hnone. now rewrite Hnone.
    - intros Hsome.
      assert (Hlen : (0 < length (completed_refs w))%nat)
        by (destruct (completed_refs w); [congruence | cbn; lia]).
      replace (0 <? length (completed_refs w))%nat with true
        by (symmetry; now apply Nat.ltb_lt).
      apply divide_and_round_near. lia. }
  unfold Stage3Final.generate_advanced_analytics.
  rewrite (bind_Ok _ _ w w (completed_refs w))
    by (unfold completed_rides; now apply completed_among_filter).
  cbv zeta. rewrite (bind_Ok _ _ w w (_drivers (service w))) by reflexivity.
  unfold drivers_resolve in Hres.
  destruct (_drivers (service w)) as [| d ds] eqn:Hds.
  - rewrite (bind_Ok _ _ w w 0) by reflexivity.
    rewrite (bind_Ok _ _ _ _ _ (average_trip_time_run w Hok)).
    eexists. split; [reflexivity |].
    cbn [advanced_total_trips avg_rating advanced_avg_trip_time].
    split; [reflexivity |]. split; [reflexivity |]. split; [congruence | exact Htime].
  - erewrite (bind_Ok (_ ≫= _))
      by (rewrite (bind_Ok _ _ _ _ _ (final_sum_ratings_fold w _ 0 Hres)); reflexivity).
    rewrite (bind_Ok _ _ _ _ _ (average_trip_time_run w Hok)).
    eexists. split; [reflexivity |].
    cbn [advanced_total_trips avg_rating advanced_avg_trip_time].
    split; [reflexivity |]. split; [discriminate |].
    split; [reflexivity | exact Htime].
Qed.

(** Two drivers rated 4.9 and 4.5, three completed rides of 10, 21 and 10
    microseconds. *)
Lemma generate_advanced_analytics_mean_witness :
  ∃ a, Stage3Final.generate_advanced_analytics world_three_rides
       = (Ok a, world_three_rides)
    ∧ advanced_total_trips a = 3%nat
    ∧ avg_rating a = (0 + 4.9 + 4.5) / INR 2
    ∧ advanced_avg_trip_time a = 14%Z.
Proof.
  destruct (generate_advanced_analytics_mean world_three_rides)
    as (a & Hrun & Hn & _ & Hmean & _ & Hnear).
  - repeat (apply List.Forall_cons;
              [eexists; split;
               [reflexivity
               | cbn [Ride_status _end_time];
                 first [discriminate | intros _; eexists; reflexivity]] |]).
    apply List.Forall_nil.
  - repeat constructor; eexists; reflexivity.
  - exists a. split; [exact Hrun |]. split; [exact Hn |].
    split; [apply Hmean; discriminate |].
    specialize (Hnear ltac:(discriminate)). rewrite Hn in Hnear.
    change (length (completed_refs world_three_rides)) with 3%nat in Hnear.
    change (total_duration world_three_rides) with 41%Z in Hnear. lia.
Defined.

(** The first [generate_advanced_analytics] of the file asks each driver
    for its [driver]: it returns only for a service without drivers, with
    an index of 0, and raises [AttributeError] as soon as the collection
    holds a driver, leaving the state as it was. *)
Theorem generate_advanced_analytics_added (w : World) :
  rides_ok w →
  (_drivers (service w) = [] →
   ∃ a, Stage3Added.generate_advanced_analytics w = (Ok a, w)
     ∧ advanced_total_trips a = length (completed_refs w)
     ∧ avg_rating a = 0)
  ∧ (∀ d ds drv,
       _drivers (service w) = d :: ds →
       driver_store w !! d = Some drv →
       Stage3Added.generate_advanced_analytics w = (Raise AttributeError, w)).
Proof.
  intros Hok.
  assert (Hrides : Forall (λ k, is_Some (ride_store w !! k)) (_rides (service w))).
  { eapply Forall_impl; [exact Hok |]. intros k (x & Hk & _). eauto. }
  split.
  - intros Hnone. unfold Stage3Added.generate_advanced_analytics.
    rewrite (bind_Ok _ _ w w (completed_refs w))
      by (unfold completed_rides; now apply completed_among_filter).
    cbv zeta. rewrite (bind_Ok _ _ w w []) by (unfold the_drivers; now rewrite Hnone).
    rewrite (bind_Ok _ _ w w 0) by reflexivity.
    rewrite (bind_Ok _ _ _ _ _ (average_trip_time_run w Hok)).
    eexists. split; [reflexivity |]. split; reflexivity.
  - intros d ds drv Hds Hd. unfold Stage3Added.generate_advanced_analytics.
    rewrite (bind_Ok _ _ w w (completed_refs w))
      by (unfold completed_rides; now apply completed_among_filter).
    cbv zeta. rewrite (bind_Ok _ _ w w (d :: ds)) by (unfold the_drivers; now rewrite Hds).
    erewrite (bind_Raise (_ ≫= _)); [reflexivity |].
    erewrite bind_Raise; [reflexivity |].
    cbn [Stage3Added.sum_ratings].
    erewrite bind_Raise; [reflexivity |].
    unfold Stage3Added.Driver_driver.
    now rewrite (bind_Ok _ _ _ _ _ (deref_Some driver_store d w drv Hd)).
Qed.

Lemma generate_advanced_analytics_added_witness :
  Stage3Added.generate_advanced_analytics world_requested
  = (Raise AttributeError, world_requested).
Proof.
  apply (proj2 (generate_advanced_analytics_added world_requested ltac:(constructor))
           0%nat [1%nat] (driver_d1 true)); reflexivity.
Defined.

(* ================================================================= *)
(** ** What a run keeps *)

Section StoreGrows.

Context {A : Type} (kept : A → A → Prop).
Hypothesis kept_refl : ∀ x, kept x x.
Hypothesis kept_trans : ∀ x y z, kept x y → kept y z → kept x z.

Lemma store_grows_refl (l : list A) : store_grows kept l l.
Proof. intros k x Hk. eauto. Qed.

Lemma store_grows_trans (l1 l2 l3 : list A) :
  store_grows kept l1 l2 → store_grows kept l2 l3 → store_grows kept l1 l3.
Proof.
  intros H12 H23 k x Hk.
  destruct (H12 k x Hk) as (y & Hy & Hxy).
  destruct (H23 k y Hy) as (z & Hz & Hyz). eauto.
Qed.

Lemma store_grows_insert (l : list A) (r : nat) (x y : A) :
  l !! r = Some x → kept x y → store_grows kept l (<[r:=y]> l).
Proof.
  intros Hr Hxy k z Hk. destruct (decide (r = k)) as [Heq | Hne].
  - subst k. rewrite list_lookup_insert_eq by (now apply lookup_lt_Some in Hr).
    assert (Hz : Some z = Some x) by (now rewrite <- Hk, <- Hr).
    injection Hz as ->. eauto.
  - rewrite list_lookup_insert_ne by exact Hne. eauto.
Qed.

Lemma store_grows_app (l : list A) (y : A) : store_grows kept l (l ++ [y]).
Proof. intros k x Hk. exists x. split; [now apply lookup_app_l_Some | apply kept_refl]. Qed.

End StoreGrows.

Lemma Vehicle_kept_refl (x : Vehicle) : Vehicle_kept x x.
Proof. repeat split. Qed.

Lemma Vehicle_kept_trans (x y z : Vehicle) :
  Vehicle_kept x y → Vehicle_kept y z → Vehicle_kept x z.
Proof. unfold Vehicle_kept. intuition congruence. Qed.

Lemma Driver_kept_refl (x : Driver) : Driver_kept x x.
Proof. unfold Driver_kept. repeat split; lia. Qed.

Lemma Driver_kept_trans (x y z : Driver) :
  Driver_kept x y → Driver_kept y z → Driver_kept x z.
Proof.
  unfold Driver_kept. intros (? & ? & ? & ? & ?) (? & ? & ? & ? & ?).
  repeat split; try congruence. lia.
Qed.

Lemma Passenger_kept_refl (x : Passenger) : Passenger_kept x x.
Proof. unfold Passenger_kept. repeat split; lia. Qed.

Lemma Passenger_kept_trans (x y z : Passenger) :
  Passenger_kept x y → Passenger_kept y z → Passenger_kept x z.
Proof.
  unfold Passenger_kept. intros (? & ? & ? & ?) (? & ? & ? & ?).
  repeat split; try congruence. lia.
Qed.

Lemma RideRequest_kept_refl (x : RideRequest) : RideRequest_kept x x.
Proof. repeat split. Qed.

Lemma RideRequest_kept_trans (x y z : RideRequest) :
  RideRequest_kept x y → RideRequest_kept y z → RideRequest_kept x z.
Proof. unfold RideRequest_kept. intuition congruence. Qed.

Lemma Ride_kept_refl (x : Ride) : Ride_kept x x.
Proof. repeat split; auto. Qed.

Lemma Ride_kept_trans (x y z : Ride) :
  Ride_kept x y → Ride_kept y z → Ride_kept x z.
Proof.
  unfold Ride_kept.
  intros (? & ? & ? & ? & Hc1 & Hs1) (? & ? & ? & ? & Hc2 & Hs2).
  repeat split; try congruence; [auto |].
  destruct Hs2 as [Hs2 | Hs2]; [| now right].
  destruct Hs1 as [Hs1 | Hs1]; [left | right]; congruence.
Qed.

Create HintDb kept.

#[local] Hint Resolve Vehicle_kept_refl Driver_kept_refl Passenger_kept_refl
  RideRequest_kept_refl Ride_kept_refl : kept.

Lemma evolves_refl (w : World) : evolves w w.
Proof. repeat split; try apply store_grows_refl; auto with kept. Qed.

Lemma evolves_trans (w1 w2 w3 : World) : evolves w1 w2 → evolves w2 w3 → evolves w1 w3.
Proof.
  intros (V1 & D1 & P1 & Q1 & R1 & d1 & p1 & q1 & r1)
         (V2 & D2 & P2 & Q2 & R2 & d2 & p2 & q2 & r2).
  repeat split.
  - eapply store_grows_trans; eauto using Vehicle_kept_trans.
  - eapply store_grows_trans; eauto using Driver_kept_trans.
  - eapply store_grows_trans; eauto using Passenger_kept_trans.
  - eapply store_grows_trans; eauto using RideRequest_kept_trans.
  - eapply store_grows_trans; eauto using Ride_kept_trans.
  - now transitivity (_drivers (service w2)).
  - now transitivity (_passengers (service w2)).
  - now transitivity (_requests (service w2)).
  - now transitivity (_rides (service w2)).
Qed.

(** One component changes, the others are as they were. *)
Ltac evolves_frame :=
  unfold evolves, set_vehicle_store, set_driver_store, set_passenger_store,
    set_request_store, set_ride_store, set_service, set_drivers, set_passengers,
    set_requests, set_rides;
  cbn [vehicle_store driver_store passenger_store request_store ride_store service
       _drivers _passengers _requests _rides];
  repeat split;
  first [ apply store_grows_refl; auto with kept
        | apply store_grows_app; auto with kept
        | reflexivity
        | apply prefix_app_r; reflexivity
        | idtac ].

Lemma evolving_of_read_only {A : Type} (m : M A) : read_only m → evolving m.
Proof. intros Hm w. rewrite Hm. apply evolves_refl. Qed.

Lemma evolving_ret {A : Type} (a : A) : evolving (mret a : M A).
Proof. intros w. apply evolves_refl. Qed.

Lemma evolving_raise {A : Type} (e : exn) : evolving (raise e : M A).
Proof. intros w. apply evolves_refl. Qed.

Lemma evolving_lift_result {A : Type} (r : result A) : evolving (lift_result r).
Proof. intros w. apply evolves_refl. Qed.

Lemma evolving_deref {A : Type} (store : World → list A) (r : ref) :
  evolving (deref store r).
Proof. intros w. rewrite deref_world. apply evolves_refl. Qed.

Lemma evolving_bind {A B : Type} (m : M A) (f : A → M B) :
  evolving m → (∀ a, evolving (f a)) → evolving (m ≫= f).
Proof.
  intros Hm Hf w. rewrite bind_run. specialize (Hm w).
  destruct (m w) as [[a | e] w1]; cbn in Hm; [| exact Hm].
  eapply evolves_trans; [exact Hm | apply Hf].
Qed.

(** After [deref] the rest of the method knows what the store holds. *)
Lemma evolving_deref_bind {A B : Type} (store : World → list A) (r : ref)
    (k : A → M B) :
  (∀ x w, store w !! r = Some x → evolves w (snd (k x w))) →
  evolving (deref store r ≫= k).
Proof.
  intros Hk w. rewrite bind_run. unfold deref.
  destruct (store w !! r) as [x |] eqn:Hx; [now apply Hk | apply evolves_refl].
Qed.

Lemma evolving_new_vehicle (y : Vehicle) :
  evolving (new vehicle_store set_vehicle_store y).
Proof. intros w. cbn [new snd]. evolves_frame. Qed.

Lemma evolving_new_driver (y : Driver) : evolving (new driver_store set_driver_store y).
Proof. intros w. cbn [new snd]. evolves_frame. Qed.

Lemma evolving_new_passenger (y : Passenger) :
  evolving (new passenger_store set_passenger_store y).
Proof. intros w. cbn [new snd]. evolves_frame. Qed.

Lemma evolving_new_request (y : RideRequest) :
  evolving (new request_store set_request_store y).
Proof. intros w. cbn [new snd]. evolves_frame. Qed.

Lemma evolving_new_ride (y : Ride) : evolving (new ride_store set_ride_store y).
Proof. intros w. cbn [new snd]. evolves_frame. Qed.

Lemma evolving_append_drivers (r : ref) : evolving (append set_drivers r).
Proof. intros w. cbn [append snd]. evolves_frame. Qed.

Lemma evolving_append_passengers (r : ref) : evolving (append set_passengers r).
Proof. intros w. cbn [append snd]. evolves_frame. Qed.

Lemma evolving_append_requests (r : ref) : evolving (append set_requests r).
Proof. intros w. cbn [append snd]. evolves_frame. Qed.

Lemma evolving_append_rides (r : ref) : evolving (append set_rides r).
Proof. intros w. cbn [append snd]. evolves_frame. Qed.

Create HintDb evolve.

#[local] Hint Resolve evolving_ret evolving_raise evolving_lift_result evolving_deref
  evolving_bind evolving_new_vehicle evolving_new_driver evolving_new_passenger
  evolving_new_request evolving_new_ride evolving_append_drivers
  evolving_append_passengers evolving_append_requests evolving_append_rides : evolve.

Lemma evolving_on_object {A : Type} (o : option ref) (method : ref → M A) :
  (∀ r, evolving (method r)) → evolving (on_object o method).
Proof. intros H. destruct o; cbn; auto with evolve. Qed.

Lemma evolving_Driver_update_location (d : ref) (loc : Location) :
  evolving (Driver_update_location d loc).
Proof.
  apply evolving_deref_bind. intros x w Hx. cbn [assign snd]. evolves_frame.
  eapply store_grows_insert; [auto with kept | exact Hx | repeat split; auto].
Qed.

Lemma evolving_Driver_set_availability (d : ref) (status : bool) :
  evolving (Driver_set_availability d status).
Proof.
  apply evolving_deref_bind. intros x w Hx. cbn [assign snd]. evolves_frame.
  eapply store_grows_insert; [auto with kept | exact Hx | repeat split; auto].
Qed.

Lemma evolving_Driver_complete_ride (d : ref) (fare0 new_rating : R) :
  evolving (Driver_complete_ride d fare0 new_rating).
Proof.
  apply evolving_deref_bind. intros x w Hx. cbv zeta. rewrite bind_run. cbn [assign].
  eapply evolves_trans; [| apply evolving_Driver_set_availability].
  evolves_frame.
  eapply store_grows_insert; [auto with kept | exact Hx |].
  repeat split; cbn; auto.
Qed.

Lemma evolving_Passenger_complete_ride (p : ref) :
  evolving (Passenger_complete_ride p).
Proof.
  apply evolving_deref_bind. intros x w Hx. cbn [assign snd]. evolves_frame.
  eapply store_grows_insert; [auto with kept | exact Hx | repeat split; cbn; auto].
Qed.

Lemma evolving_Passenger_update_location (p : ref) (loc : Location) :
  evolving (Passenger_update_location p loc).
Proof.
  apply evolving_deref_bind. intros x w Hx. cbn [assign snd]. evolves_frame.
  eapply store_grows_insert; [auto with kept | exact Hx | repeat split; auto].
Qed.

Lemma evolving_Vehicle_add_mileage (v : ref) (distance : R) :
  evolving (Vehicle_add_mileage v distance).
Proof.
  apply evolving_deref_bind. intros x w Hx. cbn [assign snd]. evolves_frame.
  eapply store_grows_insert; [auto with kept | exact Hx | repeat split].
Qed.

Lemma evolving_RideRequest_set_status (r : ref) (status : string) :
  evolving (RideRequest_set_status r status).
Proof.
  apply evolving_deref_bind. intros x w Hx. cbn [assign snd]. evolves_frame.
  eapply store_grows_insert; [auto with kept | exact Hx | repeat split].
Qed.

#[local] Hint Resolve evolving_on_object evolving_Driver_update_location
  evolving_Driver_set_availability evolving_Driver_complete_ride
  evolving_Passenger_complete_ride evolving_Vehicle_add_mileage
  evolving_RideRequest_set_status : evolve.

Lemma evolving_Ride_complete (now : datetime) (self : ref)
    (actual_distance final_fare rating : R) :
  evolving (Ride_complete now self actual_distance final_fare rating).
Proof.
  apply evolving_deref_bind. intros x w Hx. rewrite bind_run. cbn [assign].
  eapply evolves_trans.
  2:{ apply (evolving_bind (deref request_store (Ride_request x))); [auto with evolve |].
      intros rq. auto 12 with evolve. }
  evolves_frame.
  eapply store_grows_insert; [auto with kept | exact Hx |].
  repeat split; cbn; auto.
Qed.

Lemma evolving_start_ride (uuid : string) (now : datetime) (request : ref)
    (nearest_driver : option ref) :
  evolving (start_ride uuid now request nearest_driver).
Proof. unfold start_ride, Ride_init. auto 12 with evolve. Qed.

Lemma evolving_request_ride (uuid : string) (now : datetime) (passenger : ref)
    (pickup dropoff : Location) :
  evolving (request_ride uuid now passenger pickup dropoff).
Proof. unfold request_ride, RideRequest_init. case_decide; auto 8 with evolve. Qed.

Lemma evolving_assign_ride (uuid : string) (now : datetime) (request : ref) :
  evolving (assign_ride uuid now request).
Proof.
  unfold assign_ride. apply evolving_bind; [auto with evolve |]. intros rq.
  apply evolving_bind.
  - apply evolving_of_read_only. intros w. apply _find_nearest_driver_world.
  - intros [nearest distance]. apply evolving_start_ride.
Qed.

Lemma evolving_assign_ride_stage3 (uuid : string) (now : datetime) (request : ref) :
  evolving (Stage3.assign_ride uuid now request).
Proof.
  unfold Stage3.assign_ride. apply evolving_bind.
  - apply evolving_of_read_only. apply read_only_optimized_driver_matching.
  - intros [nearest distance]. apply evolving_start_ride.
Qed.

Lemma evolves_run_call (c : call) (w : World) : evolves w (run_call c w).
Proof.
  revert w. destruct c; cbn [run_call]; intros w;
    match goal with
    | |- evolves _ (state_after ?m _) => revert w; change (evolving m)
    end.
  all: try solve
    [ apply evolving_Ride_complete
    | apply evolving_assign_ride
    | apply evolving_assign_ride_stage3
    | apply evolving_request_ride
    | apply evolving_of_read_only, read_only_generate_simple_analytics
    | unfold Vehicle_init, Driver_init, Passenger_init, RideRequest_init, Ride_init,
        add_driver, add_passenger, complete_ride;
      auto with evolve ].
Qed.

Lemma evolves_run (cs : list call) (w : World) : evolves w (run cs w).
Proof.
  revert w. induction cs as [| c cs IH]; intros w; [apply evolves_refl |].
  cbn [run fold_left]. eapply evolves_trans; [apply evolves_run_call | apply IH].
Qed.

Lemma read_only_get_driver_by_id (driver_id : string) :
  read_only (get_driver_by_id driver_id).
Proof. intros w. apply read_only_find_by_id. Qed.

Lemma read_only__find_nearest_driver (pickup : Location) :
  read_only (_find_nearest_driver pickup).
Proof. intros w. apply _find_nearest_driver_world. Qed.

Lemma evolves_run_any_call (c : any_call) (w : World) : evolves w (run_any_call c w).
Proof.
  destruct c as [c | | | | | | | |]; cbn [run_any_call];
    [apply evolves_run_call | apply evolving_Passenger_update_location | ..];
    apply evolving_of_read_only.
  - apply read_only_get_driver_by_id.
  - apply read_only__find_nearest_driver.
  - apply read_only_optimized_driver_matching.
  - apply read_only_sort_completed_rides.
  - apply read_only_final_sort_completed_rides.
  - apply read_only_added_generate_advanced_analytics.
  - apply read_only_final_generate_advanced_analytics.
Qed.

Lemma evolves_run_any (cs : list any_call) (w : World) : evolves w (run_any cs w).
Proof.
  revert w. induction cs as [| c cs IH]; intros w; [apply evolves_refl |].
  cbn [run_any fold_left]. eapply evolves_trans; [apply evolves_run_any_call | apply IH].
Qed.

(* ================================================================= *)
(** ** The requests the service holds *)

Lemma keeps_requests_of_read_only {A : Type} (m : M A) : read_only m → keeps_requests m.
Proof. intros Hm w. now rewrite Hm. Qed.

Lemma keeps_requests_ret {A : Type} (a : A) : keeps_requests (mret a : M A).
Proof. intros w. reflexivity. Qed.

Lemma keeps_requests_raise {A : Type} (e : exn) : keeps_requests (raise e : M A).
Proof. intros w. reflexivity. Qed.

Lemma keeps_requests_lift_result {A : Type} (r : result A) :
  keeps_requests (lift_result r).
Proof. intros w. reflexivity. Qed.

Lemma keeps_requests_deref {A : Type} (store : World → list A) (r : ref) :
  keeps_requests (deref store r).
Proof. intros w. now rewrite deref_world. Qed.

Lemma keeps_requests_bind {A B : Type} (m : M A) (f : A → M B) :
  keeps_requests m → (∀ a, keeps_requests (f a)) → keeps_requests (m ≫= f).
Proof.
  intros Hm Hf w. rewrite bind_run. specialize (Hm w).
  destruct (m w) as [[a | e] w1]; cbn in Hm; [| exact Hm].
  etransitivity; [apply Hf | exact Hm].
Qed.

Lemma keeps_requests_assign_vehicle_store (r : ref) (x : Vehicle) :
  keeps_requests (assign set_vehicle_store r x).
Proof. intros w. reflexivity. Qed.

Lemma keeps_requests_new_vehicle_store (x : Vehicle) :
  keeps_requests (new vehicle_store set_vehicle_store x).
Proof. intros w. reflexivity. Qed.

Lemma keeps_requests_assign_driver_store (r : ref) (x : Driver) :
  keeps_requests (assign set_driver_store r x).
Proof. intros w. reflexivity. Qed.

Lemma keeps_requests_new_driver_store (x : Driver) :
  keeps_requests (new driver_store set_driver_store x).
Proof. intros w. reflexivity. Qed.

Lemma keeps_requests_assign_passenger_store (r : ref) (x : Passenger) :
  keeps_requests (assign set_passenger_store r x).
Proof. intros w. reflexivity. Qed.

Lemma keeps_requests_new_passenger_store (x : Passenger) :
  keeps_requests (new passenger_store set_passenger_store x).
Proof. intros w. reflexivity. Qed.

Lemma keeps_requests_assign_request_store (r : ref) (x : RideRequest) :
  keeps_requests (assign set_request_store r x).
Proof. intros w. reflexivity. Qed.

Lemma keeps_requests_new_request_store (x : RideRequest) :
  keeps_requests (new request_store set_request_store x).
Proof. intros w. reflexivity. Qed.

Lemma keeps_requests_assign_ride_store (r : ref) (x : Ride) :
  keeps_requests (assign set_ride_store r x).
Proof. intros w. reflexivity. Qed.

Lemma keeps_requests_new_ride_store (x : Ride) :
  keeps_requests (new ride_store set_ride_store x).
Proof. intros w. reflexivity. Qed.

Lemma keeps_requests_append_drivers (r : ref) : keeps_requests (append set_drivers r).
Proof. intros w. reflexivity. Qed.

Lemma keeps_requests_append_passengers (r : ref) : keeps_requests (append set_passengers r).
Proof. intros w. reflexivity. Qed.

Lemma keeps_requests_append_rides (r : ref) : keeps_requests (append set_rides r).
Proof. intros w. reflexivity. Qed.

Create HintDb keepsrq.

#[local] Hint Resolve keeps_requests_ret keeps_requests_raise keeps_requests_lift_result
  keeps_requests_deref keeps_requests_bind
  keeps_requests_assign_vehicle_store keeps_requests_new_vehicle_store keeps_requests_assign_driver_store keeps_requests_new_driver_store keeps_requests_assign_passenger_store keeps_requests_new_passenger_store keeps_requests_assign_request_store keeps_requests_new_request_store keeps_requests_assign_ride_store keeps_requests_new_ride_store keeps_requests_append_drivers keeps_requests_append_passengers keeps_requests_append_rides : keepsrq.

Lemma keeps_requests_on_object {A : Type} (o : option ref) (method : ref → M A) :
  (∀ r, keeps_requests (method r)) → keeps_requests (on_object o method).
Proof. intros H. destruct o; cbn; auto with keepsrq. Qed.

Lemma keeps_requests_Driver_update_location (d : ref) (loc : Location) :
  keeps_requests (Driver_update_location d loc).
Proof. unfold Driver_update_location. auto with keepsrq. Qed.

Lemma keeps_requests_Driver_set_availability (d : ref) (status : bool) :
  keeps_requests (Driver_set_availability d status).
Proof. unfold Driver_set_availability. auto with keepsrq. Qed.

#[local] Hint Resolve keeps_requests_on_object keeps_requests_Driver_update_location
  keeps_requests_Driver_set_availability : keepsrq.

Lemma keeps_requests_Driver_complete_ride (d : ref) (fare0 new_rating : R) :
  keeps_requests (Driver_complete_ride d fare0 new_rating).
Proof. unfold Driver_complete_ride. auto 6 with keepsrq. Qed.

Lemma keeps_requests_Passenger_complete_ride (p : ref) :
  keeps_requests (Passenger_complete_ride p).
Proof. unfold Passenger_complete_ride. auto with keepsrq. Qed.

Lemma keeps_requests_Passenger_update_location (p : ref) (loc : Location) :
  keeps_requests (Passenger_update_location p loc).
Proof. unfold Passenger_update_location. auto with keepsrq. Qed.

Lemma keeps_requests_Vehicle_add_mileage (v : ref) (distance : R) :
  keeps_requests (Vehicle_add_mileage v distance).
Proof. unfold Vehicle_add_mileage. auto with keepsrq. Qed.

Lemma keeps_requests_RideRequest_set_status (r : ref) (status : string) :
  keeps_requests (RideRequest_set_status r status).
Proof. unfold RideRequest_set_status. auto with keepsrq. Qed.

#[local] Hint Resolve keeps_requests_Driver_complete_ride
  keeps_requests_Passenger_complete_ride keeps_requests_Passenger_update_location
  keeps_requests_Vehicle_add_mileage keeps_requests_RideRequest_set_status : keepsrq.

Lemma keeps_requests_Ride_complete (now : datetime) (self : ref)
    (actual_distance final_fare rating : R) :
  keeps_requests (Ride_complete now self actual_distance final_fare rating).
Proof. unfold Ride_complete. auto 14 with keepsrq. Qed.

Lemma keeps_requests_start_ride (uuid : string) (now : datetime) (request : ref)
    (nearest_driver : option ref) :
  keeps_requests (start_ride uuid now request nearest_driver).
Proof. unfold start_ride, Ride_init. auto 12 with keepsrq. Qed.

Lemma keeps_requests_assign_ride (uuid : string) (now : datetime) (request : ref) :
  keeps_requests (assign_ride uuid now request).
Proof.
  unfold assign_ride. apply keeps_requests_bind; [auto with keepsrq |]. intros rq.
  apply keeps_requests_bind.
  - apply keeps_requests_of_read_only, read_only__find_nearest_driver.
  - intros [nearest distance]. apply keeps_requests_start_ride.
Qed.

Lemma keeps_requests_assign_ride_stage3 (uuid : string) (now : datetime)
    (request : ref) :
  keeps_requests (Stage3.assign_ride uuid now request).
Proof.
  unfold Stage3.assign_ride. apply keeps_requests_bind.
  - apply keeps_requests_of_read_only, read_only_optimized_driver_matching.
  - intros [nearest distance]. apply keeps_requests_start_ride.
Qed.

(** The requests keep their places: what holds of the service's requests
    holds after a step that leaves the collection as it is. *)
Lemma requests_valid_step (w w' : World) :
  evolves w w' → _requests (service w') = _requests (service w) →
  requests_valid w → requests_valid w'.
Proof.
  intros (_ & _ & _ & Hq & _) Heq Hv. unfold requests_valid in *. rewrite Heq.
  eapply Forall_impl; [exact Hv |]. intros k (rq & Hk & Hne).
  destruct (Hq k rq Hk) as (rq' & Hk' & _ & _ & Hp & Hd & _).
  exists rq'. split; [exact Hk' |]. now rewrite Hp, Hd.
Qed.

Lemma requests_valid_keeps {A : Type} (m : M A) (w : World) :
  evolving m → keeps_requests m → requests_valid w → requests_valid (snd (m w)).
Proof. intros He Hk. apply requests_valid_step; [apply He | apply Hk]. Qed.

Lemma requests_valid_request_ride (uuid : string) (now : datetime) (passenger : ref)
    (pickup dropoff : Location) (w : World) :
  requests_valid w →
  requests_valid (snd (request_ride uuid now passenger pickup dropoff w)).
Proof.
  intros Hv. unfold request_ride. case_decide as Hsame; [exact Hv |].
  unfold requests_valid in *. cbn. apply Forall_app. split.
  - eapply Forall_impl; [exact Hv |]. intros k (rq & Hk & Hne).
    exists rq. split; [now apply lookup_app_l_Some | exact Hne].
  - repeat constructor. eexists. split; [apply list_lookup_middle; reflexivity |].
    exact Hsame.
Qed.

Lemma keeps_requests_generate_simple_analytics :
  keeps_requests generate_simple_analytics.
Proof. apply keeps_requests_of_read_only, read_only_generate_simple_analytics. Qed.

#[local] Hint Resolve keeps_requests_Ride_complete keeps_requests_start_ride
  keeps_requests_assign_ride keeps_requests_assign_ride_stage3
  keeps_requests_generate_simple_analytics : keepsrq.

Lemma requests_valid_run_call (c : call) (w : World) :
  requests_valid w → requests_valid (run_call c w).
Proof.
  intros Hv.
  destruct c;
    try (cbn [run_call]; unfold state_after; apply requests_valid_request_ride;
         exact Hv).
  all: match goal with
       | Hv : requests_valid ?w |- requests_valid (run_call ?c ?w) =>
           apply (requests_valid_step w); [apply evolves_run_call | | exact Hv];
           clear Hv
       end.
  all: cbn [run_call]; unfold state_after;
    match goal with
    | |- _requests (service (snd (?m ?w))) = _ => revert w; change (keeps_requests m)
    end.
  all: unfold Vehicle_init, Driver_init, Passenger_init, RideRequest_init, Ride_init,
         add_driver, add_passenger, complete_ride; auto with keepsrq.
Qed.

Lemma requests_valid_run_any_call (c : any_call) (w : World) :
  requests_valid w → requests_valid (run_any_call c w).
Proof.
  intros Hv. destruct c as [c | | | | | | | |]; [now apply requests_valid_run_call | ..].
  all: match goal with
       | Hv : requests_valid ?w |- requests_valid (run_any_call ?c ?w) =>
           apply (requests_valid_step w); [apply evolves_run_any_call | | exact Hv];
           clear Hv
       end.
  all: cbn [run_any_call]; unfold state_after;
    match goal with
    | |- _requests (service (snd (?m ?w))) = _ => revert w; change (keeps_requests m)
    end.
  - apply keeps_requests_Passenger_update_location.
  - apply keeps_requests_of_read_only, read_only_get_driver_by_id.
  - apply keeps_requests_of_read_only, read_only__find_nearest_driver.
  - apply keeps_requests_of_read_only, read_only_optimized_driver_matching.
  - apply keeps_requests_of_read_only, read_only_sort_completed_rides.
  - apply keeps_requests_of_read_only, read_only_final_sort_completed_rides.
  - apply keeps_requests_of_read_only, read_only_added_generate_advanced_analytics.
  - apply keeps_requests_of_read_only, read_only_final_generate_advanced_analytics.
Qed.

Lemma requests_valid_run_any (cs : list any_call) (w : World) :
  requests_valid w → requests_valid (run_any cs w).
Proof.
  revert w. induction cs as [| c cs IH]; intros w Hv; [exact Hv |].
  cbn [run_any fold_left]. apply IH, requests_valid_run_any_call, Hv.
Qed.

(* ================================================================= *)
(** ** What every run keeps *)

(** Whatever is called, and in whatever order, a ride stays where it is
    stored with its id, its request, its driver and its start time; its
    status changes to Completed or not at all, and a completed ride stays
    completed: nothing reopens or reassigns a ride. *)
Theorem ride_never_reopened (cs : list any_call) (w : World) (k : ref) (r : Ride) :
  ride_store w !! k = Some r →
  ∃ r', ride_store (run_any cs w) !! k = Some r'
    ∧ Ride_id r' = Ride_id r
    ∧ Ride_request r' = Ride_request r
    ∧ Ride_driver r' = Ride_driver r
    ∧ _start_time r' = _start_time r
    ∧ (Ride_status r = "Completed"%string → Ride_status r' = "Completed"%string)
    ∧ (Ride_status r' = Ride_status r ∨ Ride_status r' = "Completed"%string).
Proof.
  intros Hk. destruct (evolves_run_any cs w) as (_ & _ & _ & _ & Hr & _).
  exact (Hr k r Hk).
Qed.

Lemma ride_never_reopened_witness :
  ∃ r', ride_store
          (run_any [Call_of (Call_complete_ride 2%Z 0%nat 4.9 11.2 18.50);
                    Call_Passenger_update_location 0%nat location_p2;
                    Call_of (Call_assign_ride "r2" 3%Z 0%nat);
                    Call_of (Call_complete_ride 4%Z 0%nat 3.0 1.0 5.0)]
             (world_riding 10)) !! 0%nat = Some r'
    ∧ Ride_id r' = "r1"%string
    ∧ Ride_request r' = 0%nat
    ∧ Ride_driver r' = Some 0%nat
    ∧ _start_time r' = 1%Z
    ∧ ("In Progress"%string = "Completed"%string → Ride_status r' = "Completed"%string)
    ∧ (Ride_status r' = "In Progress"%string ∨ Ride_status r' = "Completed"%string).
Proof.
  apply (ride_never_reopened _ (world_riding 10) 0%nat (ride_d1 10)). reflexivity.
Defined.

(** Whatever is called, a request keeps its id, its passenger, its pickup,
    its dropoff and its timestamp: only its status changes. *)
Theorem request_never_rerouted (cs : list any_call) (w : World) (k : ref)
    (rq : RideRequest) :
  request_store w !! k = Some rq →
  ∃ rq', request_store (run_any cs w) !! k = Some rq'
    ∧ RideRequest_id rq' = RideRequest_id rq
    ∧ RideRequest_passenger rq' = RideRequest_passenger rq
    ∧ pickup_loc rq' = pickup_loc rq
    ∧ dropoff_loc rq' = dropoff_loc rq
    ∧ timestamp rq' = timestamp rq.
Proof.
  intros Hk. destruct (evolves_run_any cs w) as (_ & _ & _ & Hq & _).
  exact (Hq k rq Hk).
Qed.

Lemma request_never_rerouted_witness :
  ∃ rq', request_store
           (run_any [Call_of (Call_assign_ride "r1" 1%Z 0%nat);
                     Call_of (Call_set_status 0%nat "Cancelled");
                     Call_of (Call_request_ride "q2" 2%Z 1%nat location_p2 location_dropoff)]
              world_requested) !! 0%nat = Some rq'
    ∧ RideRequest_id rq' = "q1"%string
    ∧ RideRequest_passenger rq' = 0%nat
    ∧ pickup_loc rq' = location_p1
    ∧ dropoff_loc rq' = location_dropoff
    ∧ timestamp rq' = 0%Z.
Proof.
  apply (request_never_rerouted _ world_requested 0%nat (request_p1 "Pending")).
  reflexivity.
Defined.

(** Whatever is called, a driver keeps its id, name, phone and vehicle and
    a passenger its id, name and phone, and the number of rides of either
    never goes down. *)
Theorem total_rides_never_decrease (cs : list any_call) (w : World) (d p : ref)
    (drv : Driver) (pas : Passenger) :
  driver_store w !! d = Some drv →
  passenger_store w !! p = Some pas →
  ∃ drv' pas',
    driver_store (run_any cs w) !! d = Some drv'
    ∧ passenger_store (run_any cs w) !! p = Some pas'
    ∧ _id (Driver_person drv') = _id (Driver_person drv)
    ∧ _name (Driver_person drv') = _name (Driver_person drv)
    ∧ _phone (Driver_person drv') = _phone (Driver_person drv)
    ∧ Driver_vehicle drv' = Driver_vehicle drv
    ∧ (Driver_total_rides drv <= Driver_total_rides drv')%nat
    ∧ _id (Passenger_person pas') = _id (Passenger_person pas)
    ∧ _name (Passenger_person pas') = _name (Passenger_person pas)
    ∧ _phone (Passenger_person pas') = _phone (Passenger_person pas)
    ∧ (Passenger_total_rides pas <= Passenger_total_rides pas')%nat.
Proof.
  intros Hd Hp. destruct (evolves_run_any cs w) as (_ & HD & HP & _).
  destruct (HD d drv Hd) as (drv' & Hd' & H1 & H2 & H3 & H4 & H5).
  destruct (HP p pas Hp) as (pas' & Hp' & H6 & H7 & H8 & H9).
  exists drv', pas'. repeat split; assumption.
Qed.

Lemma total_rides_never_decrease_witness :
  ∃ drv' pas',
    driver_store
      (run_any [Call_of (Call_complete_ride 2%Z 0%nat 4.9 11.2 18.50);
                Call_Passenger_update_location 0%nat location_p2]
         (world_riding 10)) !! 0%nat = Some drv'
    ∧ passenger_store
        (run_any [Call_of (Call_complete_ride 2%Z 0%nat 4.9 11.2 18.50);
                  Call_Passenger_update_location 0%nat location_p2]
           (world_riding 10)) !! 0%nat = Some pas'
    ∧ _id (Driver_person drv') = "d1"%string
    ∧ _name (Driver_person drv') = "Ahmet Yilmaz"%string
    ∧ _phone (Driver_person drv') = "555-1000"%string
    ∧ Driver_vehicle drv' = 0%nat
    ∧ (0 <= Driver_total_rides drv')%nat
    ∧ _id (Passenger_person pas') = "p1"%string
    ∧ _name (Passenger_person pas') = "Emirhan Kuluk"%string
    ∧ _phone (Passenger_person pas') = "555-4000"%string
    ∧ (0 <= Passenger_total_rides pas')%nat.
Proof.
  apply (total_rides_never_decrease _ (world_riding 10) 0%nat 0%nat
           (driver_d1 false) passenger_p1); reflexivity.
Defined.

(** The service only ever appends to its four collections: after any
    sequence of calls each of them starts with what it held before, in
    the same order. *)
Theorem collections_append_only (cs : list any_call) (w : World) :
  _drivers (service w) `prefix_of` _drivers (service (run_any cs w))
  ∧ _passengers (service w) `prefix_of` _passengers (service (run_any cs w))
  ∧ _requests (service w) `prefix_of` _requests (service (run_any cs w))
  ∧ _rides (service w) `prefix_of` _rides (service (run_any cs w)).
Proof.
  destruct (evolves_run_any cs w) as (_ & _ & _ & _ & _ & H). exact H.
Qed.

(** Every request the service holds goes from one place to a different
    one, and this stays so whatever is called: [request_ride] is the only
    method that adds to the collection, it refuses a request whose pickup
    is its dropoff, and nothing moves the ends of a request afterwards. *)
Theorem held_requests_stay_valid (cs : list any_call) (w : World) :
  requests_valid w →
  Forall (λ k, ∃ rq, request_store (run_any cs w) !! k = Some rq
                  ∧ ¬ (latitude (pickup_loc rq) = latitude (dropoff_loc rq)
                       ∧ longitude (pickup_loc rq) = longitude (dropoff_loc rq)))
    (_requests (service (run_any cs w))).
Proof. apply requests_valid_run_any. Qed.

Lemma held_requests_stay_valid_witness :
  Forall (λ k, ∃ rq,
            request_store
              (run_any [Call_of (Call_request_ride "q2" 2%Z 1%nat location_p2 location_p2);
                        Call_of (Call_request_ride "q3" 3%Z 1%nat location_p2 location_d1);
                        Call_of (Call_RideRequest "q4" 4%Z 1%nat location_p2 location_p2)]
                 world_requested) !! k = Some rq
            ∧ ¬ (latitude (pickup_loc rq) = latitude (dropoff_loc rq)
                 ∧ longitude (pickup_loc rq) = longitude (dropoff_loc rq)))
    (_requests
       (service
          (run_any [Call_of (Call_request_ride "q2" 2%Z 1%nat location_p2 location_p2);
                    Call_of (Call_request_ride "q3" 3%Z 1%nat location_p2 location_d1);
                    Call_of (Call_RideRequest "q4" 4%Z 1%nat location_p2 location_p2)]
             world_requested))).
Proof.
  apply (held_requests_stay_valid _ world_requested).
  repeat constructor. exists (request_p1 "Pending"). split; [reflexivity |].
  cbn. lra.
Defined.

(* ================================================================= *)
(** ** Completion of a ride without a driver *)

(** [complete_ride] is not all or nothing.  On a ride constructed without
    a driver ([Ride(request, None, ...)], which [assign_ride] never does)
    it stamps the end time and the status Completed, then raises
    [AttributeError] at the first use of the driver: the ride stays marked
    completed, with its fare and distance, and nothing else has changed,
    no driver, vehicle, passenger, request or collection. *)
Theorem complete_ride_without_driver (now : datetime) (ride : ref)
    (rating actual_distance final_fare : R) (w : World) (r : Ride) (rq : RideRequest) :
  ride_store w !! ride = Some r →
  request_store w !! Ride_request r = Some rq →
  Ride_driver r = None →
  ∃ w',
    complete_ride now ride rating actual_distance final_fare w = (Raise AttributeError, w')
    ∧ ride_store w' !! ride
      = Some (mkRide (Ride_id r) (Ride_request r) None (_start_time r) (Some now)
                (fare r) (estimated_distance r) "Completed")
    ∧ (∀ k, k ≠ ride → ride_store w' !! k = ride_store w !! k)
    ∧ driver_store w' = driver_store w
    ∧ vehicle_store w' = vehicle_store w
    ∧ passenger_store w' = passenger_store w
    ∧ request_store w' = request_store w
    ∧ service w' = service w.
Proof.
  intros Hr Hrq Hdr. eexists. split.
  - unfold complete_ride, Ride_complete.
    rewrite (bind_Ok _ _ _ _ _ (deref_Some ride_store ride w r Hr)).
    rewrite bind_run. cbn [assign].
    erewrite (bind_Ok (deref request_store _)) by (apply deref_Some; exact Hrq).
    rewrite Hdr. cbn [on_object]. reflexivity.
  - cbn. repeat split.
    + apply list_lookup_insert_eq. now apply lookup_lt_Some in Hr.
    + intros k Hk. apply list_lookup_insert_ne. congruence.
Qed.

Lemma complete_ride_without_driver_witness :
  ∃ w',
    complete_ride 2%Z 0%nat 4.9 11.2 18.50
      (run [Call_Ride "r0" 1%Z 0%nat None 5 3] world_requested)
    = (Raise AttributeError, w')
    ∧ ride_store w' !! 0%nat
      = Some (mkRide "r0" 0%nat None 1%Z (Some 2%Z) 5 3 "Completed").
Proof.
  destruct (complete_ride_without_driver 2%Z 0%nat 4.9 11.2 18.50
              (run [Call_Ride "r0" 1%Z 0%nat None 5 3] world_requested)
              (mkRide "r0" 0%nat None 1%Z None 5 3 "In Progress")
              (request_p1 "Pending") eq_refl eq_refl eq_refl)
    as (w' & Hrun & Hride & _).
  exists w'. split; [exact Hrun | exact Hride].
Defined.
